(** * Co-authorship graph engine and feature-fusion / scoring pipeline

    A shallow embedding of [src/citation_network.py] (class
    [CitationNetworkAnalyzer]) and [src/ml_analyzer.py] (class [MLAnalyzer])
    and the properties of them that the specification states.

    Conventions of the embedding.
    - Python [str] values are [string]s over the ASCII range; [str.lower],
      [str.strip] and [str.replace] are written out below on that range.
    - A [networkx.Graph] is its adjacency dict-of-dicts ([gmap]) together with
      the insertion order of its nodes.  The attribute dict of an undirected
      edge is one object reachable from both end points; the model writes it
      under both directions at every update.
    - Floating point numbers are rationals ([Q]); [NaN] is a separate cell
      value of a data frame and never a number.
    - A raised Python exception is the [Raise] result of the error monad
      [exc]. *)

From Stdlib Require Import String Ascii List ZArith QArith Lia Lqa.
From stdpp Require Import base option list gmap strings.

Local Open Scope string_scope.
Local Open Scope list_scope.

(** ** Python string operations used by the graph builder *)

Module PyStr.

(** [c.lower()] on one ASCII character. *)
Definition lower_ascii (c : ascii) : ascii :=
  let n := nat_of_ascii c in
  if ((65 <=? n)%nat && (n <=? 90)%nat)%bool then ascii_of_nat (n + 32) else c.

(** [s.lower()] *)
Fixpoint lower (s : string) : string :=
  match s with
  | EmptyString => EmptyString
  | String c r => String (lower_ascii c) (lower r)
  end.

(** [c.isspace()] for an ASCII character: tab, line feed, vertical tab,
    form feed, carriage return, the four separators 0x1c..0x1f and space. *)
Definition isspace (c : ascii) : bool :=
  let n := nat_of_ascii c in
  (((9 <=? n)%nat && (n <=? 13)%nat) || ((28 <=? n)%nat && (n <=? 32)%nat))%bool.

(** [s.lstrip()] *)
Fixpoint lstrip (s : string) : string :=
  match s with
  | EmptyString => EmptyString
  | String c r => if isspace c then lstrip r else s
  end.

(** [s.rstrip()] *)
Fixpoint rstrip (s : string) : string :=
  match s with
  | EmptyString => EmptyString
  | String c r =>
      match rstrip r with
      | EmptyString => if isspace c then EmptyString else String c EmptyString
      | r' => String c r'
      end
  end.

(** [s.strip()] *)
Definition strip (s : string) : string := rstrip (lstrip s).

(** [s.replace('  ', ' ')]: one left-to-right pass over the
    non-overlapping occurrences of two spaces. *)
Fixpoint replace_2sp (s : string) : string :=
  match s with
  | EmptyString => EmptyString
  | String c r =>
      match r with
      | String c' r' =>
          if (Ascii.eqb c " " && Ascii.eqb c' " ")%bool
          then String " " (replace_2sp r')
          else String c (replace_2sp r)
      | EmptyString => String c EmptyString
      end
  end.

(** [re.sub(r'\s+', ' ', s)]: every maximal run of whitespace becomes one
    space (used by [DataProcessor.normalize_author_names]). *)
Fixpoint collapse_from (in_run : bool) (s : string) : string :=
  match s with
  | EmptyString => EmptyString
  | String c r =>
      if isspace c
      then (if in_run then collapse_from true r
            else String " " (collapse_from true r))
      else String c (collapse_from false r)
  end.

Definition collapse_ws (s : string) : string := collapse_from false s.

End PyStr.

(** ** The co-authorship graph ([networkx.Graph]) *)

(** Attribute dict of an edge: [{'weight': ..., 'publications': [...]}]. *)
Record edge_attr := { weight : Z; publications : list string }.

(** [_adj] as a dict of dicts, and the keys of [_node] in insertion order. *)
Record Graph := {
  nodes : list string;
  adj : gmap string (gmap string edge_attr)
}.

Definition empty_graph : Graph := {| nodes := []; adj := ∅ |}.

(** [G[u][v]] when it exists. *)
Definition edge (G : Graph) (u v : string) : option edge_attr :=
  adj G !! u ≫= λ nb, nb !! v.

(** [G.has_edge(u, v)] *)
Definition has_edge (G : Graph) (u v : string) : bool :=
  match edge G u v with Some _ => true | None => false end.

(** The node part of [add_edge]: [if u not in self._node: ...]. *)
Definition add_node (G : Graph) (u : string) : Graph :=
  match adj G !! u with
  | Some _ => G
  | None => {| nodes := nodes G ++ [u]; adj := <[u := ∅]> (adj G) |}
  end.

(** [self._adj[u][v] = d; self._adj[v][u] = d] for one shared dict [d]. *)
Definition set_edge (G : Graph) (u v : string) (d : edge_attr) : Graph :=
  let a1 := <[u := <[v := d]> (default ∅ (adj G !! u))]> (adj G) in
  let a2 := <[v := <[u := d]> (default ∅ (a1 !! v))]> a1 in
  {| nodes := nodes G; adj := a2 |}.

(** [G.add_edge(u, v, weight=w, publications=ps)]: both attributes are
    given, so the resulting attribute dict is exactly the given one. *)
Definition add_edge (G : Graph) (u v : string) (d : edge_attr) : Graph :=
  set_edge (add_node (add_node G u) v) u v d.

(** ** [CitationNetworkAnalyzer.build_coauthorship_network] *)

(** An entry of a publication's [authors] list: a [str] or anything else. *)
Inductive pyval := PStr (s : string) | PNotStr.

Definition is_str (v : pyval) : bool :=
  match v with PStr _ => true | PNotStr => false end.

(** A row of [publications_df] as the builder reads it:
    [row.get('authors', [])] and [row.get('title', '')]. *)
Record publication := { authors : list pyval; title : string }.

(** [author.lower().strip()] followed by [.replace('  ', ' ')]. *)
Definition normalize (author : string) : string :=
  PyStr.replace_2sp (PyStr.strip (PyStr.lower author)).

(** The loop that fills [normalized_authors]. *)
Fixpoint normalized_authors (l : list pyval) : list string :=
  match l with
  | [] => []
  | PStr s :: r => normalize s :: normalized_authors r
  | PNotStr :: r => normalized_authors r
  end.

(** Body of the innermost loop, for [author1] and [author2]. *)
Definition upsert_edge (t : string) (G : Graph) (author1 author2 : string) : Graph :=
  if has_edge G author1 author2 then
    match edge G author1 author2 with
    | Some d =>
        set_edge G author1 author2
          {| weight := weight d + 1; publications := publications d ++ [t] |}
    | None => G
    end
  else add_edge G author1 author2 {| weight := 1; publications := [t] |}.

(** [for i in range(n): for j in range(i + 1, n): ...] over
    [normalized_authors]. *)
Definition pair_loops (t : string) (na : list string) (G : Graph) : Graph :=
  let n := length na in
  fold_left
    (fun G i =>
       fold_left
         (fun G j => upsert_edge t G (nth i na "") (nth j na ""))
         (seq (i + 1) (n - (i + 1))) G)
    (seq 0 n) G.

(** One iteration of the loop over [publications_df.iterrows()]. *)
Definition process_row (G : Graph) (row : publication) : Graph :=
  if (length (authors row) <? 2)%nat then G
  else pair_loops (title row) (normalized_authors (authors row)) G.

Definition build_coauthorship_network (pubs : list publication) : Graph :=
  fold_left process_row pubs empty_graph.

(** All pairs [(l[i], l[j])] with [i < j], in loop order. *)
Fixpoint author_pairs (l : list string) : list (string * string) :=
  match l with
  | [] => []
  | a :: r => map (pair a) r ++ author_pairs r
  end.

(** Number of unordered pairs among [k] items. *)
Definition choose2 (k : nat) : nat := (k * (k - 1)) / 2.

(** ** Exceptions *)

Inductive exn :=
| KeyError (key : string)
| ValueError (msg : string)
| MergeError
| NetworkXPointlessConcept
| PowerIterationFailedConvergence (iterations : nat)
| NotANumber
| OtherError (msg : string).

(** [NotANumber] is not a Python exception: it marks a run in which a NaN
    reaches floating-point arithmetic, which the rational model of floats
    does not follow. *)

(** Result of a call that may raise. *)
Inductive exc (A : Type) :=
| Ok (a : A)
| Raise (e : exn).
Arguments Ok {A} a.
Arguments Raise {A} e.

#[export] Instance exc_ret : MRet exc := fun A a => Ok a.

#[export] Instance exc_bind : MBind exc := fun A B k m =>
  match m with
  | Ok a => k a
  | Raise e => Raise e
  end.

Definition is_ok {A : Type} (m : exc A) : bool :=
  match m with Ok _ => true | Raise _ => false end.

(** ** A small model of [pandas.DataFrame] *)

(** A cell: a string, a (finite) number, or [NaN] / missing. *)
Inductive cell :=
| VStr (s : string)
| VNum (q : Q)
| VNaN.

(** Equality of join and duplicate keys; missing keys match each other. *)
Definition cell_eqb (a b : cell) : bool :=
  match a, b with
  | VStr s, VStr t => String.eqb s t
  | VNum p, VNum q => Qeq_bool p q
  | VNaN, VNaN => true
  | _, _ => false
  end.

(** A row maps column labels to cells. *)
Definition row := list (string * cell).

Record DataFrame := { columns : list string; rows : list row }.

Definition has_col (df : DataFrame) (c : string) : bool :=
  existsb (String.eqb c) (columns df).

Fixpoint row_get (r : row) (c : string) : cell :=
  match r with
  | [] => VNaN
  | (k, v) :: r' => if String.eqb k c then v else row_get r' c
  end.

(** Keys of a list of dicts in order of first appearance. *)
Fixpoint add_keys (seen : list string) (r : row) : list string :=
  match r with
  | [] => seen
  | (k, _) :: r' =>
      add_keys (if existsb (String.eqb k) seen then seen else seen ++ [k]) r'
  end.

(** [pd.DataFrame(records)] for a list of dicts: the columns are the keys
    met, in order; an empty list gives a frame without columns. *)
Definition DataFrame_of_records (records : list row) : DataFrame :=
  let cols := fold_left add_keys records [] in
  {| columns := cols;
     rows := map (fun r => map (fun c => (c, row_get r c)) cols) records |}.

(** [df[c]] *)
Definition get_column (df : DataFrame) (c : string) : exc (list cell) :=
  if has_col df c then Ok (map (fun r => row_get r c) (rows df))
  else Raise (KeyError c).

Fixpoint dedup_rows (c : string) (seen : list cell) (rs : list row) : list row :=
  match rs with
  | [] => []
  | r :: rs' =>
      let k := row_get r c in
      if existsb (cell_eqb k) seen then dedup_rows c seen rs'
      else r :: dedup_rows c (k :: seen) rs'
  end.

(** [df.drop_duplicates(subset=[c], keep='first')] *)
Definition drop_duplicates (df : DataFrame) (c : string) : exc DataFrame :=
  if has_col df c
  then Ok {| columns := columns df; rows := dedup_rows c [] (rows df) |}
  else Raise (KeyError c).

(** [df.drop(columns=[c])] *)
Definition drop_column (df : DataFrame) (c : string) : exc DataFrame :=
  if has_col df c
  then Ok {| columns := List.filter (fun k => negb (String.eqb k c)) (columns df);
             rows := map (List.filter (fun kv => negb (String.eqb (fst kv) c))) (rows df) |}
  else Raise (KeyError c).

(** [df.rename(columns={old: new})]; a label that is absent is ignored. *)
Definition rename_column (df : DataFrame) (old new : string) : DataFrame :=
  let rn := fun k : string => if String.eqb k old then new else k in
  {| columns := map rn (columns df);
     rows := map (map (fun kv : string * cell => (rn (fst kv), snd kv))) (rows df) |}.

(** [df[cols]] for a list of labels. *)
Definition select_columns (df : DataFrame) (cols : list string) : exc DataFrame :=
  match find (fun c => negb (has_col df c)) cols with
  | Some c => Raise (KeyError c)
  | None =>
      Ok {| columns := cols;
            rows := map (fun r => map (fun c => (c, row_get r c)) cols) (rows df) |}
  end.

Definition fill_cell (v : cell) : cell :=
  match v with VNaN => VNum 0 | _ => v end.

(** [df[cols] = df[cols].fillna(0)] *)
Definition fillna0 (df : DataFrame) (cols : list string) : DataFrame :=
  {| columns := columns df;
     rows := map (map (fun kv : string * cell =>
                         if existsb (String.eqb (fst kv)) cols
                         then (fst kv, fill_cell (snd kv)) else kv)) (rows df) |}.

Inductive join_kind := Inner | Left.

(** Label of a non-key column after the merge. *)
Definition suffixed (other : list string) (on sfx c : string) : string :=
  if (negb (String.eqb c on) && existsb (String.eqb c) other)%bool
  then c ++ sfx else c.

Fixpoint nodup_str (l : list string) : bool :=
  match l with
  | [] => true
  | a :: r => (negb (existsb (String.eqb a) r) && nodup_str r)%bool
  end.

(** Labels of the merged frame: the left columns, then the right columns
    without the key, each with its suffix where the two sides overlap. *)
Definition merged_columns (left right : DataFrame) (on sl sr : string) : list string :=
  map (suffixed (columns right) on sl) (columns left)
  ++ map (suffixed (columns left) on sr)
         (List.filter (fun c => negb (String.eqb c on)) (columns right)).

(** [pd.merge(left, right, on=on, how=how, suffixes=(sl, sr))].
    Rows come in the order of the left keys; a left row without a match is
    kept by a left join with the right-hand cells missing.  pandas raises
    [MergeError] when a suffix makes two labels of one side collide; a
    merged frame with a repeated label has no counterpart in this model of
    rows (a row maps each label to one cell), so every repeated label of
    the merged frame ends the call with [MergeError] here. *)
Definition merge (left right : DataFrame) (on : string) (how : join_kind)
    (sl sr : string) : exc DataFrame :=
  if negb (has_col left on) then Raise (KeyError on)
  else if negb (has_col right on) then Raise (KeyError on)
  else
    let rcols := List.filter (fun c => negb (String.eqb c on)) (columns right) in
    let lname := suffixed (columns right) on sl in
    let rname := suffixed (columns left) on sr in
    let cols := merged_columns left right on sl sr in
    if negb (nodup_str cols) then Raise MergeError
    else
      let lpart := fun l : row => map (fun c => (lname c, row_get l c)) (columns left) in
      let rpart := fun r : row => map (fun c => (rname c, row_get r c)) rcols in
      let missing := map (fun c => (rname c, VNaN)) rcols in
      let joined := fun l : row =>
        let ms := List.filter (fun r => cell_eqb (row_get l on) (row_get r on)) (rows right) in
        match ms, how with
        | [], Left => [lpart l ++ missing]
        | _, _ => map (fun r => lpart l ++ rpart r) ms
        end in
      Ok {| columns := cols; rows := flat_map joined (rows left) |}.

(** [df[c] = values]: replaces the column or appends it. *)
Definition set_column (df : DataFrame) (c : string) (vals : list cell) : DataFrame :=
  let put := fun (r : row) (v : cell) =>
    if existsb (String.eqb c) (map fst r)
    then map (fun kv : string * cell => if String.eqb (fst kv) c then (c, v) else kv) r
    else r ++ [(c, v)] in
  {| columns := if has_col df c then columns df else columns df ++ [c];
     rows := map (fun rv => put (fst rv) (snd rv)) (combine (rows df) vals) |}.

(** Key of [sort_values]: numbers, with everything else placed last. *)
Definition sort_key (v : cell) : option Q :=
  match v with VNum q => Some q | _ => None end.

(** [a] may stay in front of [b] in descending order. *)
Definition desc_before (a b : option Q) : bool :=
  match a, b with
  | Some p, Some q => Qle_bool q p
  | Some _, None => true
  | None, Some _ => false
  | None, None => true
  end.

Fixpoint insert_desc (c : string) (r : row) (sorted : list row) : list row :=
  match sorted with
  | [] => [r]
  | s :: rest =>
      if desc_before (sort_key (row_get s c)) (sort_key (row_get r c))
      then s :: insert_desc c r rest
      else r :: s :: rest
  end.

(** [df.sort_values(c, ascending=False)]: missing values last; rows with
    equal keys keep their order. *)
Definition sort_values_desc (df : DataFrame) (c : string) : exc DataFrame :=
  if has_col df c
  then Ok {| columns := columns df;
             rows := fold_left (fun acc r => insert_desc c r acc) (rows df) [] |}
  else Raise (KeyError c).

(** ** [CitationNetworkAnalyzer.calculate_network_metrics] *)

(** [G.degree(n)]: the neighbours of [n], a self-loop counted twice. *)
Definition degree (G : Graph) (n : string) : nat :=
  match adj G !! n with
  | Some nb => size nb + (match nb !! n with Some _ => 1 | None => 0 end)
  | None => 0
  end.

(** [nx.degree_centrality(G)] *)
Definition degree_centrality (G : Graph) : gmap string Q :=
  let n := length (nodes G) in
  if (n <=? 1)%nat then list_to_map (map (fun v => (v, 1%Q)) (nodes G))
  else
    let s := (1 / (inject_Z (Z.of_nat n) - 1))%Q in
    list_to_map (map (fun v => (v, (inject_Z (Z.of_nat (degree G v)) * s)%Q)) (nodes G)).

(** The iterative and path-based routines of networkx, each returning a
    dict from node to value or raising. *)
Record nx_routines := {
  betweenness_centrality : Graph -> exc (gmap string Q);
  closeness_centrality : Graph -> exc (gmap string Q);
  eigenvector_centrality : Graph -> nat -> exc (gmap string Q);
  pagerank : Graph -> exc (gmap string Q)
}.

Record CitationNetworkAnalyzer := {
  publications_df : list publication;
  authors_df : DataFrame;
  coauthorship_graph : Graph
}.

(** [d.get(node, 0)] as a cell. *)
Definition get0 (d : gmap string Q) (node : string) : cell :=
  VNum (default 0%Q (d !! node)).

(** The graph the metrics are computed on: rebuilt when it has no node. *)
Definition metrics_graph (self : CitationNetworkAnalyzer) : Graph :=
  if (length (nodes (coauthorship_graph self)) =? 0)%nat
  then build_coauthorship_network (publications_df self)
  else coauthorship_graph self.

Definition calculate_network_metrics (nx : nx_routines)
    (self : CitationNetworkAnalyzer) : exc DataFrame :=
  let G := metrics_graph self in
  let dc := degree_centrality G in
  bc ← betweenness_centrality nx G;
  cc ← closeness_centrality nx G;
  ec ← eigenvector_centrality nx G 1000;
  pr ← pagerank nx G;
  let metrics :=
    map (fun node =>
           [ ("author_name", VStr node);
             ("degree", VNum (inject_Z (Z.of_nat (degree G node))));
             ("degree_centrality", get0 dc node);
             ("betweenness_centrality", get0 bc node);
             ("closeness_centrality", get0 cc node);
             ("eigenvector_centrality", get0 ec node);
             ("pagerank", get0 pr node) ])
        (nodes G) in
  let metrics_df := DataFrame_of_records metrics in
  author_names ← get_column metrics_df "author_name";
  merged ←
    (if has_col (authors_df self) "author_normalized" then
       authors_for_merge ←
         (if has_col (authors_df self) "author_name"
          then drop_column (authors_df self) "author_name"
          else Ok (authors_df self));
       let authors_for_merge :=
         rename_column authors_for_merge "author_normalized" "author_name" in
       authors_unique ← drop_duplicates authors_for_merge "author_name";
       merge metrics_df authors_unique "author_name" Left "" "_from_authors"
     else if has_col (authors_df self) "author_name" then
       authors_unique ← drop_duplicates (authors_df self) "author_name";
       merge metrics_df authors_unique "author_name" Left "" "_from_authors"
     else Ok metrics_df);
  let merged :=
    if has_col merged "author_name" then merged
    else set_column merged "author_name" (take (length (rows merged)) author_names) in
  drop_duplicates merged "author_name".

(** ** [MLAnalyzer.create_features] *)

Definition feature_columns : list string :=
  [ "publication_count"; "total_citations"; "avg_citations_per_paper";
    "h_index_approx"; "degree"; "degree_centrality"; "betweenness_centrality";
    "closeness_centrality"; "eigenvector_centrality"; "pagerank" ].

Definition create_features (author_stats_df network_metrics_df : DataFrame)
    : exc DataFrame :=
  author_stats_unique ← drop_duplicates author_stats_df "author_name";
  network_metrics_unique ← drop_duplicates network_metrics_df "author_name";
  merged ← merge author_stats_unique network_metrics_unique "author_name" Inner "_x" "_y";
  let available_features := List.filter (has_col merged) feature_columns in
  feature_df ← select_columns merged ("author_name" :: available_features);
  let feature_df := fillna0 feature_df available_features in
  drop_duplicates feature_df "author_name".

(** ** Numeric routines of numpy and scikit-learn *)

(** The parts of scikit-learn, LightGBM and numpy that the analyzer calls
    and that are not arithmetic on rationals: the square root, the seeded
    shuffle of [train_test_split], and fitting a regressor and predicting
    with it. *)
Record sklearn_routines := {
  np_sqrt : Q -> Q;
  LIGHTGBM_AVAILABLE : bool;
  (** positions (below [n]) of the rows chosen for the train part and for
      the test part by [train_test_split(..., test_size=t, random_state=42)]
      on [n] samples; raises when a part would be empty *)
  split_indices : nat -> Q -> exc (list nat * list nat);
  (** [model.fit(X_train, y_train); model.predict(X_test)] for a model kind *)
  fit_predict : string -> list (list Q) -> list Q -> list (list Q) -> exc (list Q);
  (** [model.feature_importances_] of a fitted tree model *)
  feature_importances_ : string -> list (list Q) -> list Q -> list Q
}.

Definition qsum (l : list Q) : Q := fold_right Qplus 0%Q l.

Definition qmean (l : list Q) : Q :=
  (qsum l / inject_Z (Z.of_nat (length l)))%Q.

Definition qsq (x : Q) : Q := (x * x)%Q.

(** Column [j] of a row-major matrix, [X[:, j]]. *)
Definition column (X : list (list Q)) (j : nat) : list Q :=
  map (fun r => nth j r 0%Q) X.

(** [mean_] and [scale_] of a fitted [StandardScaler]. *)
Record scaler_params := { mean_ : list Q; scale_ : list Q }.

(** Scale of one feature: the root of the population variance, and 1 for a
    constant feature. *)
Definition feature_scale (sk : sklearn_routines) (col : list Q) : Q :=
  let m := qmean col in
  let var := qmean (map (fun x => qsq (x - m)) col) in
  if Qeq_bool var 0 then 1%Q else np_sqrt sk var.

Definition scaler_fit (sk : sklearn_routines) (n_features : nat)
    (X : list (list Q)) : scaler_params :=
  {| mean_ := map (fun j => qmean (column X j)) (seq 0 n_features);
     scale_ := map (fun j => feature_scale sk (column X j)) (seq 0 n_features) |}.

Definition scale_row (p : scaler_params) (r : list Q) : list Q :=
  map (fun xms : Q * (Q * Q) => ((fst xms - fst (snd xms)) / snd (snd xms))%Q)
      (combine r (combine (mean_ p) (scale_ p))).

(** [scaler.transform(X)]; an array without samples is refused. *)
Definition scaler_transform (p : scaler_params) (X : list (list Q))
    : exc (list (list Q)) :=
  match X with
  | [] => Raise (ValueError "Found array with 0 sample(s)")
  | _ => Ok (map (scale_row p) X)
  end.

(** [scaler.fit(X)]; an array without samples or without features is
    refused. *)
Definition scaler_fit_checked (sk : sklearn_routines) (n_features : nat)
    (X : list (list Q)) : exc scaler_params :=
  match X with
  | [] => Raise (ValueError "Found array with 0 sample(s)")
  | _ =>
      if (n_features =? 0)%nat then Raise (ValueError "Found array with 0 feature(s)")
      else Ok (scaler_fit sk n_features X)
  end.

(** [scaler.fit_transform(X)] *)
Definition fit_transform (sk : sklearn_routines) (n_features : nat)
    (X : list (list Q)) : exc (list (list Q)) :=
  p ← scaler_fit_checked sk n_features X;
  scaler_transform p X.

(** A cell read as a float. *)
Definition cell_float (v : cell) : exc Q :=
  match v with
  | VNum q => Ok q
  | VStr _ => Raise (ValueError "could not convert string to float")
  | VNaN => Raise NotANumber
  end.

Fixpoint exc_map {A B : Type} (f : A -> exc B) (l : list A) : exc (list B) :=
  match l with
  | [] => Ok []
  | a :: r => b ← f a; bs ← exc_map f r; Ok (b :: bs)
  end.

(** [df[cols].values] as a float matrix. *)
Definition float_values (df : DataFrame) (cols : list string) : exc (list (list Q)) :=
  exc_map (fun r => exc_map (fun c => cell_float (row_get r c)) cols) (rows df).

(** ** [MLAnalyzer.calculate_impact_score] *)

Record MLAnalyzer := {
  author_stats_df : DataFrame;
  network_metrics_df : DataFrame;
  feature_df : option DataFrame
}.

(** [if self.feature_df is None: self.create_features()] *)
Definition ensure_features (self : MLAnalyzer) : exc DataFrame :=
  match feature_df self with
  | Some df => Ok df
  | None => create_features (author_stats_df self) (network_metrics_df self)
  end.

Definition weights : list (string * Q) :=
  [ ("total_citations", 0.25); ("h_index_approx", 0.20);
    ("publication_count", 0.10); ("pagerank", 0.15);
    ("betweenness_centrality", 0.10); ("eigenvector_centrality", 0.10);
    ("degree_centrality", 0.05); ("closeness_centrality", 0.05) ]%Q.

Fixpoint dict_get {V : Type} (d : list (string * V)) (k : string) : option V :=
  match d with
  | [] => None
  | (k', v) :: r => if String.eqb k' k then Some v else dict_get r k
  end.

(** [for i, col in enumerate(feature_cols): if col in weights:
       impact_score += X_scaled[:, i] * weights[col]] *)
Definition weighted_sum (feature_cols : list string) (X_scaled : list (list Q))
    : list Q :=
  fold_left
    (fun (acc : list Q) (ic : nat * string) =>
       match dict_get weights (snd ic) with
       | Some w =>
           map (fun ax : Q * Q => (fst ax + snd ax * w)%Q)
               (combine acc (column X_scaled (fst ic)))
       | None => acc
       end)
    (combine (seq 0 (length feature_cols)) feature_cols)
    (map (fun _ => 0%Q) X_scaled).

(** [a.max()] and [a.min()] of an array with first element [x]. *)
Definition qmax (x : Q) (l : list Q) : Q :=
  fold_left (fun m y => if Qle_bool y m then m else y) l x.
Definition qmin (x : Q) (l : list Q) : Q :=
  fold_left (fun m y => if Qle_bool m y then m else y) l x.

(** The min-max rescaling to 0..100 with its guard. *)
Definition min_max_100 (impact_score : list Q) : list Q :=
  match impact_score with
  | [] => []
  | x :: r =>
      let mx := qmax x r in
      let mn := qmin x r in
      if negb (Qle_bool mx mn)
      then map (fun s => ((s - mn) / (mx - mn) * 100)%Q) impact_score
      else map (fun _ => 0%Q) impact_score
  end.

Definition non_key_columns (df : DataFrame) : list string :=
  List.filter (fun c => negb (String.eqb c "author_name")) (columns df).

(** The raw (weighted, not yet rescaled) score of every row. *)
Definition raw_impact (sk : sklearn_routines) (df : DataFrame) : exc (list Q) :=
  let feature_cols := non_key_columns df in
  X ← float_values df feature_cols;
  X_scaled ← fit_transform sk (length feature_cols) X;
  Ok (weighted_sum feature_cols X_scaled).

(** Returns the sorted table and the analyzer, whose [feature_df] now has
    the [impact_score] column. *)
Definition calculate_impact_score (sk : sklearn_routines) (self : MLAnalyzer)
    : exc (DataFrame * MLAnalyzer) :=
  df ← ensure_features self;
  raw ← raw_impact sk df;
  let impact_score := min_max_100 raw in
  let df := set_column df "impact_score" (map VNum impact_score) in
  sorted ← sort_values_desc df "impact_score";
  Ok (sorted, {| author_stats_df := author_stats_df self;
                 network_metrics_df := network_metrics_df self;
                 feature_df := Some df |}).

(** ** [MLAnalyzer.predict_citations] *)

(** A float as scikit-learn's metrics return it: a number or [NaN]. *)
Definition pyfloat := option Q.

(** Python's [a > b] on floats: false as soon as one side is [NaN]. *)
Definition float_gt (a b : pyfloat) : bool :=
  match a, b with
  | Some x, Some y => negb (Qle_bool x y)
  | _, _ => false
  end.

(** [sklearn.metrics.r2_score(y_true, y_pred)] *)
Definition r2_score (y_true y_pred : list Q) : exc pyfloat :=
  if negb (length y_true =? length y_pred)%nat
  then Raise (ValueError "inconsistent numbers of samples")
  else if (length y_true =? 0)%nat
  then Raise (ValueError "Found array with 0 sample(s)")
  else if (length y_pred <? 2)%nat then Ok None
  else
    let numerator :=
      qsum (map (fun tp : Q * Q => qsq (fst tp - snd tp)) (combine y_true y_pred)) in
    let m := qmean y_true in
    let denominator := qsum (map (fun t => qsq (t - m)) y_true) in
    if negb (Qeq_bool denominator 0) then Ok (Some (1 - numerator / denominator)%Q)
    else if negb (Qeq_bool numerator 0) then Ok (Some 0%Q)
    else Ok (Some 1%Q).

(** [sklearn.metrics.mean_squared_error(y_true, y_pred)] *)
Definition mean_squared_error (y_true y_pred : list Q) : exc Q :=
  if negb (length y_true =? length y_pred)%nat
  then Raise (ValueError "inconsistent numbers of samples")
  else if (length y_true =? 0)%nat
  then Raise (ValueError "Found array with 0 sample(s)")
  else Ok (qmean (map (fun tp : Q * Q => qsq (fst tp - snd tp)) (combine y_true y_pred))).

(** An entry of [results]. *)
Record model_result := {
  r2_score_ : pyfloat;
  rmse : Q;
  model_name : string
}.

(** [d[k] = v] on an insertion-ordered dict. *)
Fixpoint dict_set {V : Type} (d : list (string * V)) (k : string) (v : V)
    : list (string * V) :=
  match d with
  | [] => [(k, v)]
  | (k', v') :: r =>
      if String.eqb k' k then (k, v) :: r else (k', v') :: dict_set r k v
  end.

Definition upper_ascii (c : ascii) : ascii :=
  let n := nat_of_ascii c in
  if ((97 <=? n)%nat && (n <=? 122)%nat)%bool then ascii_of_nat (n - 32) else c.

(** [s.upper()] *)
Fixpoint upper (s : string) : string :=
  match s with
  | EmptyString => EmptyString
  | String c r => String (upper_ascii c) (upper r)
  end.

(** The default of the [models] argument. *)
Definition default_models : list string := ["rf"; "lgbm"; "dt"].

(** What one iteration of the model loop did. *)
Inductive attempt :=
| Trained (y_pred : list Q) (res : model_result)
| Skipped.

(** Body of the [try] for one model name; every exception raised inside
    is caught by the [except] clause and the model is skipped, as are a
    model whose library is missing and an unknown name. *)
Definition train_one (sk : sklearn_routines) (X_train_scaled : list (list Q))
    (y_train : exc (list Q)) (X_test_scaled : list (list Q))
    (y_test : exc (list Q)) (model_name : string) : attempt :=
  let known :=
    (String.eqb model_name "rf" || String.eqb model_name "lgbm"
     || String.eqb model_name "dt" || String.eqb model_name "svm")%bool in
  if negb known then Skipped
  else if (String.eqb model_name "lgbm" && negb (LIGHTGBM_AVAILABLE sk))%bool
  then Skipped
  else
    match
      (ytr ← y_train;
       y_pred ← fit_predict sk model_name X_train_scaled ytr X_test_scaled;
       yte ← y_test;
       r2 ← r2_score yte y_pred;
       mse ← mean_squared_error yte y_pred;
       Ok (y_pred, {| r2_score_ := r2; rmse := np_sqrt sk mse;
                      model_name := upper model_name |}))
    with
    | Ok (y_pred, res) => Trained y_pred res
    | Raise _ => Skipped
    end.

(** The loop [for model_name in models], threading [results] and
    [all_predictions]. *)
Definition train_all (sk : sklearn_routines) (X_train_scaled : list (list Q))
    (y_train : exc (list Q)) (X_test_scaled : list (list Q))
    (y_test : exc (list Q)) (models : list string)
    : list (string * model_result) * list (string * list Q) :=
  fold_left
    (fun (st : list (string * model_result) * list (string * list Q)) name =>
       match train_one sk X_train_scaled y_train X_test_scaled y_test name with
       | Trained y_pred res =>
           (dict_set (fst st) name res, dict_set (snd st) name y_pred)
       | Skipped => st
       end)
    models ([], []).

(** [max(results.keys(), key=lambda x: results[x]['r2_score'])] on a
    non-empty dict: the first key is kept until a later one has a strictly
    greater score. *)
Definition best_of (results : list (string * model_result)) : option string :=
  match results with
  | [] => None
  | first :: rest =>
      Some (fst (fold_left
                   (fun (best : string * model_result) kv =>
                      if float_gt (r2_score_ (snd kv)) (r2_score_ (snd best))
                      then kv else best)
                   rest first))
  end.

(** The dict returned by [predict_citations] (the fitted model objects
    are represented by their names, the keys of [results]). *)
Record prediction_report := {
  results : list (string * model_result);
  best_model : option string;
  feature_importance : DataFrame;
  predictions : list (string * list Q);
  actual : list cell;
  feature_names : list string
}.

(** [a[idx]] *)
Definition take_rows {A : Type} (d : A) (l : list A) (idx : list nat) : list A :=
  map (fun i => nth i l d) idx.

(** Feature importances of the best model as a table. *)
Definition importance_table (sk : sklearn_routines) (best : string)
    (feature_cols : list string) (X_train_scaled : list (list Q))
    (y_train : exc (list Q)) : exc DataFrame :=
  let table := fun imps : list Q =>
    {| columns := ["feature"; "importance"];
       rows := map (fun fi : string * Q =>
                      [("feature", VStr (fst fi)); ("importance", VNum (snd fi))])
                   (combine feature_cols imps) |} in
  if String.eqb best "svm"
  then Ok (table (map (fun _ => 0%Q) feature_cols))
  else
    let ytr := match y_train with Ok l => l | Raise _ => [] end in
    sort_values_desc (table (feature_importances_ sk best X_train_scaled ytr))
                     "importance".

Definition predict_citations (sk : sklearn_routines) (self : MLAnalyzer)
    (test_size : Q) (models : option (list string)) : exc prediction_report :=
  df ← ensure_features self;
  let models := match models with None => default_models | Some l => l end in
  let feature_cols :=
    List.filter (fun c => negb (String.eqb c "author_name" || String.eqb c "total_citations"
                           || String.eqb c "impact_score")%bool) (columns df) in
  let Xc := map (fun r => map (fun c => fill_cell (row_get r c)) feature_cols) (rows df) in
  yc ← get_column df "total_citations";
  let yc := map fill_cell yc in
  idx ← split_indices sk (length (rows df)) test_size;
  let X_train := take_rows [] Xc (fst idx) in
  let X_test := take_rows [] Xc (snd idx) in
  let y_train := exc_map cell_float (take_rows VNaN yc (fst idx)) in
  let y_test := exc_map cell_float (take_rows VNaN yc (snd idx)) in
  Xtr ← exc_map (exc_map cell_float) X_train;
  p ← scaler_fit_checked sk (length feature_cols) Xtr;
  X_train_scaled ← scaler_transform p Xtr;
  Xte ← exc_map (exc_map cell_float) X_test;
  X_test_scaled ← scaler_transform p Xte;
  let trained := train_all sk X_train_scaled y_train X_test_scaled y_test models in
  fi ← match best_of (fst trained) with
       | Some b => importance_table sk b feature_cols X_train_scaled y_train
       | None => Ok {| columns := []; rows := [] |}
       end;
  Ok {| results := fst trained;
        best_model := best_of (fst trained);
        feature_importance := fi;
        predictions := snd trained;
        actual := take_rows VNaN yc (snd idx);
        feature_names := feature_cols |}.

(** ** Vocabulary of the statements *)

(** The two directions under which an edge between [u] and [v] is stored. *)
Definition same_edge (u v x y : string) : Prop :=
  (x = u /\ y = v) \/ (x = v /\ y = u).

#[export] Instance same_edge_dec u v x y : Decision (same_edge u v x y).
Proof. unfold same_edge. apply _. Defined.

(** Attribute dict of an edge after one pass through the loop body, from
    the dict it had before (if any). *)
Definition upserted (t : string) (old : option edge_attr) : edge_attr :=
  match old with
  | Some d => {| weight := weight d + 1; publications := publications d ++ [t] |}
  | None => {| weight := 1; publications := [t] |}
  end.

(** Every edge of the graph has weight at least 1. *)
Definition weights_positive (G : Graph) : Prop :=
  forall u v d, edge G u v = Some d -> (1 <= weight d)%Z.

(** No edge of the graph joins a node to itself. *)
Definition loop_free (G : Graph) : Prop :=
  forall u v d, edge G u v = Some d -> u <> v.

(** The two tables can be fused: each has the key column, and the labels of
    the merged frame do not collide. *)
Definition fusable (author_stats_df network_metrics_df : DataFrame) : bool :=
  (has_col author_stats_df "author_name"
   && has_col network_metrics_df "author_name"
   && nodup_str (merged_columns author_stats_df network_metrics_df
                                "author_name" "_x" "_y"))%bool.

(** Values of column [c], row by row. *)
Definition keys_of (c : string) (rs : list row) : list cell :=
  map (fun r => row_get r c) rs.

(** The author identities of a table: its key column. *)
Definition author_keys (df : DataFrame) : list cell :=
  keys_of "author_name" (rows df).

(** Keys pairwise different, and different from the keys of [seen]. *)
Fixpoint distinct_keys (seen : list cell) (ks : list cell) : Prop :=
  match ks with
  | [] => True
  | k :: r => existsb (cell_eqb k) seen = false /\ distinct_keys (k :: seen) r
  end.

(** Rows of the inner join of the two de-duplicated tables. *)
Definition fused_rows (stats net : DataFrame) : list row :=
  let lname := suffixed (columns net) "author_name" "_x" in
  let rname := suffixed (columns stats) "author_name" "_y" in
  let rcols := List.filter (fun c => negb (String.eqb c "author_name")) (columns net) in
  flat_map
    (fun l : row =>
       map (fun r : row =>
              map (fun c => (lname c, row_get l c)) (columns stats)
              ++ map (fun c => (rname c, row_get r c)) rcols)
           (List.filter (fun r => cell_eqb (row_get l "author_name") (row_get r "author_name"))
                        (dedup_rows "author_name" [] (rows net))))
    (dedup_rows "author_name" [] (rows stats)).

(** The weighted score of one scaled row: what the loop over the feature
    columns adds up at the position of that row. *)
Definition row_score (feature_cols : list string) (r : list Q) : Q :=
  fold_left
    (fun (a : Q) (ic : nat * string) =>
       match dict_get weights (snd ic) with
       | Some w => (a + nth (fst ic) r 0 * w)%Q
       | None => a
       end)
    (combine (seq 0 (length feature_cols)) feature_cols)
    0%Q.

(** Every cell of a feature column holds a number. *)
Definition numeric_features (df : DataFrame) : Prop :=
  forall r c, In r (rows df) -> In c (non_key_columns df) ->
              exists q, row_get r c = VNum q.

(** Rows in descending order of the sort key of column [c]: every row may
    stay in front of every later one. *)
Fixpoint rows_descending (c : string) (rs : list row) : Prop :=
  match rs with
  | [] => True
  | r :: rest =>
      (forall r', In r' rest ->
         desc_before (sort_key (row_get r c)) (sort_key (row_get r' c)) = true)
      /\ rows_descending c rest
  end.

(** A list of numbers in non-increasing order. *)
Fixpoint non_increasing (l : list Q) : Prop :=
  match l with
  | [] => True
  | x :: rest => (forall y, In y rest -> (y <= x)%Q) /\ non_increasing rest
  end.

(** The scores of a run are all numbers or all [NaN]. *)
Definition uniform_scores (l : list (string * model_result)) : Prop :=
  (forall kv, In kv l -> exists q, r2_score_ (snd kv) = Some q) \/
  (forall kv, In kv l -> r2_score_ (snd kv) = None).

(** [best] sits in the list with every earlier entry strictly below it and
    no later entry above it, in Python's comparison of floats. *)
Definition first_maximum (pre : list (string * model_result))
    (best : string * model_result) (post : list (string * model_result)) : Prop :=
  (forall kv, In kv pre ->
     float_gt (r2_score_ (snd best)) (r2_score_ (snd kv)) = true) /\
  (forall kv, In kv post ->
     float_gt (r2_score_ (snd kv)) (r2_score_ (snd best)) = false).

(** ** Sample inputs *)

(** networkx routines whose eigenvector power iteration does not converge
    within the iteration cap; the other routines return. *)
Definition nx_not_converging : nx_routines :=
  {| betweenness_centrality := fun _ => Ok ∅;
     closeness_centrality := fun _ => Ok ∅;
     eigenvector_centrality := fun _ max_iter => Raise (PowerIterationFailedConvergence max_iter);
     pagerank := fun _ => Ok ∅ |}.

(** networkx routines that return (an empty dict) on every graph with a
    node.  On the graph without nodes they do what networkx does there:
    betweenness, closeness and PageRank return the empty dict, and
    [eigenvector_centrality] raises [NetworkXPointlessConcept]. *)
Definition nx_returning : nx_routines :=
  {| betweenness_centrality := fun _ => Ok ∅;
     closeness_centrality := fun _ => Ok ∅;
     eigenvector_centrality := fun G _ =>
       match nodes G with
       | [] => Raise NetworkXPointlessConcept
       | _ :: _ => Ok ∅
       end;
     pagerank := fun _ => Ok ∅ |}.

Definition ex_authors_df : DataFrame :=
  DataFrame_of_records
    [ [("author_name", VStr "A"); ("author_normalized", VStr "a")];
      [("author_name", VStr "B"); ("author_normalized", VStr "b")] ].

Definition ex_analyzer_ab : CitationNetworkAnalyzer :=
  {| publications_df := [ {| authors := [PStr "A"; PStr "B"]; title := "P1" |} ];
     authors_df := ex_authors_df;
     coauthorship_graph := empty_graph |}.

(** Only single-author publications: no co-authorship edge. *)
Definition ex_analyzer_solo : CitationNetworkAnalyzer :=
  {| publications_df := [ {| authors := [PStr "C"]; title := "P3" |} ];
     authors_df := ex_authors_df;
     coauthorship_graph := empty_graph |}.

(** Scenario 2 of the specification: bibliometric statistics for a, b and d. *)
Definition ex_stats : DataFrame :=
  DataFrame_of_records
    [ [("author_name", VStr "a"); ("total_citations", VNum 3)];
      [("author_name", VStr "b"); ("total_citations", VNaN)];
      [("author_name", VStr "d"); ("total_citations", VNum 1)] ].

(** Scenario 2 of the specification: network metrics for a, b and c. *)
Definition ex_net : DataFrame :=
  DataFrame_of_records
    [ [("author_name", VStr "a"); ("degree", VNum 1); ("pagerank", VNaN)];
      [("author_name", VStr "b"); ("degree", VNum 2); ("pagerank", VNum 0.5)];
      [("author_name", VStr "c"); ("degree", VNum 1); ("pagerank", VNum 0.25)] ].

(** A network-metrics table with its columns and no row. *)
Definition ex_metrics_no_rows : DataFrame :=
  {| columns := ["author_name"; "degree"; "pagerank"]; rows := [] |}.

Definition ex_row_abc : publication :=
  {| authors := [PStr "A"; PStr "B"; PStr "C"]; title := "P2" |}.

(** One publication whose two author entries differ in case only. *)
Definition ex_pubs_same_name_twice : list publication :=
  [ {| authors := [PStr "Ada Lovelace"; PStr "ada lovelace"]; title := "Notes" |} ].

(** Scenario 1 of the specification. *)
Definition ex_pubs_scenario1 : list publication :=
  [ {| authors := [PStr "A"; PStr "B"]; title := "P1" |};
    ex_row_abc;
    {| authors := [PStr "C"]; title := "P3" |} ].

(** A square root on rationals, rounded down to a multiple of the inverse
    denominator. *)
Definition sqrt_floor (q : Q) : Q :=
  (inject_Z (Z.sqrt (Qnum q * Z.pos (Qden q))) / inject_Z (Z.pos (Qden q)))%Q.

(** Sample routines: the rounded root; a shuffle that puts the first two
    rows into the test part; regressors that predict the mean of the
    training targets, the decision tree failing to fit. *)
Definition sk_sample : sklearn_routines :=
  {| np_sqrt := sqrt_floor;
     LIGHTGBM_AVAILABLE := false;
     split_indices := fun n _ =>
       if (n <? 3)%nat then Raise (ValueError "the resulting train set will be empty")
       else Ok (seq 2 (n - 2), [0; 1]);
     fit_predict := fun name _ y_train X_test =>
       if String.eqb name "dt" then Raise (ValueError "fit failed")
       else Ok (map (fun _ => qmean y_train) X_test);
     feature_importances_ := fun _ X_train _ =>
       map (fun _ => 1%Q) (match X_train with r :: _ => r | [] => [] end) |}.

Definition ex_features : DataFrame :=
  {| columns := ["author_name"; "total_citations"; "pagerank"];
     rows :=
       [ [("author_name", VStr "a"); ("total_citations", VNum 3); ("pagerank", VNum 0.5)];
         [("author_name", VStr "b"); ("total_citations", VNum 10); ("pagerank", VNum 0.25)];
         [("author_name", VStr "c"); ("total_citations", VNum 1); ("pagerank", VNum 0.25)];
         [("author_name", VStr "d"); ("total_citations", VNum 4); ("pagerank", VNum 0.125)] ] |}.

Definition ex_ml : MLAnalyzer :=
  {| author_stats_df := ex_stats;
     network_metrics_df := ex_net;
     feature_df := Some ex_features |}.

(** ** Closed form of the built graph *)

(** The pair [p] of co-authors is the pair [u], [v], in either order. *)
Definition pair_matches (u v : string) (p : string * string) : bool :=
  bool_decide (same_edge (fst p) (snd p) u v).

(** The titles one publication records on the edge between [u] and [v]:
    its title once for every pair of its normalized authors that is [u], [v]. *)
Definition row_titles (u v : string) (row : publication) : list string :=
  if (length (authors row) <? 2)%nat then []
  else map (fun _ => title row)
           (List.filter (pair_matches u v)
                        (author_pairs (normalized_authors (authors row)))).

(** The titles all publications record on the edge, in input order. *)
Definition edge_titles (u v : string) (pubs : list publication) : list string :=
  flat_map (row_titles u v) pubs.

(** The edge that carries the titles [ts]: none when there is no title. *)
Definition attr_of_titles (ts : list string) : option edge_attr :=
  match ts with
  | [] => None
  | _ => Some {| weight := Z.of_nat (length ts); publications := ts |}
  end.

(** A publication that reaches the pair loops with at least one pair. *)
Definition qualifying (row : publication) : Prop :=
  2 <= length (authors row) /\ 2 <= length (normalized_authors (authors row)).

(** Nodes and adjacency agree: the nodes are distinct, they are the keys of
    the adjacency dict, and both end points of every edge are among them. *)
Definition graph_consistent (G : Graph) : Prop :=
  NoDup (nodes G) /\
  (forall u, In u (nodes G) <-> is_Some (adj G !! u)) /\
  (forall u v d, edge G u v = Some d -> is_Some (adj G !! v)).

(** ** [CitationNetworkAnalyzer.find_research_communities] *)

(** The community detection routines: [community.best_partition] of
    python-louvain, absent when the import fails, and the first partition
    produced by [nx.community.girvan_newman]. *)
Record community_routines := {
  best_partition : option (Graph -> exc (list (string * Z)));
  girvan_newman_first : Graph -> exc (list (list string))
}.

(** [for i, comm in enumerate(top_level_communities):
       for node in comm: communities[node] = i] *)
Definition label_communities (top_level_communities : list (list string))
    : list (string * Z) :=
  fold_left
    (fun (communities : list (string * Z)) (ic : nat * list string) =>
       fold_left (fun communities node => dict_set communities node (Z.of_nat (fst ic)))
                 (snd ic) communities)
    (combine (seq 0 (length top_level_communities)) top_level_communities)
    [].

(** [_girvan_newman_communities] *)
Definition girvan_newman_communities (cr : community_routines) (G : Graph)
    : exc (list (string * Z)) :=
  top_level_communities ← girvan_newman_first cr G;
  Ok (label_communities top_level_communities).

(** [community_dict[comm_id].append(node)] on a [defaultdict(list)]. *)
Fixpoint group_append (community_dict : list (Z * list string)) (comm_id : Z)
    (node : string) : list (Z * list string) :=
  match community_dict with
  | [] => [(comm_id, [node])]
  | (k, ns) :: r =>
      if Z.eqb k comm_id then (k, ns ++ [node]) :: r
      else (k, ns) :: group_append r comm_id node
  end.

(** [for node, comm_id in communities.items(): ...] *)
Definition group_communities (communities : list (string * Z))
    : list (Z * list string) :=
  fold_left (fun cd nc => group_append cd (snd nc) (fst nc)) communities [].

Definition find_research_communities (cr : community_routines)
    (self : CitationNetworkAnalyzer) (algorithm : string)
    : exc (list (Z * list string)) :=
  let G := metrics_graph self in
  communities ←
    (if String.eqb algorithm "louvain" then
       match best_partition cr with
       | Some louvain => louvain G
       | None => girvan_newman_communities cr G
       end
     else girvan_newman_communities cr G);
  Ok (group_communities communities).

(** The nodes labelled [comm_id], in the order of the labelling. *)
Definition members (comm_id : Z) (communities : list (string * Z)) : list string :=
  map fst (List.filter (fun nc => Z.eqb (snd nc) comm_id) communities).

(** The communities with their positions, the empty ones left out. *)
Definition indexed_nonempty (top_level_communities : list (list string))
    : list (Z * list string) :=
  map (fun ic : nat * list string => (Z.of_nat (fst ic), snd ic))
      (List.filter (fun ic : nat * list string =>
                      match snd ic with [] => false | _ => true end)
                   (combine (seq 0 (length top_level_communities))
                            top_level_communities)).

(** Girvan-Newman routines returning the connected components of a sample
    graph; python-louvain is not installed. *)
Definition cr_sample : community_routines :=
  {| best_partition := None;
     girvan_newman_first := fun _ => Ok [["a"; "b"]; []; ["c"]] |}.

(** ** Vocabulary for the metrics table and the top-n selections *)

(** The labels of the dicts collected in [metrics]. *)
Definition metric_labels : list string :=
  [ "author_name"; "degree"; "degree_centrality"; "betweenness_centrality";
    "closeness_centrality"; "eigenvector_centrality"; "pagerank" ].

(** The dict appended to [metrics] for one node. *)
Definition metric_record (G : Graph) (bc cc ec pr : gmap string Q)
    (node : string) : row :=
  [ ("author_name", VStr node);
    ("degree", VNum (inject_Z (Z.of_nat (degree G node))));
    ("degree_centrality", get0 (degree_centrality G) node);
    ("betweenness_centrality", get0 bc node);
    ("closeness_centrality", get0 cc node);
    ("eigenvector_centrality", get0 ec node);
    ("pagerank", get0 pr node) ].

(** The part of [calculate_network_metrics] after [metrics_df] and
    [author_names] are built: the merge with the author table and the final
    removal of duplicates. *)
Definition merge_with_authors (authors_df metrics_df : DataFrame)
    (author_names : list cell) : exc DataFrame :=
  merged ←
    (if has_col authors_df "author_normalized" then
       authors_for_merge ←
         (if has_col authors_df "author_name"
          then drop_column authors_df "author_name"
          else Ok authors_df);
       let authors_for_merge :=
         rename_column authors_for_merge "author_normalized" "author_name" in
       authors_unique ← drop_duplicates authors_for_merge "author_name";
       merge metrics_df authors_unique "author_name" Left "" "_from_authors"
     else if has_col authors_df "author_name" then
       authors_unique ← drop_duplicates authors_df "author_name";
       merge metrics_df authors_unique "author_name" Left "" "_from_authors"
     else Ok metrics_df);
  let merged :=
    if has_col merged "author_name" then merged
    else set_column merged "author_name" (take (length (rows merged)) author_names) in
  drop_duplicates merged "author_name".

(** ** Top-n selections *)

Definition is_str_cell (v : cell) : bool :=
  match v with VStr _ => true | _ => false end.

(** [df.nlargest(n, c)]: the first [n] rows in descending order of column
    [c], earlier rows first among equal values and missing values last.  A
    column of dtype object is refused; the dtype is read off the cells, a
    column being of dtype object when one of its cells is a string. *)
Definition nlargest (df : DataFrame) (n : nat) (c : string) : exc DataFrame :=
  if negb (has_col df c) then Raise (KeyError c)
  else if existsb (fun r => is_str_cell (row_get r c)) (rows df)
  then Raise (OtherError "TypeError: dtype object, cannot use method 'nlargest'")
  else
    sorted ← sort_values_desc df c;
    Ok {| columns := columns sorted; rows := firstn n (rows sorted) |}.

(** [CitationNetworkAnalyzer.get_top_connectors] *)
Definition get_top_connectors (nx : nx_routines) (self : CitationNetworkAnalyzer)
    (top_n : nat) : exc DataFrame :=
  metrics_df ← calculate_network_metrics nx self;
  metrics_df ← drop_duplicates metrics_df "author_name";
  nlargest metrics_df top_n "degree".

(** The columns [get_top_influential_authors] returns. *)
Definition influential_columns : list string :=
  [ "author_name"; "impact_score"; "total_citations"; "publication_count";
    "h_index_approx"; "pagerank" ].

(** [self.feature_df] as [get_top_influential_authors] uses it: scored
    first when it is missing or has no [impact_score] column. *)
Definition scored_features (sk : sklearn_routines) (self : MLAnalyzer)
    : exc DataFrame :=
  let rescored :=
    r ← calculate_impact_score sk self;
    match feature_df (snd r) with
    | Some df => Ok df
    | None => Raise (OtherError "AttributeError: 'NoneType' object has no attribute 'drop_duplicates'")
    end in
  match feature_df self with
  | Some df => if has_col df "impact_score" then Ok df else rescored
  | None => rescored
  end.

(** [MLAnalyzer.get_top_influential_authors] *)
Definition get_top_influential_authors (sk : sklearn_routines) (self : MLAnalyzer)
    (top_n : nat) : exc DataFrame :=
  df ← scored_features sk self;
  feature_df_unique ← drop_duplicates df "author_name";
  top ← nlargest feature_df_unique top_n "impact_score";
  select_columns top influential_columns.

(** Cells in descending order of their sort key: every cell may stay in
    front of every later one. *)
Fixpoint cells_descending (ks : list cell) : Prop :=
  match ks with
  | [] => True
  | k :: rest =>
      (forall k', In k' rest -> desc_before (sort_key k) (sort_key k') = true)
      /\ cells_descending rest
  end.

(** Scenario 1 as an analyzer that has not built its graph yet. *)
Definition ex_analyzer_abc : CitationNetworkAnalyzer :=
  {| publications_df := ex_pubs_scenario1;
     authors_df := ex_authors_df;
     coauthorship_graph := empty_graph |}.

(** A feature table with every column the top list selects. *)
Definition ex_features_full : DataFrame :=
  {| columns := ["author_name"; "publication_count"; "total_citations";
                 "h_index_approx"; "pagerank"];
     rows :=
       [ [("author_name", VStr "a"); ("publication_count", VNum 2);
          ("total_citations", VNum 3); ("h_index_approx", VNum 1); ("pagerank", VNum 0.5)];
         [("author_name", VStr "b"); ("publication_count", VNum 3);
          ("total_citations", VNum 10); ("h_index_approx", VNum 2); ("pagerank", VNum 0.25)];
         [("author_name", VStr "c"); ("publication_count", VNum 1);
          ("total_citations", VNum 1); ("h_index_approx", VNum 1); ("pagerank", VNum 0.25)] ] |}.

Definition ex_ml_full : MLAnalyzer :=
  {| author_stats_df := ex_stats;
     network_metrics_df := ex_net;
     feature_df := Some ex_features_full |}.

(** ** [DataProcessor._calculate_h_index_approx] *)

Fixpoint insert_q_desc (x : Q) (l : list Q) : list Q :=
  match l with
  | [] => [x]
  | y :: r => if Qle_bool x y then y :: insert_q_desc x r else x :: y :: r
  end.

(** [sorted(citations, reverse=True)] *)
Definition sorted_reverse (citations : list Q) : list Q :=
  fold_left (fun acc x => insert_q_desc x acc) citations [].

(** The loop [for i, cit in enumerate(sorted_citations)] from position [i]
    on, with the current value of [h_index]; the [else] branch breaks. *)
Fixpoint h_index_loop (i h_index : nat) (sorted_citations : list Q) : nat :=
  match sorted_citations with
  | [] => h_index
  | cit :: rest =>
      if Qle_bool (inject_Z (Z.of_nat (i + 1))) cit
      then h_index_loop (i + 1) (i + 1) rest
      else h_index
  end.

Definition calculate_h_index_approx (citations : list Q) : nat :=
  if (length citations =? 0)%nat then 0
  else h_index_loop 0 0 (sorted_reverse citations).

(** Number of publications with at least [k] citations. *)
Definition count_at_least (k : nat) (citations : list Q) : nat :=
  length (List.filter (fun c => Qle_bool (inject_Z (Z.of_nat k)) c) citations).

(** ** [DataProcessor]: authors of the cleaned publications *)

(** A row of [processed_df] as [clean_data] leaves it: [authors] holds the
    list of strings that [_clean_author_list] returns and [citation_count]
    a number; [title] and [abstract] are cells. *)
Record cleaned_row := {
  row_authors : list string;
  row_title : cell;
  row_citation_count : Q;
  row_abstract : cell
}.

(** The dict appended for one author of a row. *)
Definition author_record (r : cleaned_row) (author : string) : row :=
  [ ("author_name", VStr author);
    ("publication_title", row_title r);
    ("citation_count", VNum (row_citation_count r));
    ("abstract", row_abstract r) ].

(** One iteration of the loop over [processed_df.iterrows()]; a row without
    authors is skipped. *)
Definition extract_row (author_records : list row) (r : cleaned_row) : list row :=
  match row_authors r with
  | [] => author_records
  | _ :: _ =>
      fold_left (fun acc author => acc ++ [author_record r author])
                (row_authors r) author_records
  end.

(** [DataProcessor.extract_authors], on the rows of [processed_df]. *)
Definition extract_authors (processed_df : list cleaned_row) : DataFrame :=
  DataFrame_of_records (fold_left extract_row processed_df []).

(** A method of the [.str] accessor applied to a column: string cells are
    mapped and the other cells become missing.  A column that is not of
    dtype object has no [.str] accessor; the dtype is read off the cells, a
    column with rows being of dtype object when one of its cells is a
    string. *)
Definition str_map (f : string -> string) (col : list cell) : exc (list cell) :=
  if (negb (length col =? 0)%nat && negb (existsb is_str_cell col))%bool
  then Raise (OtherError "AttributeError: Can only use .str accessor with string values")
  else Ok (map (fun v => match v with VStr s => VStr (f s) | _ => VNaN end) col).

(** [DataProcessor.normalize_author_names]; the frame returned is the
    argument, updated in place. *)
Definition normalize_author_names (authors_df : DataFrame) : exc DataFrame :=
  names ← get_column authors_df "author_name";
  lowered ← str_map PyStr.lower names;
  stripped ← str_map PyStr.strip lowered;
  let authors_df := set_column authors_df "author_normalized" stripped in
  normalized ← get_column authors_df "author_normalized";
  replaced ← str_map PyStr.collapse_ws normalized;
  Ok (set_column authors_df "author_normalized" replaced).

(** What [normalize_author_names] does to one name. *)
Definition normalize_author_name (s : string) : string :=
  PyStr.collapse_ws (PyStr.strip (PyStr.lower s)).

(** [DataProcessor.get_top_authors] *)
Definition get_top_authors (authors_df : DataFrame) (top_n : nat) (by_ : string)
    : exc DataFrame :=
  authors_df ← drop_duplicates authors_df "author_name";
  if String.eqb by_ "total_citations" then nlargest authors_df top_n "total_citations"
  else if String.eqb by_ "publication_count" then nlargest authors_df top_n "publication_count"
  else if String.eqb by_ "h_index_approx" then nlargest authors_df top_n "h_index_approx"
  else nlargest authors_df top_n "total_citations".

(** Spacing of a name: every whitespace character is a space that follows
    a character other than whitespace, and the name does not end in one. *)
Fixpoint well_spaced_from (after_space : bool) (s : string) : bool :=
  match s with
  | EmptyString => negb after_space
  | String c r =>
      if PyStr.isspace c
      then (Ascii.eqb c " " && negb after_space && well_spaced_from true r)%bool
      else well_spaced_from false r
  end.

(** A name in lower case with single spaces between its words and none
    around them. *)
Definition tidy_name (s : string) : bool :=
  (String.eqb (PyStr.lower s) s
   && match s with EmptyString => true | _ => well_spaced_from true s end)%bool.

(** No whitespace but the space character and never three spaces in a row;
    [k] counts the spaces just before [s]. *)
Fixpoint short_runs_from (k : nat) (s : string) : bool :=
  match s with
  | EmptyString => true
  | String c r =>
      if Ascii.eqb c " " then ((k <? 2)%nat && short_runs_from (S k) r)%bool
      else (negb (PyStr.isspace c) && short_runs_from 0 r)%bool
  end.

(** ** [DataProcessor._clean_author_list] on a list *)

(** A character of the class the pattern of [re.sub] names: one of the two
    quote characters or a square bracket. *)
Definition is_quote_or_bracket (c : ascii) : bool :=
  let n := nat_of_ascii c in
  ((n =? 39)%nat || (n =? 34)%nat || (n =? 91)%nat || (n =? 93)%nat)%bool.

Fixpoint lstrip_class (p : ascii -> bool) (s : string) : string :=
  match s with
  | EmptyString => EmptyString
  | String c r => if p c then lstrip_class p r else s
  end.

Fixpoint rstrip_class (p : ascii -> bool) (s : string) : string :=
  match s with
  | EmptyString => EmptyString
  | String c r =>
      match rstrip_class p r with
      | EmptyString => if p c then EmptyString else String c EmptyString
      | r' => String c r'
      end
  end.

(** The [re.sub] of the cleaning, on a string that does not end in a line
    feed (it has just been stripped): the run of such characters at the
    start is removed, and the run at the end of what is left. *)
Definition sub_quotes (s : string) : string :=
  rstrip_class is_quote_or_bracket (lstrip_class is_quote_or_bracket s).

(** The branch [isinstance(authors, list)] of [_clean_author_list]: the
    loop that fills [cleaned].  (A list is what the collector stores; the
    branches that parse a string are not covered.) *)
Fixpoint clean_author_list (authors : list pyval) : list string :=
  match authors with
  | [] => []
  | PStr author :: rest =>
      let author := PyStr.strip author in
      let author := PyStr.strip (sub_quotes author) in
      if String.eqb author "" then clean_author_list rest
      else author :: clean_author_list rest
  | PNotStr :: rest => clean_author_list rest
  end.

(** A row of the cleaned publications as the graph builder reads it. *)
Definition cleaned_publication (raw : list pyval * string) : publication :=
  {| authors := map PStr (clean_author_list (fst raw)); title := snd raw |}.

(** * Properties *)

(** ** Author-name normalization *)

(** C5 (evaluation at the failing input): a name with three spaces between
    its words keeps two of them, so it is a different node from the same
    name written with one space, while the whitespace collapse of
    [DataProcessor.normalize_author_names] maps both to one identity. *)
Theorem normalize_three_spaces_not_collapsed :
  normalize "Ada   Lovelace" = "ada  lovelace" /\
  normalize "Ada Lovelace" = "ada lovelace" /\
  normalize "Ada   Lovelace" <> normalize "Ada Lovelace" /\
  PyStr.collapse_ws (PyStr.strip (PyStr.lower "Ada   Lovelace"))
  = PyStr.collapse_ws (PyStr.strip (PyStr.lower "Ada Lovelace")).
Proof. repeat split; try reflexivity. discriminate. Qed.

(** ** The model loop of [predict_citations] *)

Lemma dict_get_set_other {V : Type} (d : list (string * V)) (k k' : string) (v : V) :
  k <> k' -> dict_get (dict_set d k v) k' = dict_get d k'.
Proof.
  intros Hk. induction d as [|[a w] d IH]; simpl.
  - destruct (String.eqb_spec k k'); [contradiction | reflexivity].
  - destruct (String.eqb_spec a k) as [->|Ha]; simpl.
    + destruct (String.eqb_spec k k'); [contradiction | reflexivity].
    + destruct (String.eqb_spec a k'); [reflexivity | exact IH].
Qed.

Lemma train_all_untrained sk Xtr ytr Xte yte (models : list string) (k : string) :
  ~ In k models ->
  dict_get (fst (train_all sk Xtr ytr Xte yte models)) k = None.
Proof.
  unfold train_all.
  assert (H : forall st, dict_get (fst st) k = None -> ~ In k models ->
    dict_get (fst (fold_left
      (fun (st : list (string * model_result) * list (string * list Q)) name =>
         match train_one sk Xtr ytr Xte yte name with
         | Trained y_pred res => (dict_set (fst st) name res, dict_set (snd st) name y_pred)
         | Skipped => st
         end) models st)) k = None).
  { induction models as [|m ms IH]; intros st Hst Hin; simpl; [exact Hst|].
    apply IH.
    - destruct (train_one sk Xtr ytr Xte yte m); simpl; [|exact Hst].
      rewrite dict_get_set_other; [exact Hst|]. intros ->. apply Hin. now left.
    - intros Hk. apply Hin. now right. }
  intros Hin. apply H; [reflexivity | exact Hin].
Qed.

(** C7 (evaluation at the failing input): without a model list the loop
    runs over [rf], [lgbm] and [dt] only; support-vector regression is not
    attempted, and no report has an entry for it. *)
Theorem predict_citations_default_omits_svm :
  default_models = ["rf"; "lgbm"; "dt"] /\
  forall sk self test_size,
    match predict_citations sk self test_size None with
    | Ok report => dict_get (results report) "svm" = None
    | Raise _ => True
    end.
Proof.
  split; [reflexivity|]. intros sk self test_size.
  unfold predict_citations.
  repeat (match goal with
          | |- context [mbind _ ?m] => destruct m; simpl; [|exact I]
          | |- match mbind _ ?m with _ => _ end => destruct m; simpl; [|exact I]
          end).
  apply train_all_untrained. unfold default_models. simpl.
  intros [H|[H|[H|[]]]]; discriminate.
Qed.

(** ** Edges of the co-authorship graph *)

Section GraphEdges.

Implicit Types (G : Graph) (u v x y : string) (d : edge_attr).

Lemma edge_set_edge G u v d x y :
  edge (set_edge G u v d) x y =
  if decide (same_edge u v x y) then Some d else edge G x y.
Proof.
  unfold edge, set_edge, same_edge; simpl.
  destruct (decide (v = x)) as [->|Hvx].
  - rewrite lookup_insert_eq; simpl.
    destruct (decide (u = y)) as [->|Huy].
    + rewrite lookup_insert_eq. rewrite decide_True by tauto. reflexivity.
    + rewrite lookup_insert_ne by done.
      destruct (decide (u = x)) as [->|Hux].
      * rewrite lookup_insert_eq; simpl.
        destruct (decide (x = y)) as [->|Hxy]; [done|].
        rewrite lookup_insert_ne by done.
        rewrite decide_False by (intros [[? ?]|[? ?]]; congruence).
        destruct (adj G !! x); reflexivity.
      * rewrite lookup_insert_ne by done.
        rewrite decide_False by (intros [[? ?]|[? ?]]; congruence).
        destruct (adj G !! x); reflexivity.
  - rewrite lookup_insert_ne by done.
    destruct (decide (u = x)) as [->|Hux].
    + rewrite lookup_insert_eq; simpl.
      destruct (decide (v = y)) as [->|Hvy].
      * rewrite lookup_insert_eq. rewrite decide_True by tauto. reflexivity.
      * rewrite lookup_insert_ne by done.
        rewrite decide_False by (intros [[? ?]|[? ?]]; congruence).
        destruct (adj G !! x); reflexivity.
    + rewrite lookup_insert_ne by done.
      rewrite decide_False by (intros [[? ?]|[? ?]]; congruence).
      reflexivity.
Qed.

Lemma edge_add_node G u x y : edge (add_node G u) x y = edge G x y.
Proof.
  unfold edge, add_node.
  destruct (adj G !! u) eqn:Hu; [reflexivity|]. simpl.
  destruct (decide (u = x)) as [->|Hux].
  - rewrite lookup_insert_eq, Hu. reflexivity.
  - rewrite lookup_insert_ne by done. reflexivity.
Qed.

Lemma edge_add_edge G u v d x y :
  edge (add_edge G u v d) x y =
  if decide (same_edge u v x y) then Some d else edge G x y.
Proof.
  unfold add_edge. rewrite edge_set_edge, !edge_add_node. reflexivity.
Qed.

Lemma edge_upsert_edge t G u v x y :
  edge (upsert_edge t G u v) x y =
  if decide (same_edge u v x y) then Some (upserted t (edge G u v))
  else edge G x y.
Proof.
  unfold upsert_edge, has_edge.
  destruct (edge G u v) as [d|] eqn:He; simpl.
  - apply edge_set_edge.
  - apply edge_add_edge.
Qed.

End GraphEdges.

(** ** The pair loops of the graph builder *)

Lemma author_pairs_length_double (l : list string) :
  2 * length (author_pairs l) = length l * (length l - 1).
Proof.
  induction l as [|a r IH]; simpl; [reflexivity|].
  rewrite length_app, length_map. nia.
Qed.

Lemma author_pairs_length (l : list string) :
  length (author_pairs l) = choose2 (length l).
Proof.
  unfold choose2. rewrite <- author_pairs_length_double.
  rewrite Nat.mul_comm. symmetry. apply Nat.div_mul. discriminate.
Qed.

Lemma author_pairs_complete (l : list string) (i j : nat) :
  i < j < length l -> In (nth i l "", nth j l "") (author_pairs l).
Proof.
  revert i j. induction l as [|a r IH]; intros i j [Hij Hj]; simpl in *; [lia|].
  apply in_or_app. destruct i as [|i].
  - left. destruct j as [|j]; [lia|]. apply in_map. apply nth_In. lia.
  - right. destruct j as [|j]; [lia|]. apply IH. lia.
Qed.

Lemma author_pairs_sound (l : list string) (p : string * string) :
  In p (author_pairs l) ->
  exists i j, i < j < length l /\ p = (nth i l "", nth j l "").
Proof.
  induction l as [|a r IH]; simpl; [tauto|].
  intros H. apply in_app_or in H as [H|H].
  - apply in_map_iff in H as (b & <- & Hb).
    apply (In_nth _ _ "") in Hb as (j & Hj & <-).
    exists 0, (S j). split; [lia | reflexivity].
  - destruct (IH H) as (i & j & Hij & ->).
    exists (S i), (S j). split; [lia | reflexivity].
Qed.

Lemma snoc_cons_app (pre suf : list string) (a : string) :
  (pre ++ [a]) ++ suf = pre ++ a :: suf.
Proof. rewrite <- app_assoc. reflexivity. Qed.

Lemma snoc_length (pre : list string) (a : string) :
  length (pre ++ [a]) = S (length pre).
Proof. rewrite length_app. simpl. lia. Qed.

Lemma inner_loop_fold (f : Graph -> string -> Graph) (pre suf : list string) (G : Graph) :
  fold_left (fun G j => f G (nth j (pre ++ suf) "")) (seq (length pre) (length suf)) G
  = fold_left f suf G.
Proof.
  revert pre G. induction suf as [|b suf IH]; intros pre G; simpl; [reflexivity|].
  rewrite app_nth2 by lia. rewrite Nat.sub_diag. simpl.
  specialize (IH (pre ++ [b]) (f G b)).
  rewrite snoc_cons_app, snoc_length in IH. exact IH.
Qed.

Lemma outer_loop_fold (t : string) (pre suf : list string) (G : Graph) :
  fold_left
    (fun G i =>
       fold_left
         (fun G j => upsert_edge t G (nth i (pre ++ suf) "") (nth j (pre ++ suf) ""))
         (seq (i + 1) (length (pre ++ suf) - (i + 1))) G)
    (seq (length pre) (length suf)) G
  = fold_left (fun G p => upsert_edge t G (fst p) (snd p)) (author_pairs suf) G.
Proof.
  revert pre G. induction suf as [|a suf IH]; intros pre G; simpl; [reflexivity|].
  rewrite fold_left_app.
  rewrite app_nth2 by lia. rewrite Nat.sub_diag. simpl.
  replace (length (pre ++ a :: suf) - (length pre + 1)) with (length suf)
    by (rewrite length_app; simpl; lia).
  replace (length pre + 1) with (S (length pre)) by lia.
  pose proof (inner_loop_fold (fun G b => upsert_edge t G a b) (pre ++ [a]) suf G) as Hin.
  rewrite snoc_cons_app, snoc_length in Hin. rewrite Hin.
  specialize (IH (pre ++ [a])
                 (fold_left (fun G b => upsert_edge t G a b) suf G)).
  rewrite snoc_cons_app, snoc_length in IH. rewrite IH. f_equal.
  clear. revert G. induction suf as [|b suf IH]; intros G; simpl; [reflexivity|].
  apply IH.
Qed.

Lemma pair_loops_fold (t : string) (na : list string) (G : Graph) :
  pair_loops t na G
  = fold_left (fun G p => upsert_edge t G (fst p) (snd p)) (author_pairs na) G.
Proof. unfold pair_loops. exact (outer_loop_fold t [] na G). Qed.

Lemma normalized_authors_length (l : list pyval) :
  Forall (fun v => is_str v = true) l ->
  length (normalized_authors l) = length l.
Proof.
  induction 1 as [|v l Hv _ IH]; simpl; [reflexivity|].
  destruct v; [simpl; now rewrite IH | discriminate].
Qed.

(** C1: a publication with fewer than two author entries leaves the graph
    as it is (no node, no edge).  A publication with [k >= 2] author
    entries, all of them strings, runs the loop body once for each of the
    [C(k,2)] index pairs [i < j] of its normalized authors, in order; each
    run touches the one edge between the two authors of the pair: a missing
    edge is created with weight 1 and the title as its only publication, an
    existing one gets its weight incremented by 1 and the title appended;
    every other edge is left as it was. *)
Theorem process_row_pairwise_edges (G : Graph) (row : publication) :
  (length (authors row) < 2 -> process_row G row = G) /\
  (2 <= length (authors row) ->
   Forall (fun v => is_str v = true) (authors row) ->
   let na := normalized_authors (authors row) in
   let k := length (authors row) in
   length na = k /\
   length (author_pairs na) = choose2 k /\
   (forall i j, i < j < k -> In (nth i na "", nth j na "") (author_pairs na)) /\
   (forall p, In p (author_pairs na) ->
      exists i j, i < j < k /\ p = (nth i na "", nth j na "")) /\
   process_row G row
   = fold_left (fun G p => upsert_edge (title row) G (fst p) (snd p))
               (author_pairs na) G /\
   (forall G' a b x y,
      edge (upsert_edge (title row) G' a b) x y =
      if decide (same_edge a b x y)
      then Some (upserted (title row) (edge G' a b))
      else edge G' x y)).
Proof.
  split.
  - intros Hlt. unfold process_row.
    destruct (Nat.ltb_spec (length (authors row)) 2); [reflexivity | lia].
  - intros Hk Hstr na k.
    assert (Hlen : length na = k) by (apply normalized_authors_length; exact Hstr).
    split; [exact Hlen|].
    split; [rewrite <- Hlen; apply author_pairs_length|].
    split; [rewrite <- Hlen; apply author_pairs_complete|].
    split; [rewrite <- Hlen; apply author_pairs_sound|].
    split.
    + unfold process_row.
      destruct (Nat.ltb_spec (length (authors row)) 2); [lia|].
      apply pair_loops_fold.
    + intros. apply edge_upsert_edge.
Qed.

Lemma process_row_pairwise_edges_witness :
  2 <= length (authors ex_row_abc) /\
  Forall (fun v => is_str v = true) (authors ex_row_abc) /\
  length (author_pairs (normalized_authors (authors ex_row_abc))) = 3 /\
  process_row empty_graph ex_row_abc
  = fold_left (fun G p => upsert_edge "P2" G (fst p) (snd p))
              [("a", "b"); ("a", "c"); ("b", "c")] empty_graph.
Proof.
  assert (Hk : 2 <= length (authors ex_row_abc)) by (simpl; lia).
  assert (Hs : Forall (fun v => is_str v = true) (authors ex_row_abc))
    by (repeat constructor).
  split; [exact Hk|]. split; [exact Hs|].
  destruct (proj2 (process_row_pairwise_edges empty_graph ex_row_abc) Hk Hs)
    as (_ & Hn & _ & _ & Hf & _).
  split; [exact Hn | exact Hf].
Defined.

(** ** Invariants of the built graph *)

Lemma fold_left_invariant {A B : Type} (P : A -> Prop) (f : A -> B -> A)
    (l : list B) (a : A) :
  P a -> (forall a b, In b l -> P a -> P (f a b)) -> P (fold_left f l a).
Proof.
  revert a. induction l as [|b l IH]; intros a Ha Hf; simpl; [exact Ha|].
  apply IH.
  - apply Hf; [now left | exact Ha].
  - intros a' b' Hb'. apply Hf. now right.
Qed.

Lemma upserted_weight (t : string) (G : Graph) (a b : string) :
  weights_positive G -> (1 <= weight (upserted t (edge G a b)))%Z.
Proof.
  intros HG. unfold upserted. destruct (edge G a b) as [d|] eqn:He; simpl; [|lia].
  specialize (HG _ _ _ He). lia.
Qed.

Lemma upsert_edge_weights_positive (t : string) (G : Graph) (a b : string) :
  weights_positive G -> weights_positive (upsert_edge t G a b).
Proof.
  intros HG u v d. rewrite edge_upsert_edge.
  destruct (decide (same_edge a b u v)); [|apply HG].
  intros [= <-]. apply upserted_weight, HG.
Qed.

Lemma upsert_edge_loop_free (t : string) (G : Graph) (a b : string) :
  a <> b -> loop_free G -> loop_free (upsert_edge t G a b).
Proof.
  intros Hab HG u v d. rewrite edge_upsert_edge.
  destruct (decide (same_edge a b u v)) as [Hs|]; [|apply HG].
  intros _ ->. destruct Hs as [[? ?]|[? ?]]; congruence.
Qed.

Lemma author_pairs_distinct (l : list string) (p : string * string) :
  NoDup l -> In p (author_pairs l) -> fst p <> snd p.
Proof.
  induction 1 as [|a r Ha Hr IH]; simpl; [tauto|].
  intros H. apply in_app_or in H as [H|H]; [|exact (IH H)].
  apply in_map_iff in H as (b & <- & Hb). simpl.
  intros ->. apply Ha. apply list_elem_of_In. exact Hb.
Qed.

Lemma empty_graph_no_edge (u v : string) : edge empty_graph u v = None.
Proof. reflexivity. Qed.

Lemma process_row_weights_positive (G : Graph) (row : publication) :
  weights_positive G -> weights_positive (process_row G row).
Proof.
  intros HG. unfold process_row.
  destruct (length (authors row) <? 2)%nat; [exact HG|].
  rewrite pair_loops_fold. apply fold_left_invariant; [exact HG|].
  intros G' p _. apply upsert_edge_weights_positive.
Qed.

Lemma process_row_loop_free (G : Graph) (row : publication) :
  (2 <= length (authors row) -> NoDup (normalized_authors (authors row))) ->
  loop_free G -> loop_free (process_row G row).
Proof.
  intros Hnd HG. unfold process_row.
  destruct (Nat.ltb_spec (length (authors row)) 2); [exact HG|].
  rewrite pair_loops_fold. apply fold_left_invariant; [exact HG|].
  intros G' p Hp. apply upsert_edge_loop_free.
  apply author_pairs_distinct with (l := normalized_authors (authors row)); auto.
Qed.

(** Scenario 1 of the specification: P1{A,B}, P2{A,B,C}, P3{C}. *)
Example scenario1_graph :
  let G := build_coauthorship_network ex_pubs_scenario1 in
  nodes G = ["a"; "b"; "c"] /\
  edge G "a" "b" = Some {| weight := 2; publications := ["P1"; "P2"] |} /\
  edge G "b" "a" = edge G "a" "b" /\
  edge G "a" "c" = Some {| weight := 1; publications := ["P2"] |} /\
  edge G "b" "c" = Some {| weight := 1; publications := ["P2"] |} /\
  degree G "c" = 2.
Proof. vm_compute. repeat split. Qed.

(** C6 (counterexample): a publication that lists the same normalized name
    twice puts a self-loop into the graph. *)
Lemma build_self_loop_counterexample :
  edge (build_coauthorship_network ex_pubs_same_name_twice)
       "ada lovelace" "ada lovelace"
  = Some {| weight := 1; publications := ["Notes"] |} /\
  ~ loop_free (build_coauthorship_network ex_pubs_same_name_twice).
Proof.
  assert (He : edge (build_coauthorship_network ex_pubs_same_name_twice)
                    "ada lovelace" "ada lovelace"
               = Some {| weight := 1; publications := ["Notes"] |})
    by (vm_compute; reflexivity).
  split; [exact He|].
  intros Hfree. exact (Hfree _ _ _ He eq_refl).
Qed.

(** C6 (as amended): in the graph built from any publication sequence
    every edge has weight at least 1; and when no publication with two or
    more author entries lists the same normalized name twice, no edge is a
    self-loop. *)
Theorem build_weights_positive_loop_free (pubs : list publication) :
  weights_positive (build_coauthorship_network pubs) /\
  ((forall row, In row pubs -> 2 <= length (authors row) ->
      NoDup (normalized_authors (authors row))) ->
   loop_free (build_coauthorship_network pubs)).
Proof.
  unfold build_coauthorship_network. split.
  - apply fold_left_invariant.
    + intros u v d. rewrite empty_graph_no_edge. discriminate.
    + intros G row _. apply process_row_weights_positive.
  - intros Hnd. apply fold_left_invariant.
    + intros u v d. rewrite empty_graph_no_edge. discriminate.
    + intros G row Hin. apply process_row_loop_free. auto.
Qed.

Lemma build_weights_positive_loop_free_witness :
  (forall row, In row ex_pubs_scenario1 -> 2 <= length (authors row) ->
     NoDup (normalized_authors (authors row))) /\
  loop_free (build_coauthorship_network ex_pubs_scenario1).
Proof.
  assert (H : forall row, In row ex_pubs_scenario1 -> 2 <= length (authors row) ->
     NoDup (normalized_authors (authors row))).
  { intros row [<-|[<-|[<-|[]]]] _; refine (bool_decide_unpack _ _); vm_compute; exact I. }
  split; [exact H|].
  exact (proj2 (build_weights_positive_loop_free ex_pubs_scenario1) H).
Defined.

(** ** Failures inside [calculate_network_metrics] *)

(** C4 (counterexample): when the eigenvector power iteration does not
    converge, the whole metrics computation ends with that exception,
    although every other routine returned. *)
Lemma eigenvector_failure_aborts_counterexample :
  eigenvector_centrality nx_not_converging (metrics_graph ex_analyzer_ab) 1000
  = Raise (PowerIterationFailedConvergence 1000) /\
  is_ok (betweenness_centrality nx_not_converging (metrics_graph ex_analyzer_ab)) = true /\
  is_ok (closeness_centrality nx_not_converging (metrics_graph ex_analyzer_ab)) = true /\
  is_ok (pagerank nx_not_converging (metrics_graph ex_analyzer_ab)) = true /\
  calculate_network_metrics nx_not_converging ex_analyzer_ab
  = Raise (PowerIterationFailedConvergence 1000).
Proof. repeat split. Qed.

(** C4 (as amended): when eigenvector centrality fails on the graph with
    the iteration cap of 1000, [calculate_network_metrics] returns no
    table: it ends with an exception, and with the very exception of the
    power iteration when betweenness and closeness centrality returned. *)
Theorem eigenvector_failure_propagates (nx : nx_routines)
    (self : CitationNetworkAnalyzer) (e : exn) :
  eigenvector_centrality nx (metrics_graph self) 1000 = Raise e ->
  (exists e', calculate_network_metrics nx self = Raise e') /\
  (is_ok (betweenness_centrality nx (metrics_graph self)) = true ->
   is_ok (closeness_centrality nx (metrics_graph self)) = true ->
   calculate_network_metrics nx self = Raise e).
Proof.
  intros He. unfold calculate_network_metrics.
  destruct (betweenness_centrality nx (metrics_graph self)) as [bc|e1]; simpl.
  - destruct (closeness_centrality nx (metrics_graph self)) as [cc|e2]; simpl.
    + rewrite He. simpl. split; [eexists; reflexivity | reflexivity].
    + split; [eexists; reflexivity | discriminate].
  - split; [eexists; reflexivity | discriminate].
Qed.

Lemma eigenvector_failure_propagates_witness :
  calculate_network_metrics nx_not_converging ex_analyzer_ab
  = Raise (PowerIterationFailedConvergence 1000).
Proof.
  apply (proj2 (eigenvector_failure_propagates nx_not_converging ex_analyzer_ab
                  (PowerIterationFailedConvergence 1000) eq_refl));
    reflexivity.
Defined.

(** ** The empty graph *)

Lemma flat_map_nil {A B : Type} (l : list A) : flat_map (fun _ : A => @nil B) l = [].
Proof. induction l; simpl; auto. Qed.

Lemma select_columns_ok (df : DataFrame) (cols : list string) :
  forallb (has_col df) cols = true ->
  select_columns df cols
  = Ok {| columns := cols;
          rows := map (fun r => map (fun c => (c, row_get r c)) cols) (rows df) |}.
Proof.
  intros H. unfold select_columns.
  destruct (find (fun c => negb (has_col df c)) cols) as [c|] eqn:Hf; [|reflexivity].
  apply find_some in Hf as [Hin Hc].
  rewrite forallb_forall in H. rewrite (H c Hin) in Hc. discriminate.
Qed.

Lemma has_col_in (df : DataFrame) (c : string) :
  has_col df c = true <-> In c (columns df).
Proof.
  unfold has_col. rewrite existsb_exists. split.
  - intros (x & Hx & He). apply String.eqb_eq in He. now subst.
  - intros H. exists c. split; [exact H | apply String.eqb_refl].
Qed.

(** The key is a column of every merged frame, under its own label. *)
Lemma merged_columns_key (left right : DataFrame) (on sl sr : string) :
  has_col left on = true -> In on (merged_columns left right on sl sr).
Proof.
  intros H. apply has_col_in in H. unfold merged_columns.
  apply in_or_app. left. apply in_map_iff. exists on. split; [|exact H].
  unfold suffixed. rewrite String.eqb_refl. reflexivity.
Qed.

(** The selection made by [create_features] never misses a column. *)
Lemma feature_selection_ok (merged : DataFrame) :
  has_col merged "author_name" = true ->
  forallb (has_col merged) ("author_name" :: List.filter (has_col merged) feature_columns)
  = true.
Proof.
  intros H.
  change (has_col merged "author_name"
          && forallb (has_col merged) (List.filter (has_col merged) feature_columns)
          = true)%bool.
  rewrite H. apply forallb_forall.
  intros c Hc. apply filter_In in Hc. tauto.
Qed.

(** ** [create_features] written out *)

Lemma create_features_fusable (stats net : DataFrame) :
  fusable stats net = true ->
  let merged := {| columns := merged_columns stats net "author_name" "_x" "_y";
                   rows := fused_rows stats net |} in
  let available := List.filter (has_col merged) feature_columns in
  create_features stats net
  = Ok {| columns := "author_name" :: available;
          rows := dedup_rows "author_name" []
                    (rows (fillna0
                       {| columns := "author_name" :: available;
                          rows := map (fun r => map (fun c => (c, row_get r c))
                                                    ("author_name" :: available))
                                      (fused_rows stats net) |}
                       available)) |}.
Proof.
  intros H merged available. unfold fusable in H.
  apply andb_prop in H as [H Hn]. apply andb_prop in H as [Hs Ht].
  unfold create_features, drop_duplicates. rewrite Hs, Ht.
  cbn [mbind exc_bind].
  unfold merge.
  change (has_col {| columns := columns stats;
                     rows := dedup_rows "author_name" [] (rows stats) |} "author_name")
    with (has_col stats "author_name").
  change (has_col {| columns := columns net;
                     rows := dedup_rows "author_name" [] (rows net) |} "author_name")
    with (has_col net "author_name").
  rewrite Hs, Ht. cbn [negb].
  change (merged_columns
            {| columns := columns stats; rows := dedup_rows "author_name" [] (rows stats) |}
            {| columns := columns net; rows := dedup_rows "author_name" [] (rows net) |}
            "author_name" "_x" "_y")
    with (merged_columns stats net "author_name" "_x" "_y").
  rewrite Hn. cbn [negb mbind exc_bind columns rows].
  match goal with
  | |- context [select_columns ?m _] =>
      replace m with merged
  end.
  2:{ unfold merged, fused_rows. f_equal.
      cbn [columns rows]. apply flat_map_ext. intros l.
      destruct (List.filter _ (dedup_rows "author_name" [] (rows net))); reflexivity. }
  fold available.
  rewrite select_columns_ok.
  2:{ apply feature_selection_ok. apply has_col_in. cbn [columns merged].
      apply merged_columns_key. exact Hs. }
  cbn [mbind exc_bind].
  unfold has_col at 1. cbn [columns fillna0 existsb].
  rewrite String.eqb_refl. cbn [orb]. reflexivity.
Qed.

Lemma create_features_not_fusable (stats net : DataFrame) :
  fusable stats net = false ->
  create_features stats net = Raise (KeyError "author_name") \/
  create_features stats net = Raise MergeError.
Proof.
  unfold fusable. intros H.
  unfold create_features, drop_duplicates.
  destruct (has_col stats "author_name") eqn:Hs; [|now left].
  destruct (has_col net "author_name") eqn:Ht; [|now left].
  cbn [mbind exc_bind]. unfold merge.
  change (has_col {| columns := columns stats;
                     rows := dedup_rows "author_name" [] (rows stats) |} "author_name")
    with (has_col stats "author_name").
  change (has_col {| columns := columns net;
                     rows := dedup_rows "author_name" [] (rows net) |} "author_name")
    with (has_col net "author_name").
  rewrite Hs, Ht. cbn [negb].
  change (merged_columns
            {| columns := columns stats; rows := dedup_rows "author_name" [] (rows stats) |}
            {| columns := columns net; rows := dedup_rows "author_name" [] (rows net) |}
            "author_name" "_x" "_y")
    with (merged_columns stats net "author_name" "_x" "_y").
  simpl in H. rewrite H. now right.
Qed.

Lemma fused_rows_no_metrics (stats net : DataFrame) :
  rows net = [] -> fused_rows stats net = [].
Proof.
  intros H. unfold fused_rows. rewrite H. simpl. apply flat_map_nil.
Qed.

(** C9 (counterexample): with single-author publications only, the graph
    has no node; betweenness and closeness centrality return the empty
    dict, [eigenvector_centrality] raises [NetworkXPointlessConcept] as
    networkx does on the graph without nodes, and the metrics computation
    ends with that exception instead of an empty table. *)
Lemma empty_graph_metrics_counterexample :
  nodes (build_coauthorship_network (publications_df ex_analyzer_solo)) = [] /\
  betweenness_centrality nx_returning (metrics_graph ex_analyzer_solo) = Ok ∅ /\
  closeness_centrality nx_returning (metrics_graph ex_analyzer_solo) = Ok ∅ /\
  eigenvector_centrality nx_returning (metrics_graph ex_analyzer_solo) 1000
  = Raise NetworkXPointlessConcept /\
  calculate_network_metrics nx_returning ex_analyzer_solo
  = Raise NetworkXPointlessConcept.
Proof. repeat split. Qed.

(** C9 (as amended): when the publications yield no co-authorship edge, so
    that the graph has no node, [calculate_network_metrics] returns no
    table whatever the networkx routines do: it ends with an exception.
    The exception is [NetworkXPointlessConcept] when betweenness and
    closeness centrality returned and [eigenvector_centrality] raised it,
    which is what networkx does on the graph without nodes; nothing
    catches it.  [create_features], given a network-metrics table without
    rows, returns a feature table without rows whenever the two tables can
    be fused (both have the [author_name] column and their labels merge
    without collision), and raises otherwise. *)
Theorem empty_graph_downstream (nx : nx_routines) (self : CitationNetworkAnalyzer)
    (stats net : DataFrame) :
  nodes (metrics_graph self) = [] ->
  rows net = [] ->
  (exists e, calculate_network_metrics nx self = Raise e) /\
  (is_ok (betweenness_centrality nx (metrics_graph self)) = true ->
   is_ok (closeness_centrality nx (metrics_graph self)) = true ->
   eigenvector_centrality nx (metrics_graph self) 1000
   = Raise NetworkXPointlessConcept ->
   calculate_network_metrics nx self = Raise NetworkXPointlessConcept) /\
  (if fusable stats net
   then exists out, create_features stats net = Ok out /\ rows out = []
   else exists e, create_features stats net = Raise e).
Proof.
  intros Hg Hn.
  assert (Hm : calculate_network_metrics nx self =
    (_ ← betweenness_centrality nx (metrics_graph self);
     _ ← closeness_centrality nx (metrics_graph self);
     _ ← eigenvector_centrality nx (metrics_graph self) 1000;
     _ ← pagerank nx (metrics_graph self);
     (Raise (KeyError "author_name") : exc DataFrame))).
  { unfold calculate_network_metrics. rewrite Hg.
    destruct (betweenness_centrality nx (metrics_graph self)); [|reflexivity].
    destruct (closeness_centrality nx (metrics_graph self)); [|reflexivity].
    destruct (eigenvector_centrality nx (metrics_graph self) 1000); [|reflexivity].
    destruct (pagerank nx (metrics_graph self)); reflexivity. }
  rewrite Hm. clear Hm.
  split; [|split].
  - destruct (betweenness_centrality nx (metrics_graph self)); [|eexists; reflexivity].
    destruct (closeness_centrality nx (metrics_graph self)); [|eexists; reflexivity].
    destruct (eigenvector_centrality nx (metrics_graph self) 1000); [|eexists; reflexivity].
    destruct (pagerank nx (metrics_graph self)); eexists; reflexivity.
  - destruct (betweenness_centrality nx (metrics_graph self)); [|discriminate].
    destruct (closeness_centrality nx (metrics_graph self)); [|discriminate].
    intros _ _ ->. reflexivity.
  - destruct (fusable stats net) eqn:Hf.
    + rewrite (create_features_fusable stats net Hf).
      eexists. split; [reflexivity|].
      cbn [rows fillna0]. rewrite (fused_rows_no_metrics stats net Hn). reflexivity.
    + destruct (create_features_not_fusable stats net Hf) as [-> | ->];
        eexists; reflexivity.
Qed.

Lemma empty_graph_downstream_witness :
  calculate_network_metrics nx_returning ex_analyzer_solo
  = Raise NetworkXPointlessConcept /\
  exists out, create_features ex_stats ex_metrics_no_rows = Ok out /\ rows out = [].
Proof.
  pose proof (empty_graph_downstream nx_returning ex_analyzer_solo
                ex_stats ex_metrics_no_rows eq_refl eq_refl) as (_ & Hk & Hc).
  split.
  - apply Hk; reflexivity.
  - exact Hc.
Defined.

(** ** Keys of data frames *)

Lemma cell_eqb_refl (a : cell) : cell_eqb a a = true.
Proof.
  destruct a; simpl; [apply String.eqb_refl | | reflexivity].
  apply Qeq_bool_iff. reflexivity.
Qed.

Lemma cell_eqb_sym (a b : cell) : cell_eqb a b = cell_eqb b a.
Proof.
  destruct a, b; simpl; try reflexivity.
  - apply String.eqb_sym.
  - destruct (Qeq_bool q q0) eqn:H1, (Qeq_bool q0 q) eqn:H2; try reflexivity.
    + apply Qeq_bool_iff in H1. symmetry in H1. apply Qeq_bool_iff in H1. congruence.
    + apply Qeq_bool_iff in H2. symmetry in H2. apply Qeq_bool_iff in H2. congruence.
Qed.

Lemma cell_eqb_trans (a b c : cell) :
  cell_eqb a b = true -> cell_eqb b c = true -> cell_eqb a c = true.
Proof.
  destruct a, b, c; simpl; try discriminate; try reflexivity.
  - intros H1 H2. apply String.eqb_eq in H1, H2. subst. apply String.eqb_refl.
  - intros H1 H2. apply Qeq_bool_iff in H1, H2. apply Qeq_bool_iff.
    etransitivity; eassumption.
Qed.

(** Equal keys are found in the same lists. *)
Lemma existsb_cell_eqb_compat (a b : cell) (l : list cell) :
  cell_eqb a b = true -> existsb (cell_eqb a) l = existsb (cell_eqb b) l.
Proof.
  intros Hab. induction l as [|x l IH]; simpl; [reflexivity|].
  rewrite IH. f_equal.
  destruct (cell_eqb a x) eqn:Hax, (cell_eqb b x) eqn:Hbx; try reflexivity.
  - rewrite cell_eqb_sym in Hab.
    rewrite (cell_eqb_trans _ _ _ Hab Hax) in Hbx. discriminate.
  - rewrite (cell_eqb_trans _ _ _ Hab Hbx) in Hax. discriminate.
Qed.

Lemma existsb_cell_eqb_str (s : string) (l : list cell) :
  existsb (cell_eqb (VStr s)) l = true <-> In (VStr s) l.
Proof.
  rewrite existsb_exists. split.
  - intros (x & Hx & He). destruct x; simpl in He; try discriminate.
    apply String.eqb_eq in He. now subst.
  - intros H. exists (VStr s). split; [exact H | apply cell_eqb_refl].
Qed.

(** [dedup_rows] keeps a key exactly when it is new. *)
Lemma dedup_rows_keys (c : string) (k : cell) (rs : list row) (seen : list cell) :
  existsb (cell_eqb k) (keys_of c (dedup_rows c seen rs))
  = (existsb (cell_eqb k) (keys_of c rs) && negb (existsb (cell_eqb k) seen))%bool.
Proof.
  revert seen. induction rs as [|r rs IH]; intros seen; simpl; [reflexivity|].
  destruct (existsb (cell_eqb (row_get r c)) seen) eqn:Hs.
  - rewrite IH. destruct (cell_eqb k (row_get r c)) eqn:Hk; simpl; [|reflexivity].
    rewrite (existsb_cell_eqb_compat _ _ seen Hk), Hs. simpl.
    apply andb_false_r.
  - simpl. rewrite IH. simpl.
    destruct (cell_eqb k (row_get r c)) eqn:Hk; simpl.
    + rewrite (existsb_cell_eqb_compat _ _ seen Hk), Hs. reflexivity.
    + reflexivity.
Qed.

Lemma dedup_rows_distinct (c : string) (rs : list row) (seen : list cell) :
  distinct_keys seen (keys_of c (dedup_rows c seen rs)).
Proof.
  revert seen. induction rs as [|r rs IH]; intros seen; simpl; [exact I|].
  destruct (existsb (cell_eqb (row_get r c)) seen) eqn:Hs; [apply IH|].
  simpl. split; [exact Hs | apply IH].
Qed.

Lemma dedup_rows_incl (c : string) (rs : list row) (seen : list cell) (r : row) :
  In r (dedup_rows c seen rs) -> In r rs.
Proof.
  revert seen. induction rs as [|x rs IH]; intros seen; simpl; [tauto|].
  destruct (existsb (cell_eqb (row_get x c)) seen).
  - intros H. right. exact (IH _ H).
  - intros [H|H]; [now left | right; exact (IH _ H)].
Qed.

Lemma existsb_filter_incl {A : Type} (f p : A -> bool) (l : list A) :
  existsb f l = false -> existsb f (List.filter p l) = false.
Proof.
  induction l as [|a l IH]; simpl; [reflexivity|].
  intros H. apply orb_false_elim in H as [Ha Hl].
  destruct (p a); simpl; [rewrite Ha|]; auto.
Qed.

Lemma nodup_str_app_l (l1 l2 : list string) :
  nodup_str (l1 ++ l2) = true -> nodup_str l1 = true.
Proof.
  induction l1 as [|a l1 IH]; simpl; [reflexivity|].
  intros H. apply andb_prop in H as [Ha Hr]. rewrite (IH Hr), andb_true_r.
  rewrite existsb_app in Ha. apply negb_true_iff in Ha.
  apply orb_false_elim in Ha as [Ha _]. now rewrite Ha.
Qed.

Lemma nodup_str_map_inj (f : string -> string) (l : list string) (a b : string) :
  nodup_str (map f l) = true -> In a l -> In b l -> f a = f b -> a = b.
Proof.
  induction l as [|x l IH]; simpl; [tauto|].
  intros H Ha Hb Hf. apply andb_prop in H as [Hx Hl].
  apply negb_true_iff in Hx.
  assert (Hno : forall y, In y l -> f x <> f y).
  { intros y Hy He.
    assert (existsb (String.eqb (f x)) (map f l) = true); [|congruence].
    apply existsb_exists. exists (f y). split; [now apply in_map|].
    rewrite He. apply String.eqb_refl. }
  destruct Ha as [<-|Ha], Hb as [<-|Hb]; auto.
  - exfalso. exact (Hno _ Hb Hf).
  - exfalso. exact (Hno _ Ha (eq_sym Hf)).
Qed.

(** Reading a labelled row at the label of one of its columns. *)
Lemma row_get_labelled (f : string -> string) (g : string -> cell)
    (cols : list string) (c0 : string) (rest : row) :
  In c0 cols -> (forall c, In c cols -> f c = f c0 -> c = c0) ->
  row_get (map (fun c => (f c, g c)) cols ++ rest) (f c0) = g c0.
Proof.
  induction cols as [|c cols IH]; simpl; [tauto|].
  intros Hin Hinj. destruct (String.eqb_spec (f c) (f c0)) as [He|Hne].
  - rewrite (Hinj c (or_introl eq_refl) He). reflexivity.
  - destruct Hin as [->|Hin]; [congruence|].
    apply IH; [exact Hin|]. intros c' Hc'. apply Hinj. now right.
Qed.

Lemma row_get_selected (g : string -> cell) (cols : list string) (c0 : string) :
  In c0 cols -> row_get (map (fun c => (c, g c)) cols) c0 = g c0.
Proof.
  intros Hin.
  pose proof (row_get_labelled (fun c => c) g cols c0 [] Hin (fun c _ H => H)) as H.
  rewrite app_nil_r in H. exact H.
Qed.

Lemma keys_of_flat_map {A : Type} (c : string) (f : A -> list row) (l : list A) :
  keys_of c (flat_map f l) = flat_map (fun a => keys_of c (f a)) l.
Proof.
  unfold keys_of. induction l as [|a l IH]; simpl; [reflexivity|].
  rewrite map_app, IH. reflexivity.
Qed.

(** Keys of the inner join, from the keys of its two sides. *)
Lemma joined_keys_existsb (k : cell) (L R : list row) :
  existsb (cell_eqb k)
    (flat_map
       (fun l : row =>
          map (fun _ : row => row_get l "author_name")
              (List.filter (fun r => cell_eqb (row_get l "author_name")
                                              (row_get r "author_name")) R)) L)
  = (existsb (cell_eqb k) (keys_of "author_name" L)
     && existsb (cell_eqb k) (keys_of "author_name" R))%bool.
Proof.
  assert (Hone : forall l : row,
    existsb (cell_eqb k)
      (map (fun _ : row => row_get l "author_name")
           (List.filter (fun r => cell_eqb (row_get l "author_name")
                                           (row_get r "author_name")) R))
    = (cell_eqb k (row_get l "author_name")
       && existsb (cell_eqb (row_get l "author_name")) (keys_of "author_name" R))%bool).
  { intros l. induction R as [|r R IH]; simpl; [now rewrite andb_false_r|].
    destruct (cell_eqb (row_get l "author_name") (row_get r "author_name")); simpl.
    - rewrite IH. destruct (cell_eqb k (row_get l "author_name")); reflexivity.
    - exact IH. }
  induction L as [|l L IH]; simpl; [reflexivity|].
  rewrite existsb_app, IH, Hone.
  destruct (cell_eqb k (row_get l "author_name")) eqn:Hk; simpl; [|reflexivity].
  rewrite <- (existsb_cell_eqb_compat _ _ (keys_of "author_name" R) Hk).
  destruct (existsb (cell_eqb k) (keys_of "author_name" R)); simpl; [reflexivity|].
  now rewrite andb_false_r.
Qed.

Lemma fused_rows_keys (stats net : DataFrame) :
  fusable stats net = true ->
  keys_of "author_name" (fused_rows stats net)
  = flat_map
      (fun l : row =>
         map (fun _ : row => row_get l "author_name")
             (List.filter (fun r => cell_eqb (row_get l "author_name")
                                             (row_get r "author_name"))
                          (dedup_rows "author_name" [] (rows net))))
      (dedup_rows "author_name" [] (rows stats)).
Proof.
  intros Hf. unfold fusable in Hf.
  apply andb_prop in Hf as [Hf Hn]. apply andb_prop in Hf as [Hs _].
  unfold fused_rows. rewrite keys_of_flat_map. apply flat_map_ext. intros l.
  unfold keys_of. rewrite map_map. apply map_ext. intros r.
  assert (Hin : In "author_name" (columns stats)) by (apply has_col_in; exact Hs).
  assert (Hinj : forall c, In c (columns stats) ->
            suffixed (columns net) "author_name" "_x" c
            = suffixed (columns net) "author_name" "_x" "author_name" ->
            c = "author_name").
  { intros c Hc He. unfold merged_columns in Hn. apply nodup_str_app_l in Hn.
    exact (nodup_str_map_inj _ _ _ _ Hn Hc Hin He). }
  exact (row_get_labelled (suffixed (columns net) "author_name" "_x")
           (fun c => row_get l c) (columns stats) "author_name" _ Hin Hinj).
Qed.

(** ** Feature fusion *)

Lemma filled_row_key (g : string -> cell) (available : list string) :
  existsb (String.eqb "author_name") available = false ->
  row_get
    (map (fun kv : string * cell =>
            if existsb (String.eqb (fst kv)) available
            then (fst kv, fill_cell (snd kv)) else kv)
         (map (fun c => (c, g c)) ("author_name" :: available)))
    "author_name"
  = g "author_name".
Proof. intros H. cbn [map fst snd]. rewrite H. reflexivity. Qed.

Lemma filled_row_feature (g : string -> cell) (cols available : list string) (c : string) :
  In c cols -> existsb (String.eqb c) available = true ->
  row_get
    (map (fun kv : string * cell =>
            if existsb (String.eqb (fst kv)) available
            then (fst kv, fill_cell (snd kv)) else kv)
         (map (fun c => (c, g c)) cols))
    c
  = fill_cell (g c).
Proof.
  intros Hin Hav. rewrite map_map. cbn [fst snd].
  rewrite (map_ext _ (fun c' => (c', if existsb (String.eqb c') available
                                     then fill_cell (g c') else g c'))).
  2:{ intros c'. destruct (existsb (String.eqb c') available); reflexivity. }
  rewrite (row_get_selected _ cols c Hin), Hav. reflexivity.
Qed.

Lemma fill_cell_not_nan (v : cell) : fill_cell v <> VNaN.
Proof. destruct v; discriminate. Qed.

Lemma available_no_key (p : string -> bool) :
  existsb (String.eqb "author_name") (List.filter p feature_columns) = false.
Proof. apply existsb_filter_incl. reflexivity. Qed.

Lemma create_features_keys (stats net out : DataFrame) :
  fusable stats net = true ->
  create_features stats net = Ok out ->
  author_keys out
  = keys_of "author_name"
      (dedup_rows "author_name" []
         (map (fun m : row =>
                 map (fun kv : string * cell =>
                        if existsb (String.eqb (fst kv)) (List.tl (columns out))
                        then (fst kv, fill_cell (snd kv)) else kv)
                     (map (fun c => (c, row_get m c)) (columns out)))
              (fused_rows stats net))) /\
  columns out = "author_name" :: List.tl (columns out) /\
  existsb (String.eqb "author_name") (List.tl (columns out)) = false /\
  (forall c, In c (List.tl (columns out)) ->
             existsb (String.eqb c) (List.tl (columns out)) = true) /\
  rows out
  = dedup_rows "author_name" []
      (map (fun m : row =>
              map (fun kv : string * cell =>
                     if existsb (String.eqb (fst kv)) (List.tl (columns out))
                     then (fst kv, fill_cell (snd kv)) else kv)
                  (map (fun c => (c, row_get m c)) (columns out)))
           (fused_rows stats net)).
Proof.
  intros Hf Hout. rewrite (create_features_fusable stats net Hf) in Hout.
  injection Hout as <-. cbn [columns rows fillna0 List.tl author_keys].
  rewrite map_map.
  repeat split.
  - apply available_no_key.
  - intros c Hc. apply existsb_exists. exists c. split; [exact Hc | apply String.eqb_refl].
Qed.

Lemma keys_of_filled (available : list string) (cols : list string) (ms : list row) :
  cols = "author_name" :: available ->
  existsb (String.eqb "author_name") available = false ->
  keys_of "author_name"
    (map (fun m : row =>
            map (fun kv : string * cell =>
                   if existsb (String.eqb (fst kv)) available
                   then (fst kv, fill_cell (snd kv)) else kv)
                (map (fun c => (c, row_get m c)) cols)) ms)
  = keys_of "author_name" ms.
Proof.
  intros -> Hav. unfold keys_of. rewrite map_map. apply map_ext. intros m.
  apply (filled_row_key (fun c => row_get m c) available Hav).
Qed.

(** C3: [create_features] returns a table exactly when the two tables can
    be fused (both have the [author_name] column and the merged labels do
    not collide).  The author identities of the returned table are those
    found in both the bibliometric statistics and the network metrics; no
    two of its rows have the same identity; and every feature cell of it is
    the cell of the merged row with a missing value replaced by 0, so none
    is missing. *)
Theorem create_features_inner_join (stats net : DataFrame) :
  is_ok (create_features stats net) = fusable stats net /\
  forall out, create_features stats net = Ok out ->
    (forall k, existsb (cell_eqb k) (author_keys out)
               = (existsb (cell_eqb k) (author_keys stats)
                  && existsb (cell_eqb k) (author_keys net))%bool) /\
    (forall s, In (VStr s) (author_keys out) <->
               In (VStr s) (author_keys stats) /\ In (VStr s) (author_keys net)) /\
    distinct_keys [] (author_keys out) /\
    (forall r c, In r (rows out) -> In c (columns out) -> c <> "author_name" ->
       row_get r c <> VNaN /\
       exists m, In m (fused_rows stats net) /\
                 row_get r "author_name" = row_get m "author_name" /\
                 row_get r c = fill_cell (row_get m c)).
Proof.
  destruct (fusable stats net) eqn:Hf.
  2:{ split.
      - destruct (create_features_not_fusable stats net Hf) as [-> | ->]; reflexivity.
      - intros out Hout.
        destruct (create_features_not_fusable stats net Hf) as [H | H];
          rewrite H in Hout; discriminate. }
  split; [rewrite (create_features_fusable stats net Hf); reflexivity|].
  intros out Hout.
  destruct (create_features_keys stats net out Hf Hout)
    as (Hkeys & Hcols & Hnokey & Havail & Hrows).
  set (available := List.tl (columns out)) in *.
  assert (Hall : forall k, existsb (cell_eqb k) (author_keys out)
               = (existsb (cell_eqb k) (author_keys stats)
                  && existsb (cell_eqb k) (author_keys net))%bool).
  { intros k. rewrite Hkeys, dedup_rows_keys. cbn [existsb negb].
    rewrite andb_true_r.
    rewrite (keys_of_filled available (columns out) _ Hcols Hnokey).
    rewrite (fused_rows_keys stats net Hf), joined_keys_existsb.
    rewrite !dedup_rows_keys. cbn [existsb negb]. rewrite !andb_true_r.
    reflexivity. }
  split; [exact Hall|]. split; [|split].
  - intros s. rewrite <- !existsb_cell_eqb_str, Hall. apply andb_true_iff.
  - rewrite Hkeys. apply dedup_rows_distinct.
  - intros r c Hr Hc Hne. rewrite Hrows in Hr.
    apply dedup_rows_incl in Hr. apply in_map_iff in Hr as (m & <- & Hm).
    assert (Hca : In c available).
    { rewrite Hcols in Hc. destruct Hc as [<-|Hc]; [congruence | exact Hc]. }
    assert (Hv : row_get
        (map (fun kv : string * cell =>
                if existsb (String.eqb (fst kv)) available
                then (fst kv, fill_cell (snd kv)) else kv)
             (map (fun c => (c, row_get m c)) (columns out))) c
      = fill_cell (row_get m c)).
    { apply (filled_row_feature (fun c => row_get m c)); [exact Hc | auto]. }
    rewrite Hv. split; [apply fill_cell_not_nan|].
    exists m. split; [exact Hm|]. split; [|reflexivity].
    rewrite Hcols at 1.
    apply (filled_row_key (fun c => row_get m c) available Hnokey).
Qed.

Lemma create_features_inner_join_witness :
  exists out,
    create_features ex_stats ex_net = Ok out /\
    forall s, In (VStr s) (author_keys out) <->
              In (VStr s) (author_keys ex_stats) /\ In (VStr s) (author_keys ex_net).
Proof.
  eexists. assert (H : create_features ex_stats ex_net = Ok _) by (vm_compute; reflexivity).
  split; [exact H|].
  exact (proj1 (proj2 (proj2 (create_features_inner_join ex_stats ex_net) _ H))).
Defined.

(** ** Min-max rescaling *)

Local Open Scope Q_scope.

Lemma qmax_bounds (l : list Q) (x : Q) :
  x <= qmax x l /\ (forall y, In y l -> y <= qmax x l) /\ In (qmax x l) (x :: l).
Proof.
  unfold qmax. revert x. induction l as [|a l IH]; intros x; simpl.
  - split; [apply Qle_refl|]. split; [tauto | now left].
  - destruct (Qle_bool a x) eqn:Hax.
    + apply Qle_bool_iff in Hax. destruct (IH x) as (H1 & H2 & H3).
      split; [exact H1|]. split.
      * intros y [<-|Hy]; [eapply Qle_trans; eassumption | auto].
      * destruct H3 as [H3|H3]; [now left | right; now right].
    + assert (Hxa : x <= a).
      { destruct (Qlt_le_dec x a) as [H|H]; [apply Qlt_le_weak; exact H|].
        apply Qle_bool_iff in H. congruence. }
      destruct (IH a) as (H1 & H2 & H3).
      split; [eapply Qle_trans; eassumption|]. split.
      * intros y [<-|Hy]; auto.
      * right. destruct H3 as [H3|H3]; [now left | now right].
Qed.

Lemma qmin_bounds (l : list Q) (x : Q) :
  qmin x l <= x /\ (forall y, In y l -> qmin x l <= y) /\ In (qmin x l) (x :: l).
Proof.
  unfold qmin. revert x. induction l as [|a l IH]; intros x; simpl.
  - split; [apply Qle_refl|]. split; [tauto | now left].
  - destruct (Qle_bool x a) eqn:Hxa.
    + apply Qle_bool_iff in Hxa. destruct (IH x) as (H1 & H2 & H3).
      split; [exact H1|]. split.
      * intros y [<-|Hy]; [eapply Qle_trans; eassumption | auto].
      * destruct H3 as [H3|H3]; [now left | right; now right].
    + assert (Hax : a <= x).
      { destruct (Qlt_le_dec a x) as [H|H]; [apply Qlt_le_weak; exact H|].
        apply Qle_bool_iff in H. congruence. }
      destruct (IH a) as (H1 & H2 & H3).
      split; [eapply Qle_trans; eassumption|]. split.
      * intros y [<-|Hy]; auto.
      * right. destruct H3 as [H3|H3]; [now left | now right].
Qed.

Lemma rescale_range (s mn mx : Q) :
  mn <= s -> s <= mx -> mn < mx ->
  0 <= (s - mn) / (mx - mn) * 100 /\ (s - mn) / (mx - mn) * 100 <= 100.
Proof.
  intros H1 H2 H3.
  assert (Hd : 0 < mx - mn) by lra.
  assert (Hlo : 0 <= (s - mn) / (mx - mn)).
  { apply Qle_shift_div_l; [exact Hd | lra]. }
  assert (Hhi : (s - mn) / (mx - mn) <= 1).
  { apply Qle_shift_div_r; [exact Hd | lra]. }
  split; lra.
Qed.

Lemma min_max_100_length (l : list Q) : length (min_max_100 l) = length l.
Proof.
  unfold min_max_100. destruct l as [|x r]; [reflexivity|].
  destruct (negb (Qle_bool (qmax x r) (qmin x r))); apply length_map.
Qed.

(** Every rescaled score lies between 0 and 100. *)
Lemma min_max_100_range (l : list Q) (q : Q) :
  In q (min_max_100 l) -> 0 <= q /\ q <= 100.
Proof.
  unfold min_max_100. destruct l as [|x r]; [intros []|].
  destruct (Qle_bool (qmax x r) (qmin x r)) eqn:Hle; cbn [negb].
  - intros H. apply in_map_iff in H as (_ & <- & _). split; lra.
  - intros H. apply in_map_iff in H as (s & <- & Hs).
    assert (Hlt : qmin x r < qmax x r).
    { destruct (Qlt_le_dec (qmin x r) (qmax x r)) as [H|H]; [exact H|].
      apply Qle_bool_iff in H. congruence. }
    destruct (qmax_bounds r x) as (Hx1 & Hx2 & _).
    destruct (qmin_bounds r x) as (Hn1 & Hn2 & _).
    apply rescale_range; [| |exact Hlt].
    + destruct Hs as [<-|Hs]; auto.
    + destruct Hs as [<-|Hs]; auto.
Qed.

(** With all raw scores equal, every rescaled score is the literal 0. *)
Lemma min_max_100_degenerate (l : list Q) :
  (forall x y, In x l -> In y l -> x == y) ->
  min_max_100 l = map (fun _ => 0) l.
Proof.
  intros Heq. unfold min_max_100. destruct l as [|x r]; [reflexivity|].
  destruct (qmax_bounds r x) as (_ & _ & Hx).
  destruct (qmin_bounds r x) as (_ & _ & Hn).
  assert (Hle : Qle_bool (qmax x r) (qmin x r) = true).
  { apply Qle_bool_iff. rewrite (Heq _ _ Hx Hn). apply Qle_refl. }
  rewrite Hle. reflexivity.
Qed.

Local Close Scope Q_scope.

(** ** The weighted sum, row by row *)

Lemma combine_map_same {A B C : Type} (f : A -> B) (g : A -> C) (l : list A) :
  combine (map f l) (map g l) = map (fun a => (f a, g a)) l.
Proof. induction l as [|a l IH]; simpl; [reflexivity | now rewrite IH]. Qed.

Lemma weighted_fold_rowwise (ics : list (nat * string)) (a0 : list Q -> Q)
    (X_scaled : list (list Q)) :
  fold_left
    (fun (acc : list Q) (ic : nat * string) =>
       match dict_get weights (snd ic) with
       | Some w =>
           map (fun ax : Q * Q => (fst ax + snd ax * w)%Q)
               (combine acc (column X_scaled (fst ic)))
       | None => acc
       end)
    ics (map a0 X_scaled)
  = map (fun r =>
           fold_left
             (fun (a : Q) (ic : nat * string) =>
                match dict_get weights (snd ic) with
                | Some w => (a + nth (fst ic) r 0 * w)%Q
                | None => a
                end)
             ics (a0 r))
        X_scaled.
Proof.
  revert a0. induction ics as [|[i c] ics IH]; intros a0;
    cbn [fold_left fst snd]; [reflexivity|].
  destruct (dict_get weights c) as [w|]; [|apply IH].
  change (column X_scaled i) with (map (fun r : list Q => nth i r 0%Q) X_scaled).
  rewrite combine_map_same, map_map. cbn [fst snd].
  apply (IH (fun r => (a0 r + nth i r 0 * w)%Q)).
Qed.

Lemma weighted_sum_rowwise (feature_cols : list string) (X_scaled : list (list Q)) :
  weighted_sum feature_cols X_scaled = map (row_score feature_cols) X_scaled.
Proof.
  unfold weighted_sum, row_score.
  apply (weighted_fold_rowwise _ (fun _ => 0%Q)).
Qed.

(** ** Calls that cannot fail *)

Lemma exc_map_ok {A B : Type} (f : A -> exc B) (l : list A) :
  (forall a, In a l -> exists b, f a = Ok b) ->
  exists bs, exc_map f l = Ok bs /\ length bs = length l.
Proof.
  induction l as [|a l IH]; intros H; simpl.
  - exists []. split; reflexivity.
  - destruct (H a (or_introl eq_refl)) as (b & Hb).
    destruct IH as (bs & Hbs & Hlen); [intros a' Ha'; apply H; now right|].
    rewrite Hb, Hbs. simpl. exists (b :: bs). split; [reflexivity | simpl; now rewrite Hlen].
Qed.

(** Rows that agree on the columns read give the same float rows. *)
Lemma exc_map_constant {A B : Type} (f : A -> exc B) (l : list A) (bs : list B) :
  (forall a a', In a l -> In a' l -> f a = f a') ->
  exc_map f l = Ok bs ->
  forall b b', In b bs -> In b' bs -> b = b'.
Proof.
  intros Hsame Hok.
  assert (Hall : forall a b, In a l -> In b bs -> f a = Ok b).
  { revert bs Hok Hsame. induction l as [|x l IH]; intros bs Hok Hsame a b Ha Hb.
    - destruct Ha.
    - simpl in Hok. destruct (f x) as [y|] eqn:Hx; simpl in Hok; [|discriminate].
      destruct (exc_map f l) as [ys|] eqn:Hl; simpl in Hok; [|discriminate].
      injection Hok as <-.
      assert (Hax : f a = Ok y).
      { rewrite (Hsame a x Ha (or_introl eq_refl)). exact Hx. }
      destruct Hb as [<-|Hb]; [exact Hax|].
      destruct l as [|x' l'].
      + simpl in Hl. injection Hl as <-. destruct Hb.
      + rewrite (Hsame a x' Ha (or_intror (or_introl eq_refl))).
        apply (IH ys eq_refl); [|now left | exact Hb].
        intros a1 a2 H1 H2. apply Hsame; now right. }
  intros b b' Hb Hb'. destruct l as [|a l'].
  - simpl in Hok. injection Hok as <-. destruct Hb.
  - pose proof (Hall a b (or_introl eq_refl) Hb) as H1.
    pose proof (Hall a b' (or_introl eq_refl) Hb') as H2.
    congruence.
Qed.

(** ** Sorting and column assignment *)

Lemma desc_before_total (a b : option Q) :
  desc_before a b = false -> desc_before b a = true.
Proof.
  destruct a as [p|], b as [q|]; simpl; try discriminate; try reflexivity.
  intros H. apply Qle_bool_iff.
  destruct (Qlt_le_dec p q) as [Hlt|Hle]; [apply Qlt_le_weak; exact Hlt|].
  apply Qle_bool_iff in Hle. congruence.
Qed.

Lemma desc_before_trans (a b c : option Q) :
  desc_before a b = true -> desc_before b c = true -> desc_before a c = true.
Proof.
  destruct a as [p|], b as [q|], c as [r|]; simpl; try discriminate; try reflexivity.
  intros H1 H2. apply Qle_bool_iff in H1, H2. apply Qle_bool_iff.
  eapply Qle_trans; eassumption.
Qed.

Lemma insert_desc_in (c : string) (r x : row) (l : list row) :
  In x (insert_desc c r l) <-> x = r \/ In x l.
Proof.
  induction l as [|s l IH]; simpl.
  - split; intros [H|H]; auto.
  - destruct (desc_before (sort_key (row_get s c)) (sort_key (row_get r c))); simpl.
    + rewrite IH. split; intros [H|[H|H]]; auto.
    + split; intros [H|[H|H]]; auto.
Qed.

Lemma insert_desc_length (c : string) (r : row) (l : list row) :
  length (insert_desc c r l) = S (length l).
Proof.
  induction l as [|s l IH]; simpl; [reflexivity|].
  destruct (desc_before _ _); simpl; [now rewrite IH | reflexivity].
Qed.

Lemma insert_desc_descending (c : string) (r : row) (l : list row) :
  rows_descending c l -> rows_descending c (insert_desc c r l).
Proof.
  induction l as [|s l IH]; simpl.
  - intros _. split; [intros _ [] | exact I].
  - intros [Hs Hl].
    destruct (desc_before (sort_key (row_get s c)) (sort_key (row_get r c))) eqn:Hb.
    + simpl. split; [|exact (IH Hl)].
      intros x Hx. apply insert_desc_in in Hx as [->|Hx]; [exact Hb | exact (Hs x Hx)].
    + apply desc_before_total in Hb. simpl. split; [|split; assumption].
      intros x [<-|Hx]; [exact Hb|].
      exact (desc_before_trans _ _ _ Hb (Hs x Hx)).
Qed.

Lemma sorted_rows_spec (c : string) (l acc : list row) :
  rows_descending c acc ->
  let out := fold_left (fun acc r => insert_desc c r acc) l acc in
  rows_descending c out /\
  (forall x, In x out <-> In x l \/ In x acc) /\
  length out = length l + length acc.
Proof.
  revert acc. induction l as [|r l IH]; intros acc Hacc; simpl.
  - split; [exact Hacc|]. split; [intros x; tauto | reflexivity].
  - destruct (IH (insert_desc c r acc) (insert_desc_descending c r acc Hacc))
      as (H1 & H2 & H3).
    split; [exact H1|]. split.
    + intros x. rewrite H2, insert_desc_in.
      split; [intros [H|[->|H]]; auto | intros [[<-|H]|H]; auto].
    + rewrite H3, insert_desc_length. lia.
Qed.

Lemma sort_values_desc_spec (df : DataFrame) (c : string) :
  has_col df c = true ->
  exists out, sort_values_desc df c = Ok out /\
    columns out = columns df /\
    rows_descending c (rows out) /\
    (forall x, In x (rows out) <-> In x (rows df)) /\
    length (rows out) = length (rows df).
Proof.
  intros H. unfold sort_values_desc. rewrite H. eexists. split; [reflexivity|].
  destruct (sorted_rows_spec c (rows df) [] I) as (H1 & H2 & H3).
  cbn [columns rows]. split; [reflexivity|]. split; [exact H1|]. split.
  - intros x. rewrite H2. simpl. tauto.
  - rewrite H3. simpl. lia.
Qed.

(** The cell written by a column assignment is the one read back. *)
Lemma row_get_put (c : string) (r : row) (v : cell) :
  row_get
    (if existsb (String.eqb c) (map fst r)
     then map (fun kv : string * cell => if String.eqb (fst kv) c then (c, v) else kv) r
     else r ++ [(c, v)])
    c = v.
Proof.
  induction r as [|[k w] r IH]; simpl.
  - rewrite String.eqb_refl. reflexivity.
  - destruct (String.eqb_spec c k) as [<-|Hne]; simpl.
    + rewrite !String.eqb_refl. simpl. try rewrite String.eqb_refl. reflexivity.
    + destruct (String.eqb_spec k c) as [->|_]; [congruence|].
      destruct (existsb (String.eqb c) (map fst r)); simpl;
        destruct (String.eqb_spec k c) as [->|_]; try congruence; exact IH.
Qed.

Lemma set_column_spec (df : DataFrame) (c : string) (vals : list cell) :
  length vals = length (rows df) ->
  has_col (set_column df c vals) c = true /\
  length (rows (set_column df c vals)) = length (rows df) /\
  keys_of c (rows (set_column df c vals)) = vals.
Proof.
  intros Hlen. split; [|split].
  - unfold set_column, has_col at 1. cbn [columns].
    destruct (has_col df c) eqn:H; [exact H|].
    rewrite existsb_app. simpl. rewrite String.eqb_refl. apply orb_true_iff.
    right. reflexivity.
  - unfold set_column. cbn [rows]. rewrite length_map, length_combine. lia.
  - unfold set_column, keys_of. cbn [rows]. rewrite map_map.
    revert vals Hlen. induction (rows df) as [|r rs IH]; intros [|v vals] Hlen;
      simpl in *; try discriminate; [reflexivity|].
    rewrite row_get_put. f_equal. apply IH. lia.
Qed.

(** ** One run of [calculate_impact_score] *)

Lemma float_values_ok (df : DataFrame) :
  numeric_features df ->
  exists X, float_values df (non_key_columns df) = Ok X /\
            length X = length (rows df).
Proof.
  intros Hnum. unfold float_values. apply exc_map_ok.
  intros r Hr.
  destruct (exc_map_ok (fun c => cell_float (row_get r c)) (non_key_columns df))
    as (b & Hb & _); [|exists b; exact Hb].
  intros c Hc. destruct (Hnum r c Hr Hc) as (q & ->). exists q. reflexivity.
Qed.

Lemma fit_transform_ok (sk : sklearn_routines) (n : nat) (X : list (list Q)) :
  X <> [] -> n <> 0 ->
  fit_transform sk n X = Ok (map (scale_row (scaler_fit sk n X)) X).
Proof.
  intros HX Hn. unfold fit_transform, scaler_fit_checked, scaler_transform.
  destruct X as [|x X]; [congruence|].
  destruct (Nat.eqb_spec n 0); [contradiction | reflexivity].
Qed.

Lemma raw_impact_ok (sk : sklearn_routines) (df : DataFrame) :
  rows df <> [] -> non_key_columns df <> [] -> numeric_features df ->
  exists X, float_values df (non_key_columns df) = Ok X /\
    length X = length (rows df) /\
    raw_impact sk df
    = Ok (map (row_score (non_key_columns df))
              (map (scale_row (scaler_fit sk (length (non_key_columns df)) X)) X)).
Proof.
  intros Hrows Hcols Hnum.
  destruct (float_values_ok df Hnum) as (X & HX & Hlen).
  exists X. split; [exact HX|]. split; [exact Hlen|].
  unfold raw_impact. rewrite HX. cbn [mbind exc_bind].
  rewrite fit_transform_ok.
  - cbn [mbind exc_bind]. rewrite weighted_sum_rowwise. reflexivity.
  - intros ->. destruct (rows df); [congruence | discriminate].
  - destruct (non_key_columns df); [congruence | discriminate].
Qed.

Lemma calculate_impact_score_run (sk : sklearn_routines) (self : MLAnalyzer)
    (df : DataFrame) (raw : list Q) :
  ensure_features self = Ok df ->
  raw_impact sk df = Ok raw ->
  length raw = length (rows df) ->
  let scored := set_column df "impact_score" (map VNum (min_max_100 raw)) in
  exists sorted,
    calculate_impact_score sk self
    = Ok (sorted, {| author_stats_df := author_stats_df self;
                     network_metrics_df := network_metrics_df self;
                     feature_df := Some scored |}) /\
    keys_of "impact_score" (rows scored) = map VNum (min_max_100 raw) /\
    rows_descending "impact_score" (rows sorted) /\
    (forall x, In x (rows sorted) <-> In x (rows scored)) /\
    length (rows sorted) = length (rows df).
Proof.
  intros Hdf Hraw Hlen scored.
  assert (Hvals : length (map VNum (min_max_100 raw)) = length (rows df))
    by (rewrite length_map, min_max_100_length; exact Hlen).
  destruct (set_column_spec df "impact_score" _ Hvals) as (Hcol & Hl & Hk).
  fold scored in Hcol, Hl, Hk.
  destruct (sort_values_desc_spec scored "impact_score" Hcol)
    as (sorted & Hs & _ & Hd & Hin & Hsl).
  exists sorted. unfold calculate_impact_score.
  rewrite Hdf. cbn [mbind exc_bind]. rewrite Hraw. cbn [mbind exc_bind].
  fold scored. rewrite Hs. cbn [mbind exc_bind].
  split; [reflexivity|]. split; [exact Hk|]. split; [exact Hd|].
  split; [exact Hin | congruence].
Qed.

Lemma keys_of_in (c : string) (rs : list row) (r : row) :
  In r rs -> In (row_get r c) (keys_of c rs).
Proof. intros H. unfold keys_of. apply in_map_iff. exists r. auto. Qed.

(** ** The impact score *)

Lemma exc_map_ext {A B : Type} (f g : A -> exc B) (l : list A) :
  (forall a, In a l -> f a = g a) -> exc_map f l = exc_map g l.
Proof.
  induction l as [|a l IH]; intros H; simpl; [reflexivity|].
  rewrite (H a (or_introl eq_refl)), IH; [reflexivity|].
  intros a' Ha'. apply H. now right.
Qed.

Lemma identical_rows_identical_raw (sk : sklearn_routines) (df : DataFrame)
    (raw : list Q) :
  (forall r1 r2 c, In r1 (rows df) -> In r2 (rows df) ->
     In c (non_key_columns df) -> row_get r1 c = row_get r2 c) ->
  raw_impact sk df = Ok raw ->
  forall x y, In x raw -> In y raw -> x = y.
Proof.
  intros Hsame Hraw. unfold raw_impact in Hraw.
  destruct (float_values df (non_key_columns df)) as [X|] eqn:HX;
    cbn [mbind exc_bind] in Hraw; [|discriminate].
  assert (HXc : forall b b', In b X -> In b' X -> b = b').
  { apply (exc_map_constant _ _ _ (fun r1 r2 H1 H2 =>
             exc_map_ext _ _ _ (fun c Hc => f_equal cell_float (Hsame r1 r2 c H1 H2 Hc)))
             HX). }
  unfold fit_transform in Hraw.
  destruct (scaler_fit_checked sk (length (non_key_columns df)) X) as [p|];
    cbn [mbind exc_bind] in Hraw; [|discriminate].
  unfold scaler_transform in Hraw. destruct X as [|x0 X']; [discriminate|].
  cbn [mbind exc_bind] in Hraw. injection Hraw as <-.
  rewrite weighted_sum_rowwise. intros x y Hx Hy.
  apply in_map_iff in Hx as (sx & <- & Hx).
  apply (in_map_iff (scale_row p) (x0 :: X')) in Hx as (bx & <- & Hx).
  apply in_map_iff in Hy as (sy & <- & Hy).
  apply (in_map_iff (scale_row p) (x0 :: X')) in Hy as (by' & <- & Hy).
  rewrite (HXc bx by' Hx Hy). reflexivity.
Qed.

(** C2: for a fused feature population that is not empty (at least one
    row, at least one feature column, every feature cell a number),
    [calculate_impact_score] returns a table with one row per author in
    which every [impact_score] is a number between 0 and 100 inclusive;
    when all raw weighted scores are equal, and in particular when all
    feature vectors are identical, every [impact_score] is exactly 0. *)
Theorem impact_score_range (sk : sklearn_routines) (self : MLAnalyzer)
    (df : DataFrame) :
  ensure_features self = Ok df ->
  rows df <> [] -> non_key_columns df <> [] -> numeric_features df ->
  exists raw sorted self',
    raw_impact sk df = Ok raw /\
    calculate_impact_score sk self = Ok (sorted, self') /\
    length (rows sorted) = length (rows df) /\
    (forall r, In r (rows sorted) ->
       exists q, row_get r "impact_score" = VNum q /\ (0 <= q)%Q /\ (q <= 100)%Q) /\
    ((forall x y, In x raw -> In y raw -> (x == y)%Q) ->
     forall r, In r (rows sorted) -> row_get r "impact_score" = VNum 0) /\
    ((forall r1 r2 c, In r1 (rows df) -> In r2 (rows df) ->
        In c (non_key_columns df) -> row_get r1 c = row_get r2 c) ->
     forall r, In r (rows sorted) -> row_get r "impact_score" = VNum 0).
Proof.
  intros Hdf Hrows Hcols Hnum.
  destruct (raw_impact_ok sk df Hrows Hcols Hnum) as (X & _ & HXlen & Hraw).
  set (raw := map (row_score (non_key_columns df))
                  (map (scale_row (scaler_fit sk (length (non_key_columns df)) X)) X))
    in *.
  assert (Hlen : length raw = length (rows df))
    by (unfold raw; rewrite !length_map; exact HXlen).
  destruct (calculate_impact_score_run sk self df raw Hdf Hraw Hlen)
    as (sorted & Hrun & Hk & _ & Hin & Hsl).
  exists raw, sorted. eexists. split; [exact Hraw|]. split; [exact Hrun|].
  split; [exact Hsl|].
  assert (Hscore : forall r, In r (rows sorted) ->
            In (row_get r "impact_score") (map VNum (min_max_100 raw))).
  { intros r Hr. rewrite <- Hk. apply keys_of_in. apply Hin. exact Hr. }
  assert (Hdeg : (forall x y, In x raw -> In y raw -> (x == y)%Q) ->
            forall r, In r (rows sorted) -> row_get r "impact_score" = VNum 0).
  { intros Heq r Hr. specialize (Hscore r Hr).
    rewrite (min_max_100_degenerate raw Heq) in Hscore.
    apply in_map_iff in Hscore as (q & <- & Hq).
    apply in_map_iff in Hq as (_ & <- & _). reflexivity. }
  split; [|split; [exact Hdeg|]].
  - intros r Hr. specialize (Hscore r Hr).
    apply in_map_iff in Hscore as (q & <- & Hq).
    exists q. split; [reflexivity|]. apply (min_max_100_range raw q Hq).
  - intros Hsame. apply Hdeg. intros x y Hx Hy.
    rewrite (identical_rows_identical_raw sk df raw Hsame Hraw x y Hx Hy).
    reflexivity.
Qed.

Lemma ex_features_numeric : numeric_features ex_features.
Proof.
  intros r c Hr Hc. vm_compute in Hc.
  destruct Hc as [<-|[<-|[]]];
    destruct Hr as [<-|[<-|[<-|[<-|[]]]]]; eexists; reflexivity.
Defined.

Lemma impact_score_range_witness :
  exists sorted self',
    calculate_impact_score sk_sample ex_ml = Ok (sorted, self') /\
    forall r, In r (rows sorted) ->
      exists q, row_get r "impact_score" = VNum q /\ (0 <= q)%Q /\ (q <= 100)%Q.
Proof.
  assert (Hrows : rows ex_features <> []) by discriminate.
  assert (Hcols : non_key_columns ex_features <> []) by discriminate.
  destruct (impact_score_range sk_sample ex_ml ex_features eq_refl Hrows Hcols
              ex_features_numeric)
    as (raw & sorted & self' & _ & Hrun & _ & Hrange & _).
  exists sorted, self'. split; [exact Hrun | exact Hrange].
Defined.

Lemma rows_descending_numbers (c : string) (rs : list row) :
  rows_descending c rs ->
  (forall r, In r rs -> exists q, row_get r c = VNum q) ->
  exists qs, keys_of c rs = map VNum qs /\ non_increasing qs.
Proof.
  induction rs as [|r rs IH]; simpl.
  - intros _ _. exists []. split; [reflexivity | exact I].
  - intros [Hr Hrs] Hnum.
    destruct (Hnum r (or_introl eq_refl)) as (q & Hq).
    destruct (IH Hrs (fun r' Hr' => Hnum r' (or_intror Hr'))) as (qs & Hk & Hqs).
    exists (q :: qs). simpl. rewrite Hq, Hk. split; [reflexivity|].
    split; [|exact Hqs].
    intros y Hy.
    assert (Hin : In (VNum y) (keys_of c rs)) by (rewrite Hk; now apply in_map).
    unfold keys_of in Hin. apply in_map_iff in Hin as (r' & Hy' & Hr').
    specialize (Hr r' Hr'). rewrite Hq, Hy' in Hr. simpl in Hr.
    apply Qle_bool_iff. exact Hr.
Qed.

(** C10: for a fused feature population that is not empty, the table
    returned by [calculate_impact_score] lists its rows in non-increasing
    order of [impact_score]; it has the rows of the scored feature table,
    in that order. *)
Theorem impact_table_sorted (sk : sklearn_routines) (self : MLAnalyzer)
    (df : DataFrame) :
  ensure_features self = Ok df ->
  rows df <> [] -> non_key_columns df <> [] -> numeric_features df ->
  exists sorted self' scored scores,
    calculate_impact_score sk self = Ok (sorted, self') /\
    feature_df self' = Some scored /\
    (forall r, In r (rows sorted) <-> In r (rows scored)) /\
    length (rows sorted) = length (rows df) /\
    keys_of "impact_score" (rows sorted) = map VNum scores /\
    non_increasing scores.
Proof.
  intros Hdf Hrows Hcols Hnum.
  destruct (raw_impact_ok sk df Hrows Hcols Hnum) as (X & _ & HXlen & Hraw).
  set (raw := map (row_score (non_key_columns df))
                  (map (scale_row (scaler_fit sk (length (non_key_columns df)) X)) X))
    in *.
  assert (Hlen : length raw = length (rows df))
    by (unfold raw; rewrite !length_map; exact HXlen).
  destruct (calculate_impact_score_run sk self df raw Hdf Hraw Hlen)
    as (sorted & Hrun & Hk & Hd & Hin & Hsl).
  destruct (rows_descending_numbers "impact_score" (rows sorted) Hd) as (qs & Hqs & Hni).
  { intros r Hr.
    assert (Hs : In (row_get r "impact_score") (map VNum (min_max_100 raw))).
    { rewrite <- Hk. apply keys_of_in. apply Hin. exact Hr. }
    apply in_map_iff in Hs as (q & <- & _). exists q. reflexivity. }
  exists sorted. eexists. eexists. exists qs.
  split; [exact Hrun|]. split; [reflexivity|]. split; [exact Hin|].
  split; [exact Hsl|]. split; [exact Hqs | exact Hni].
Qed.

Lemma impact_table_sorted_witness :
  exists sorted self' scores,
    calculate_impact_score sk_sample ex_ml = Ok (sorted, self') /\
    keys_of "impact_score" (rows sorted) = map VNum scores /\
    non_increasing scores.
Proof.
  assert (Hrows : rows ex_features <> []) by discriminate.
  assert (Hcols : non_key_columns ex_features <> []) by discriminate.
  destruct (impact_table_sorted sk_sample ex_ml ex_features eq_refl Hrows Hcols
              ex_features_numeric)
    as (sorted & self' & scored & scores & Hrun & _ & _ & _ & Hk & Hni).
  exists sorted, self', scores. split; [exact Hrun|]. split; [exact Hk | exact Hni].
Defined.

(** ** Selection of the best model *)

Lemma float_gt_trans_le (a b r : pyfloat) :
  float_gt a b = true -> float_gt r b = false ->
  (exists q, r = Some q) -> float_gt a r = true.
Proof.
  destruct a as [x|], b as [y|]; simpl; try discriminate.
  intros H1 H2 (q & ->). simpl in *.
  apply negb_true_iff in H1. apply negb_false_iff in H2.
  apply Qle_bool_iff in H2. apply negb_true_iff.
  destruct (Qle_bool x q) eqn:H; [|reflexivity].
  apply Qle_bool_iff in H.
  assert (Hxy : (x <= y)%Q) by (eapply Qle_trans; eassumption).
  apply Qle_bool_iff in Hxy. congruence.
Qed.

Lemma float_gt_trans (a b r : pyfloat) :
  float_gt a b = true -> float_gt b r = true -> float_gt a r = true.
Proof.
  destruct a as [x|], b as [y|], r as [z|]; simpl; try discriminate.
  intros H1 H2. apply negb_true_iff in H1, H2. apply negb_true_iff.
  destruct (Qle_bool x z) eqn:H; [|reflexivity].
  apply Qle_bool_iff in H.
  destruct (Qlt_le_dec z y) as [Hlt|Hle].
  - assert (Hxy : (x <= y)%Q) by (apply Qlt_le_weak; eapply Qle_lt_trans; eassumption).
    apply Qle_bool_iff in Hxy. congruence.
  - apply Qle_bool_iff in Hle. congruence.
Qed.

Lemma uniform_scores_number (l : list (string * model_result))
    (a b : string * model_result) :
  uniform_scores l -> In a l -> In b l ->
  (exists q, r2_score_ (snd a) = Some q) -> exists q, r2_score_ (snd b) = Some q.
Proof.
  intros [H|H] Ha Hb (q & Hq); [exact (H b Hb)|].
  rewrite (H a Ha) in Hq. discriminate.
Qed.

Lemma best_fold_spec (rest pre post : list (string * model_result))
    (best : string * model_result) :
  uniform_scores (pre ++ best :: post ++ rest) ->
  first_maximum pre best post ->
  exists pre' post',
    let best' :=
      fold_left
        (fun (best : string * model_result) kv =>
           if float_gt (r2_score_ (snd kv)) (r2_score_ (snd best)) then kv else best)
        rest best in
    pre ++ best :: post ++ rest = pre' ++ best' :: post' /\
    first_maximum pre' best' post'.
Proof.
  revert pre post best. induction rest as [|kv rest IH]; intros pre post best Hu [Hpre Hpost].
  - exists pre, post. simpl. rewrite app_nil_r. split; [reflexivity | split; assumption].
  - simpl. destruct (float_gt (r2_score_ (snd kv)) (r2_score_ (snd best))) eqn:Hgt.
    + destruct (IH (pre ++ best :: post) [] kv) as (pre' & post' & Heq & Hfm).
      * simpl. rewrite <- app_assoc. simpl. exact Hu.
      * split; [|intros ? []].
        assert (Hkvn : exists q, r2_score_ (snd kv) = Some q).
        { destruct (r2_score_ (snd kv)) as [q|]; [eauto | discriminate]. }
        assert (Hkvin : In kv (pre ++ best :: post ++ kv :: rest)).
        { apply in_or_app. right. right. apply in_or_app. right. now left. }
        intros x Hx. apply in_app_or in Hx as [Hx|[<-|Hx]].
        -- exact (float_gt_trans _ _ _ Hgt (Hpre x Hx)).
        -- exact Hgt.
        -- apply (float_gt_trans_le _ _ _ Hgt (Hpost x Hx)).
           apply (uniform_scores_number _ kv x Hu Hkvin); [|exact Hkvn].
           apply in_or_app. right. right. apply in_or_app. now left.
      * exists pre', post'. simpl in Heq. rewrite <- app_assoc in Heq. simpl in Heq.
        split; [exact Heq | exact Hfm].
    + destruct (IH pre (post ++ [kv]) best) as (pre' & post' & Heq & Hfm).
      * rewrite <- app_assoc. simpl. exact Hu.
      * split; [exact Hpre|]. intros x Hx.
        apply in_app_or in Hx as [Hx|[<-|[]]]; [exact (Hpost x Hx) | exact Hgt].
      * exists pre', post'. rewrite <- app_assoc in Heq. simpl in Heq.
        split; [exact Heq | exact Hfm].
Qed.

Lemma best_of_spec (l : list (string * model_result)) :
  l <> [] -> uniform_scores l ->
  exists b res pre post,
    best_of l = Some b /\ l = pre ++ (b, res) :: post /\
    first_maximum pre (b, res) post.
Proof.
  intros Hne Hu. destruct l as [|first rest]; [congruence|].
  destruct (best_fold_spec rest [] [] first Hu) as (pre & post & Heq & Hfm).
  { split; intros ? []. }
  simpl in Heq. unfold best_of.
  destruct (fold_left _ rest first) as [b res] eqn:Hb.
  exists b, res, pre, post. split; [reflexivity|]. split; [exact Heq | exact Hfm].
Qed.

(** ** The results of the model loop *)

Lemma dict_set_in {V : Type} (d : list (string * V)) (k : string) (v : V)
    (kv : string * V) :
  In kv (dict_set d k v) -> kv = (k, v) \/ In kv d.
Proof.
  induction d as [|[a w] d IH]; simpl.
  - intros [<-|[]]. now left.
  - destruct (String.eqb_spec a k) as [->|_]; simpl.
    + intros [<-|H]; auto.
    + intros [<-|H]; auto. destruct (IH H); auto.
Qed.

Lemma dict_set_keys {V : Type} (d : list (string * V)) (k : string) (v : V) :
  map fst (dict_set d k v)
  = if existsb (String.eqb k) (map fst d) then map fst d else map fst d ++ [k].
Proof.
  induction d as [|[a w] d IH]; simpl; [reflexivity|].
  rewrite (String.eqb_sym k a).
  destruct (String.eqb_spec a k) as [->|Hne]; simpl; [reflexivity|].
  rewrite IH. destruct (existsb (String.eqb k) (map fst d)); reflexivity.
Qed.

Lemma qsum_squares_nonneg {A : Type} (f : A -> Q) (l : list A) :
  (0 <= qsum (map (fun a => qsq (f a)) l))%Q.
Proof.
  induction l as [|a l IH]; simpl; [apply Qle_refl|].
  assert (0 <= qsq (f a))%Q by (unfold qsq; nra). lra.
Qed.

Lemma qmean_squares_nonneg {A : Type} (f : A -> Q) (l : list A) :
  (0 <= qmean (map (fun a => qsq (f a)) l))%Q.
Proof.
  unfold qmean. rewrite length_map.
  destruct l as [|a l].
  - simpl. unfold Qdiv. rewrite Qmult_0_l. apply Qle_refl.
  - apply Qle_shift_div_l.
    + change 0%Q with (inject_Z 0). rewrite <- Zlt_Qlt. simpl length. lia.
    + rewrite Qmult_0_l. apply (qsum_squares_nonneg f (a :: l)).
Qed.

Lemma mean_squared_error_nonneg (y_true y_pred : list Q) (mse : Q) :
  mean_squared_error y_true y_pred = Ok mse -> (0 <= mse)%Q.
Proof.
  unfold mean_squared_error.
  destruct (negb (length y_true =? length y_pred)%nat); [discriminate|].
  destruct (length y_true =? 0)%nat; [discriminate|].
  intros [= <-]. apply (qmean_squares_nonneg (fun tp : Q * Q => (fst tp - snd tp)%Q)).
Qed.

(** Whether the score is a number depends on the test targets only. *)
Lemma r2_score_number (y_true y_pred : list Q) (v : pyfloat) :
  r2_score y_true y_pred = Ok v ->
  if (length y_true <? 2)%nat then v = None else exists q, v = Some q.
Proof.
  unfold r2_score.
  destruct (Nat.eqb_spec (length y_true) (length y_pred)) as [He|]; [|discriminate].
  cbn [negb]. destruct (length y_true =? 0)%nat; [discriminate|].
  rewrite <- He. destruct (length y_true <? 2)%nat; [now intros [= <-]|].
  destruct (negb (Qeq_bool _ 0)); [intros [= <-]; eauto|].
  destruct (negb (Qeq_bool _ 0)); intros [= <-]; eauto.
Qed.

Lemma train_one_trained (sk : sklearn_routines) (Xtr : list (list Q))
    (y_train : exc (list Q)) (Xte : list (list Q)) (y_test : exc (list Q))
    (name : string) (y_pred : list Q) (res : model_result) :
  train_one sk Xtr y_train Xte y_test name = Trained y_pred res ->
  exists yte mse,
    y_test = Ok yte /\
    r2_score yte y_pred = Ok (r2_score_ res) /\
    mean_squared_error yte y_pred = Ok mse /\
    rmse res = np_sqrt sk mse /\
    model_name res = upper name.
Proof.
  unfold train_one.
  destruct (negb _); [discriminate|].
  destruct (_ && _)%bool; [discriminate|].
  destruct y_train as [ytr|]; cbn [mbind exc_bind]; [|discriminate].
  destruct (fit_predict sk name Xtr ytr Xte) as [yp|]; cbn [mbind exc_bind]; [|discriminate].
  destruct y_test as [yte|]; cbn [mbind exc_bind]; [|discriminate].
  destruct (r2_score yte yp) as [r2|] eqn:Hr2; cbn [mbind exc_bind]; [|discriminate].
  destruct (mean_squared_error yte yp) as [mse|] eqn:Hmse; cbn [mbind exc_bind];
    [|discriminate].
  intros [= <- <-]. exists yte, mse. repeat split; assumption.
Qed.

Lemma train_all_spec (sk : sklearn_routines) (Xtr : list (list Q))
    (y_train : exc (list Q)) (Xte : list (list Q)) (y_test : exc (list Q))
    (models : list string) :
  let res := fst (train_all sk Xtr y_train Xte y_test models) in
  (forall kv, In kv res ->
     exists y_pred, train_one sk Xtr y_train Xte y_test (fst kv) = Trained y_pred (snd kv)) /\
  map fst res `sublist_of` models /\
  NoDup (map fst res).
Proof.
  unfold train_all.
  assert (H : forall (done : list string) st,
    ((forall kv, In kv (fst st) ->
        exists y_pred, train_one sk Xtr y_train Xte y_test (fst kv) = Trained y_pred (snd kv)) /\
     map fst (fst st) `sublist_of` done /\ NoDup (map fst (fst st))) ->
    let res := fst (fold_left
      (fun (st : list (string * model_result) * list (string * list Q)) name =>
         match train_one sk Xtr y_train Xte y_test name with
         | Trained y_pred res => (dict_set (fst st) name res, dict_set (snd st) name y_pred)
         | Skipped => st
         end) models st) in
    (forall kv, In kv res ->
        exists y_pred, train_one sk Xtr y_train Xte y_test (fst kv) = Trained y_pred (snd kv)) /\
    map fst res `sublist_of` (done ++ models) /\ NoDup (map fst res)).
  { induction models as [|m ms IH]; intros done st (H1 & H2 & H3); cbn [fold_left].
    - rewrite app_nil_r. auto.
    - specialize (IH (done ++ [m])). rewrite <- app_assoc in IH. simpl in IH.
      apply IH. clear IH.
      destruct (train_one sk Xtr y_train Xte y_test m) as [yp r|] eqn:Ht; cbn [fst].
      + split; [|split].
        * intros kv Hkv. apply dict_set_in in Hkv as [->|Hkv]; [eauto | auto].
        * rewrite dict_set_keys.
          destruct (existsb (String.eqb m) (map fst (fst st)));
            [apply sublist_inserts_r; exact H2 | apply sublist_app; [exact H2 | reflexivity]].
        * rewrite dict_set_keys.
          destruct (existsb (String.eqb m) (map fst (fst st))) eqn:He; [exact H3|].
          apply NoDup_app. split; [exact H3|]. split; [|apply NoDup_singleton].
          intros x Hx Hm. apply list_elem_of_singleton in Hm. subst x.
          assert (existsb (String.eqb m) (map fst (fst st)) = true); [|congruence].
          apply existsb_exists. exists m. split; [|apply String.eqb_refl].
          apply list_elem_of_In. exact Hx.
      + split; [exact H1|]. split; [apply sublist_inserts_r; exact H2 | exact H3]. }
  apply (H [] ([], [])). simpl. split; [intros ? []|].
  split; [apply sublist_nil_l | apply NoDup_nil_2].
Qed.

Lemma predict_citations_results (sk : sklearn_routines) (self : MLAnalyzer)
    (test_size : Q) (models : option (list string)) (report : prediction_report) :
  predict_citations sk self test_size models = Ok report ->
  exists Xtr y_train Xte y_test,
    results report
    = fst (train_all sk Xtr y_train Xte y_test
             (match models with None => default_models | Some l => l end)) /\
    best_model report = best_of (results report).
Proof.
  unfold predict_citations. intros H.
  repeat match type of H with
         | mbind _ ?m = Ok _ =>
             destruct m; cbn [mbind exc_bind] in H; [|discriminate H]
         end.
  injection H as <-. cbn [results best_model].
  do 4 eexists. split; reflexivity.
Qed.

(** C8: in every run of [predict_citations] in which at least one model
    trained, [best_model] names an entry of [results] whose R2 score no
    other entry exceeds and which every earlier entry falls strictly short
    of (the first maximum, comparisons being Python's on floats); the
    entries of [results] come in the order of the configured model list,
    one per trained model; and every reported RMSE is at least 0, the
    square root returning a non-negative value on non-negative input. *)
Theorem best_model_first_argmax (sk : sklearn_routines) (self : MLAnalyzer)
    (test_size : Q) (models : option (list string)) (report : prediction_report) :
  (forall x, (0 <= x)%Q -> (0 <= np_sqrt sk x)%Q) ->
  predict_citations sk self test_size models = Ok report ->
  results report <> [] ->
  exists b res pre post,
    best_model report = Some b /\
    results report = pre ++ (b, res) :: post /\
    (forall m r, In (m, r) pre ->
       float_gt (r2_score_ res) (r2_score_ r) = true) /\
    (forall m r, In (m, r) post ->
       float_gt (r2_score_ r) (r2_score_ res) = false) /\
    map fst (results report)
      `sublist_of` (match models with None => default_models | Some l => l end) /\
    NoDup (map fst (results report)) /\
    (forall m r, In (m, r) (results report) -> (0 <= rmse r)%Q).
Proof.
  intros Hsqrt Hrun Hne.
  destruct (predict_citations_results sk self test_size models report Hrun)
    as (Xtr & ytr & Xte & yte & Hres & Hbest).
  destruct (train_all_spec sk Xtr ytr Xte yte
              (match models with None => default_models | Some l => l end))
    as (Hent & Hsub & Hnd).
  rewrite <- Hres in Hent, Hsub, Hnd.
  assert (Hu : uniform_scores (results report)).
  { destruct yte as [y|e].
    - destruct (length y <? 2)%nat eqn:Hlen; [right | left]; intros kv Hkv;
        destruct (Hent kv Hkv) as (yp & Ht);
        apply train_one_trained in Ht as (y' & mse & [= <-] & Hr2 & _);
        apply r2_score_number in Hr2; rewrite Hlen in Hr2; exact Hr2.
    - left. intros kv Hkv. destruct (Hent kv Hkv) as (yp & Ht).
      apply train_one_trained in Ht as (y' & mse & Hy & _). discriminate. }
  destruct (best_of_spec (results report) Hne Hu)
    as (b & res & pre & post & Hb & Hsplit & Hpre & Hpost).
  exists b, res, pre, post.
  split; [rewrite Hbest; exact Hb|]. split; [exact Hsplit|].
  split; [intros m r Hin; exact (Hpre (m, r) Hin)|].
  split; [intros m r Hin; exact (Hpost (m, r) Hin)|].
  split; [exact Hsub|]. split; [exact Hnd|].
  intros m r Hin. destruct (Hent (m, r) Hin) as (yp & Ht).
  apply train_one_trained in Ht as (y' & mse & _ & _ & Hmse & Hrm & _).
  cbn [snd] in Hrm. rewrite Hrm. apply Hsqrt.
  exact (mean_squared_error_nonneg _ _ _ Hmse).
Qed.

Lemma sqrt_floor_nonneg (x : Q) : (0 <= x)%Q -> (0 <= sqrt_floor x)%Q.
Proof.
  intros _. unfold sqrt_floor. apply Qle_shift_div_l.
  - reflexivity.
  - rewrite Qmult_0_l. change 0%Q with (inject_Z 0). rewrite <- Zle_Qle.
    apply Z.sqrt_nonneg.
Defined.

Lemma best_model_first_argmax_witness :
  exists report,
    predict_citations sk_sample ex_ml 0.2 (Some ["svm"; "dt"; "rf"]) = Ok report /\
    map fst (results report) = ["svm"; "rf"] /\
    best_model report = Some "svm" /\
    forall m r, In (m, r) (results report) -> (0 <= rmse r)%Q.
Proof.
  eexists.
  assert (Hrun : predict_citations sk_sample ex_ml 0.2 (Some ["svm"; "dt"; "rf"]) = Ok _)
    by (vm_compute; reflexivity).
  split; [exact Hrun|]. split; [reflexivity|]. split; [reflexivity|].
  destruct (best_model_first_argmax sk_sample ex_ml 0.2 (Some ["svm"; "dt"; "rf"]) _
              sqrt_floor_nonneg Hrun)
    as (b & res & pre & post & _ & _ & _ & _ & _ & _ & Hr).
  - discriminate.
  - exact Hr.
Defined.

(** * Further properties of the graph builder *)

Lemma pair_matches_sym (u v : string) (p : string * string) :
  pair_matches u v p = pair_matches v u p.
Proof.
  unfold pair_matches. apply bool_decide_ext. unfold same_edge. tauto.
Qed.

Lemma attr_of_titles_snoc (t : string) (ts : list string) :
  Some (upserted t (attr_of_titles ts)) = attr_of_titles (ts ++ [t]).
Proof.
  destruct ts as [|a ts]; [reflexivity|].
  unfold attr_of_titles at 1. cbn [upserted weight publications].
  change ((a :: ts) ++ [t]) with (a :: (ts ++ [t])).
  cbn [attr_of_titles]. f_equal. f_equal.
  cbn [length]. rewrite length_app. cbn [length]. lia.
Qed.

(** One pass through the loop body in terms of recorded titles. *)
Lemma upsert_edge_titles (t : string) (G : Graph) (a b : string)
    (T : string -> string -> list string) :
  (forall x y, edge G x y = attr_of_titles (T x y)) ->
  (forall x y, T x y = T y x) ->
  forall x y,
    edge (upsert_edge t G a b) x y
    = attr_of_titles (T x y ++ if pair_matches x y (a, b) then [t] else []).
Proof.
  intros HG Hsym x y. rewrite edge_upsert_edge. unfold pair_matches. cbn [fst snd].
  destruct (decide (same_edge a b x y)) as [Hs|Hs].
  - rewrite bool_decide_eq_true_2 by exact Hs.
    rewrite HG.
    assert (HT : T a b = T x y).
    { destruct Hs as [[-> ->]|[-> ->]]; [reflexivity | apply Hsym]. }
    rewrite HT. apply attr_of_titles_snoc.
  - rewrite bool_decide_eq_false_2 by exact Hs.
    rewrite app_nil_r. apply HG.
Qed.

Lemma pairs_fold_titles (t : string) (ps : list (string * string)) (G : Graph)
    (T : string -> string -> list string) :
  (forall x y, edge G x y = attr_of_titles (T x y)) ->
  (forall x y, T x y = T y x) ->
  forall x y,
    edge (fold_left (fun G p => upsert_edge t G (fst p) (snd p)) ps G) x y
    = attr_of_titles
        (T x y ++ map (fun _ => t) (List.filter (pair_matches x y) ps)).
Proof.
  revert G T. induction ps as [|[a b] ps IH]; intros G T HG Hsym x y.
  - simpl. rewrite app_nil_r. apply HG.
  - cbn [fold_left fst snd].
    rewrite (IH (upsert_edge t G a b)
                (fun x y => T x y ++ if pair_matches x y (a, b) then [t] else [])).
    + rewrite <- app_assoc. f_equal. f_equal. cbn [List.filter].
      destruct (pair_matches x y (a, b)); reflexivity.
    + apply upsert_edge_titles; assumption.
    + intros x' y'. rewrite (Hsym x' y'), (pair_matches_sym x' y'). reflexivity.
Qed.

Lemma row_titles_sym (u v : string) (row : publication) :
  row_titles u v row = row_titles v u row.
Proof.
  unfold row_titles. destruct (length (authors row) <? 2)%nat; [reflexivity|].
  f_equal. apply filter_ext. intros p. apply pair_matches_sym.
Qed.

Lemma process_row_titles (row : publication) (G : Graph)
    (T : string -> string -> list string) :
  (forall x y, edge G x y = attr_of_titles (T x y)) ->
  (forall x y, T x y = T y x) ->
  forall x y,
    edge (process_row G row) x y = attr_of_titles (T x y ++ row_titles x y row).
Proof.
  intros HG Hsym x y. unfold process_row, row_titles.
  destruct (length (authors row) <? 2)%nat.
  - rewrite app_nil_r. apply HG.
  - rewrite pair_loops_fold. apply pairs_fold_titles; assumption.
Qed.

Lemma rows_fold_titles (pubs : list publication) (G : Graph)
    (T : string -> string -> list string) :
  (forall x y, edge G x y = attr_of_titles (T x y)) ->
  (forall x y, T x y = T y x) ->
  forall x y,
    edge (fold_left process_row pubs G) x y
    = attr_of_titles (T x y ++ edge_titles x y pubs).
Proof.
  revert G T. induction pubs as [|row pubs IH]; intros G T HG Hsym x y.
  - simpl. rewrite app_nil_r. apply HG.
  - cbn [fold_left]. unfold edge_titles. cbn [flat_map].
    rewrite app_assoc.
    apply (IH (process_row G row) (fun x y => T x y ++ row_titles x y row)).
    + apply process_row_titles; assumption.
    + intros x' y'. rewrite (Hsym x' y'), (row_titles_sym x' y'). reflexivity.
Qed.

Lemma built_edge_titles (pubs : list publication) (u v : string) :
  edge (build_coauthorship_network pubs) u v
  = attr_of_titles (edge_titles u v pubs).
Proof.
  unfold build_coauthorship_network.
  apply (rows_fold_titles pubs empty_graph (fun _ _ => [])); reflexivity.
Qed.

(** X1: the attribute dict of an edge of the built graph, in closed form. *)
Theorem build_edge_closed_form (pubs : list publication) (u v : string) :
  edge (build_coauthorship_network pubs) u v
  = attr_of_titles (edge_titles u v pubs).
Proof. exact (built_edge_titles pubs u v). Qed.

Lemma edge_titles_sym (u v : string) (pubs : list publication) :
  edge_titles u v pubs = edge_titles v u pubs.
Proof.
  unfold edge_titles. apply flat_map_ext. intros row. apply row_titles_sym.
Qed.

Lemma built_edge_sym (pubs : list publication) (u v : string) :
  edge (build_coauthorship_network pubs) u v
  = edge (build_coauthorship_network pubs) v u.
Proof. rewrite !built_edge_titles, edge_titles_sym. reflexivity. Qed.

(** X2: the built graph is undirected. *)
Theorem build_edge_symmetric (pubs : list publication) (u v : string) :
  edge (build_coauthorship_network pubs) u v
  = edge (build_coauthorship_network pubs) v u.
Proof. exact (built_edge_sym pubs u v). Qed.

Lemma attr_of_titles_some (ts : list string) (d : edge_attr) :
  attr_of_titles ts = Some d ->
  ts <> [] /\ publications d = ts /\ weight d = Z.of_nat (length ts).
Proof.
  destruct ts as [|a ts]; [discriminate|]. intros [= <-].
  split; [discriminate|]. split; reflexivity.
Qed.

Lemma row_titles_in (u v : string) (row : publication) (t : string) :
  In t (row_titles u v row) ->
  t = title row /\ 2 <= length (authors row) /\
  exists i j, i < j < length (normalized_authors (authors row)) /\
              same_edge (nth i (normalized_authors (authors row)) "")
                        (nth j (normalized_authors (authors row)) "") u v.
Proof.
  unfold row_titles. destruct (Nat.ltb_spec (length (authors row)) 2); [intros []|].
  intros Hin. apply in_map_iff in Hin as (p & <- & Hp).
  apply filter_In in Hp as [Hp Hm].
  apply author_pairs_sound in Hp as (i & j & Hij & ->).
  unfold pair_matches in Hm. apply bool_decide_eq_true_1 in Hm.
  split; [reflexivity|]. split; [lia|]. exists i, j. split; assumption.
Qed.

(** X3: an edge of the built graph carries, as its weight, the number of
    titles recorded on it, and each recorded title is the title of an input
    publication with at least two author entries that lists both end
    points, at two different positions of its normalized author list. *)
Theorem build_edge_weight_and_titles (pubs : list publication) (u v : string)
    (d : edge_attr) :
  edge (build_coauthorship_network pubs) u v = Some d ->
  weight d = Z.of_nat (length (publications d)) /\
  publications d <> [] /\
  forall t, In t (publications d) ->
    exists row, In row pubs /\ title row = t /\ 2 <= length (authors row) /\
      exists i j, i < j < length (normalized_authors (authors row)) /\
                  same_edge (nth i (normalized_authors (authors row)) "")
                            (nth j (normalized_authors (authors row)) "") u v.
Proof.
  rewrite built_edge_titles. intros H.
  apply attr_of_titles_some in H as (Hne & Hp & Hw).
  rewrite Hp. split; [exact Hw|]. split; [exact Hne|].
  intros t Ht. unfold edge_titles in Ht. apply in_flat_map in Ht as (row & Hrow & Ht).
  apply row_titles_in in Ht as (-> & Hlen & Hij).
  exists row. repeat split; assumption.
Qed.

Lemma build_edge_weight_and_titles_witness :
  exists d, edge (build_coauthorship_network ex_pubs_scenario1) "a" "b" = Some d /\
            weight d = Z.of_nat (length (publications d)).
Proof.
  eexists. assert (H : edge (build_coauthorship_network ex_pubs_scenario1) "a" "b" = Some _)
    by (vm_compute; reflexivity).
  split; [exact H|].
  exact (proj1 (build_edge_weight_and_titles ex_pubs_scenario1 "a" "b" _ H)).
Defined.

Lemma built_edge_of_pair (pubs : list publication) (row : publication)
    (i j : nat) :
  In row pubs -> 2 <= length (authors row) ->
  i < j < length (normalized_authors (authors row)) ->
  exists d,
    edge (build_coauthorship_network pubs)
         (nth i (normalized_authors (authors row)) "")
         (nth j (normalized_authors (authors row)) "") = Some d /\
    In (title row) (publications d).
Proof.
  intros Hrow Hlen Hij. rewrite built_edge_titles.
  set (u := nth i (normalized_authors (authors row)) "").
  set (v := nth j (normalized_authors (authors row)) "").
  assert (Ht : In (title row) (edge_titles u v pubs)).
  { unfold edge_titles. apply in_flat_map. exists row. split; [exact Hrow|].
    unfold row_titles. destruct (Nat.ltb_spec (length (authors row)) 2); [lia|].
    apply in_map_iff. exists (u, v). split; [reflexivity|].
    apply filter_In. split; [apply author_pairs_complete; exact Hij|].
    unfold pair_matches. apply bool_decide_eq_true_2. left. split; reflexivity. }
  destruct (edge_titles u v pubs) as [|a ts] eqn:He; [destruct Ht|].
  eexists. split; [reflexivity | exact Ht].
Qed.

(** X4: a pair of distinct positions of the normalized author list of a
    publication with at least two author entries is joined by an edge. *)
Theorem build_edge_for_every_pair (pubs : list publication) (row : publication)
    (i j : nat) :
  In row pubs -> 2 <= length (authors row) ->
  i < j < length (normalized_authors (authors row)) ->
  exists d,
    edge (build_coauthorship_network pubs)
         (nth i (normalized_authors (authors row)) "")
         (nth j (normalized_authors (authors row)) "") = Some d /\
    In (title row) (publications d).
Proof. exact (built_edge_of_pair pubs row i j). Qed.

Lemma build_edge_for_every_pair_witness :
  exists d, edge (build_coauthorship_network ex_pubs_scenario1) "a" "c" = Some d /\
            In "P2" (publications d).
Proof.
  assert (Hin : In ex_row_abc ex_pubs_scenario1) by (right; left; reflexivity).
  assert (Hlen : 2 <= length (authors ex_row_abc)) by (simpl; lia).
  assert (Hij : 0 < 2 < length (normalized_authors (authors ex_row_abc)))
    by (simpl; lia).
  exact (build_edge_for_every_pair ex_pubs_scenario1 ex_row_abc 0 2 Hin Hlen Hij).
Defined.

Lemma edge_titles_app (u v : string) (pubs more : list publication) :
  edge_titles u v (pubs ++ more) = edge_titles u v pubs ++ edge_titles u v more.
Proof. unfold edge_titles. apply flat_map_app. Qed.

(** X5: processing further publications never removes an edge, never
    lowers its weight and only appends to its list of titles. *)
Theorem build_monotone (pubs more : list publication) (u v : string)
    (d : edge_attr) :
  edge (build_coauthorship_network pubs) u v = Some d ->
  exists d',
    edge (build_coauthorship_network (pubs ++ more)) u v = Some d' /\
    (weight d <= weight d')%Z /\
    publications d' = publications d ++ edge_titles u v more.
Proof.
  rewrite !built_edge_titles, edge_titles_app. intros H.
  apply attr_of_titles_some in H as (Hne & Hp & Hw).
  destruct (edge_titles u v pubs) as [|a ts] eqn:He; [congruence|].
  eexists. split; [reflexivity|]. cbn [weight publications].
  split; [|rewrite Hp; reflexivity].
  rewrite Hw. cbn [length app]. rewrite length_app. lia.
Qed.

Lemma build_monotone_witness :
  exists d d',
    edge (build_coauthorship_network [ex_row_abc]) "a" "b" = Some d /\
    edge (build_coauthorship_network ([ex_row_abc] ++ ex_pubs_scenario1)) "a" "b" = Some d' /\
    (weight d <= weight d')%Z.
Proof.
  eexists.
  assert (H : edge (build_coauthorship_network [ex_row_abc]) "a" "b" = Some _)
    by (vm_compute; reflexivity).
  destruct (build_monotone [ex_row_abc] ex_pubs_scenario1 "a" "b" _ H)
    as (d' & Hd' & Hw & _).
  exists d'. split; [exact H|]. split; [exact Hd' | exact Hw].
Defined.

(** ** Nodes of the built graph *)

Lemma edge_some_adj (G : Graph) (u v : string) (d : edge_attr) :
  edge G u v = Some d -> exists nb, adj G !! u = Some nb /\ nb !! v = Some d.
Proof.
  unfold edge. destruct (adj G !! u) as [nb|]; simpl; [|discriminate].
  intros H. exists nb. split; [reflexivity | exact H].
Qed.

Lemma adj_set_edge (G : Graph) (u v : string) (d : edge_attr) (x : string) :
  is_Some (adj (set_edge G u v d) !! x) <-> x = u \/ x = v \/ is_Some (adj G !! x).
Proof.
  unfold set_edge. cbn [adj].
  destruct (decide (v = x)) as [->|Hv].
  - rewrite lookup_insert_eq. split; [intros _; right; left; reflexivity | eauto].
  - rewrite lookup_insert_ne by done.
    destruct (decide (u = x)) as [->|Hu].
    + rewrite lookup_insert_eq. split; [intros _; left; reflexivity | eauto].
    + rewrite lookup_insert_ne by done. split; [tauto|].
      intros [-> | [-> | H]]; [congruence | congruence | exact H].
Qed.

Lemma adj_add_node (G : Graph) (u x : string) :
  is_Some (adj (add_node G u) !! x) <-> x = u \/ is_Some (adj G !! x).
Proof.
  unfold add_node. destruct (adj G !! u) as [nb|] eqn:Hu.
  - split; [tauto|]. intros [->|H]; [rewrite Hu; eauto | exact H].
  - cbn [adj]. destruct (decide (u = x)) as [->|Hne].
    + rewrite lookup_insert_eq. split; [intros _; now left | eauto].
    + rewrite lookup_insert_ne by done. split; [tauto|].
      intros [->|H]; [congruence | exact H].
Qed.

Lemma add_node_consistent (G : Graph) (u : string) :
  graph_consistent G ->
  graph_consistent (add_node G u) /\
  (forall x, In x (nodes (add_node G u)) <-> In x (nodes G) \/ x = u).
Proof.
  intros (Hnd & Hkeys & Hclosed).
  assert (Hn : forall x, In x (nodes (add_node G u)) <-> In x (nodes G) \/ x = u).
  { intros x. unfold add_node. destruct (adj G !! u) as [nb|] eqn:Hu.
    - split; [tauto|]. intros [H| ->]; [exact H|]. apply Hkeys. rewrite Hu. eauto.
    - cbn [nodes]. rewrite in_app_iff. simpl.
      split; [intros [H|[H|[]]]; auto | intros [H| ->]; [now left | right; now left]]. }
  split; [|exact Hn]. split; [|split].
  - unfold add_node. destruct (adj G !! u) as [nb|] eqn:Hu; [exact Hnd|].
    cbn [nodes]. apply NoDup_app. split; [exact Hnd|]. split; [|apply NoDup_singleton].
    intros x Hx Hxu. apply list_elem_of_singleton in Hxu. subst x.
    apply list_elem_of_In, Hkeys in Hx. rewrite Hu in Hx. destruct Hx as [? Hx]. discriminate.
  - intros x. rewrite Hn, adj_add_node, Hkeys. tauto.
  - intros x y d. rewrite edge_add_node, adj_add_node. intros H. right. eapply Hclosed, H.
Qed.

Lemma set_edge_consistent (G : Graph) (u v : string) (d : edge_attr) :
  graph_consistent G -> is_Some (adj G !! u) -> is_Some (adj G !! v) ->
  graph_consistent (set_edge G u v d).
Proof.
  intros (Hnd & Hkeys & Hclosed) Hu Hv. split; [exact Hnd|]. split.
  - intros x. rewrite adj_set_edge. change (nodes (set_edge G u v d)) with (nodes G).
    rewrite Hkeys. split; [tauto|]. intros [-> | [-> | H]]; assumption.
  - intros x y d'. rewrite edge_set_edge, adj_set_edge.
    destruct (decide (same_edge u v x y)) as [[[_ ->]|[_ ->]]|_]; [tauto | tauto |].
    intros H. right. right. eapply Hclosed, H.
Qed.

(** The loop body keeps nodes and adjacency in step and adds exactly the two
    authors of the pair to the nodes. *)
Lemma upsert_edge_consistent (t : string) (G : Graph) (a b : string) :
  graph_consistent G ->
  graph_consistent (upsert_edge t G a b) /\
  (forall x, In x (nodes (upsert_edge t G a b)) <-> In x (nodes G) \/ x = a \/ x = b).
Proof.
  intros HG. unfold upsert_edge, has_edge.
  destruct (edge G a b) as [d|] eqn:He.
  - destruct (edge_some_adj G a b d He) as (nb & Ha & _).
    assert (Hb : is_Some (adj G !! b)) by (eapply (proj2 (proj2 HG)), He).
    assert (Ha' : is_Some (adj G !! a)) by (rewrite Ha; eauto).
    split; [apply set_edge_consistent; assumption|].
    intros x. change (nodes (set_edge G a b _)) with (nodes G).
    split; [tauto|]. intros [H|[-> | ->]]; [exact H | |]; apply (proj1 (proj2 HG)); assumption.
  - unfold add_edge.
    destruct (add_node_consistent G a HG) as (H1 & Hn1).
    destruct (add_node_consistent (add_node G a) b H1) as (H2 & Hn2).
    split.
    + apply set_edge_consistent; [exact H2 | |].
      * apply adj_add_node. right. apply adj_add_node. now left.
      * apply adj_add_node. now left.
    + intros x. change (nodes (set_edge (add_node (add_node G a) b) a b _))
        with (nodes (add_node (add_node G a) b)).
      rewrite Hn2, Hn1. tauto.
Qed.

Lemma pairs_fold_consistent (t : string) (ps : list (string * string)) (G : Graph) :
  graph_consistent G ->
  let G' := fold_left (fun G p => upsert_edge t G (fst p) (snd p)) ps G in
  graph_consistent G' /\
  (forall x, In x (nodes G') <->
             In x (nodes G) \/ exists p, In p ps /\ (x = fst p \/ x = snd p)).
Proof.
  revert G. induction ps as [|p ps IH]; intros G HG; cbn [fold_left].
  - split; [exact HG|]. intros x. split; [tauto|]. intros [H|(p & [] & _)]. exact H.
  - destruct (upsert_edge_consistent t G (fst p) (snd p) HG) as (H1 & Hn1).
    destruct (IH _ H1) as (H2 & Hn2). split; [exact H2|].
    intros x. rewrite Hn2, Hn1. split.
    + intros [[H|H]|(q & Hq & Hx)]; [now left | | ].
      * right. exists p. split; [now left | exact H].
      * right. exists q. split; [now right | exact Hx].
    + intros [H|(q & [<-|Hq] & Hx)]; [tauto | tauto |].
      right. exists q. split; assumption.
Qed.

Lemma author_pairs_endpoints (l : list string) (x : string) :
  (exists p, In p (author_pairs l) /\ (x = fst p \/ x = snd p)) <->
  2 <= length l /\ In x l.
Proof.
  split.
  - intros (p & Hp & Hx). apply author_pairs_sound in Hp as (i & j & Hij & ->).
    split; [lia|]. cbn [fst snd] in Hx. destruct Hx as [-> | ->]; apply nth_In; lia.
  - intros [Hlen Hx]. apply (In_nth _ _ "") in Hx as (k & Hk & <-).
    destruct k as [|k].
    + exists (nth 0 l "", nth 1 l ""). split; [apply author_pairs_complete; lia|].
      left. reflexivity.
    + exists (nth 0 l "", nth (S k) l ""). split; [apply author_pairs_complete; lia|].
      right. reflexivity.
Qed.

Lemma process_row_consistent (G : Graph) (row : publication) :
  graph_consistent G ->
  graph_consistent (process_row G row) /\
  (forall x, In x (nodes (process_row G row)) <->
             In x (nodes G) \/
             (qualifying row /\ In x (normalized_authors (authors row)))).
Proof.
  intros HG. unfold process_row, qualifying.
  destruct (Nat.ltb_spec (length (authors row)) 2) as [Hlt|Hge].
  - split; [exact HG|]. intros x. split; [tauto|]. intros [H|[[H _] _]]; [exact H | lia].
  - rewrite pair_loops_fold.
    destruct (pairs_fold_consistent (title row)
                (author_pairs (normalized_authors (authors row))) G HG) as (H1 & Hn).
    split; [exact H1|]. intros x. rewrite Hn, author_pairs_endpoints. tauto.
Qed.

Lemma empty_graph_consistent : graph_consistent empty_graph.
Proof.
  split; [apply NoDup_nil_2|]. split.
  - intros u. simpl. split; [tauto|]. intros [? H]. discriminate.
  - intros u v d H. discriminate.
Qed.

Lemma rows_fold_consistent (pubs : list publication) (G : Graph) :
  graph_consistent G ->
  graph_consistent (fold_left process_row pubs G) /\
  (forall x, In x (nodes (fold_left process_row pubs G)) <->
             In x (nodes G) \/
             exists row, In row pubs /\ qualifying row /\
                         In x (normalized_authors (authors row))).
Proof.
  revert G. induction pubs as [|row pubs IH]; intros G HG; cbn [fold_left].
  - split; [exact HG|]. intros x. split; [tauto|]. intros [H|(r & [] & _)]. exact H.
  - destruct (process_row_consistent G row HG) as (H1 & Hn1).
    destruct (IH _ H1) as (H2 & Hn2). split; [exact H2|].
    intros x. rewrite Hn2, Hn1. split.
    + intros [[H|H]|(r & Hr & Hq)]; [now left | |].
      * right. exists row. split; [now left | exact H].
      * right. exists r. split; [now right | exact Hq].
    + intros [H|(r & [<-|Hr] & Hq)]; [tauto | tauto |].
      right. exists r. split; assumption.
Qed.

Lemma degree_of_edge (G : Graph) (u v : string) (d : edge_attr) :
  edge G u v = Some d -> 1 <= degree G u.
Proof.
  intros H. destruct (edge_some_adj G u v d H) as (nb & Ha & Hv).
  unfold degree. rewrite Ha.
  assert (size nb <> 0); [|lia].
  intros Hs. apply map_size_empty_iff in Hs. subst nb. rewrite lookup_empty in Hv.
  discriminate.
Qed.

(** X6: in the built graph the nodes are pairwise distinct and are exactly
    the keys of the adjacency dict; a name is a node exactly when it is a
    normalized author of a publication that has at least two author entries
    and at least two normalized authors; and every node has degree at least
    1 (the builder creates no isolated node). *)
Theorem build_nodes (pubs : list publication) :
  let G := build_coauthorship_network pubs in
  NoDup (nodes G) /\
  (forall u, In u (nodes G) <-> is_Some (adj G !! u)) /\
  (forall u, In u (nodes G) <->
     exists row, In row pubs /\ qualifying row /\
                 In u (normalized_authors (authors row))) /\
  (forall u, In u (nodes G) -> 1 <= degree G u).
Proof.
  intros G.
  destruct (rows_fold_consistent pubs empty_graph empty_graph_consistent)
    as ((Hnd & Hkeys & Hclosed) & Hn).
  fold (build_coauthorship_network pubs) in Hnd, Hkeys, Hclosed, Hn. fold G in Hnd, Hkeys, Hclosed, Hn.
  assert (Hchar : forall u, In u (nodes G) <->
     exists row, In row pubs /\ qualifying row /\
                 In u (normalized_authors (authors row))).
  { intros u. rewrite Hn. simpl. tauto. }
  split; [exact Hnd|]. split; [exact Hkeys|]. split; [exact Hchar|].
  intros u Hu. apply Hchar in Hu as (row & Hrow & [Hq1 Hq2] & Hin).
  apply (In_nth _ _ "") in Hin as (k & Hk & <-).
  destruct k as [|k].
  - destruct (built_edge_of_pair pubs row 0 1 Hrow Hq1) as (d & Hd & _); [lia|].
    exact (degree_of_edge _ _ _ _ Hd).
  - destruct (built_edge_of_pair pubs row 0 (S k) Hrow Hq1) as (d & Hd & _); [lia|].
    rewrite built_edge_sym in Hd. exact (degree_of_edge _ _ _ _ Hd).
Qed.

(** * Research communities *)

Lemma group_append_keys (cd : list (Z * list string)) (k : Z) (n : string) :
  map fst (group_append cd k n)
  = if existsb (Z.eqb k) (map fst cd) then map fst cd else map fst cd ++ [k].
Proof.
  induction cd as [|[k' ns] cd IH]; simpl; [reflexivity|].
  rewrite (Z.eqb_sym k k').
  destruct (Z.eqb_spec k' k) as [->|Hne]; simpl; [reflexivity|].
  rewrite IH. destruct (existsb (Z.eqb k) (map fst cd)); reflexivity.
Qed.

Lemma group_append_fresh (cd : list (Z * list string)) (k : Z) (n : string) :
  ~ In k (map fst cd) -> group_append cd k n = cd ++ [(k, [n])].
Proof.
  induction cd as [|[k' ns] cd IH]; simpl; [reflexivity|].
  intros H. destruct (Z.eqb_spec k' k) as [->|Hne]; [tauto|].
  rewrite IH; [reflexivity | tauto].
Qed.

Lemma group_append_last (cd : list (Z * list string)) (k : Z) (ns : list string)
    (n : string) :
  ~ In k (map fst cd) ->
  group_append (cd ++ [(k, ns)]) k n = cd ++ [(k, ns ++ [n])].
Proof.
  induction cd as [|[k' ns'] cd IH]; simpl.
  - intros _. rewrite Z.eqb_refl. reflexivity.
  - intros H. destruct (Z.eqb_spec k' k) as [->|Hne]; [tauto|].
    rewrite IH; [reflexivity | tauto].
Qed.

(** What one [append] does to the group of each community id. *)
Lemma group_append_lookup (cd : list (Z * list string)) (k : Z) (n : string)
    (id : Z) (ns : list string) :
  NoDup (map fst cd) ->
  In (id, ns) (group_append cd k n) ->
  (id <> k /\ In (id, ns) cd) \/
  (id = k /\ exists old, ns = old ++ [n] /\
                         (In (k, old) cd \/ (old = [] /\ ~ In k (map fst cd)))).
Proof.
  induction cd as [|[k' ns'] cd IH]; intros Hnd; simpl.
  - intros [[= <- <-]|[]]. right. split; [reflexivity|].
    exists []. split; [reflexivity|]. right. split; [reflexivity | tauto].
  - apply NoDup_cons in Hnd as [Hk' Hnd].
    assert (Hk'' : ~ In k' (map fst cd)) by (rewrite <- list_elem_of_In; exact Hk').
    destruct (Z.eqb_spec k' k) as [->|Hne]; simpl.
    + intros [[= <- <-]|Hin].
      * right. split; [reflexivity|]. exists ns'. split; [reflexivity|]. left. now left.
      * left. split; [|now right]. intros ->. apply Hk''.
        apply in_map_iff. exists (k, ns). split; [reflexivity | exact Hin].
    + intros [[= <- <-]|Hin].
      * left. split; [exact Hne | now left].
      * destruct (IH Hnd Hin) as [[H1 H2]|[H1 (old & H2 & [H3|[H3 H4]])]].
        -- left. split; [exact H1 | now right].
        -- right. split; [exact H1|]. exists old. split; [exact H2|]. left. now right.
        -- right. split; [exact H1|]. exists old. split; [exact H2|]. right.
           split; [exact H3|]. intros [H|H]; [congruence | exact (H4 H)].
Qed.

Lemma members_snoc (id : Z) (P : list (string * Z)) (n : string) (k : Z) :
  members id (P ++ [(n, k)]) = members id P ++ if Z.eqb k id then [n] else [].
Proof.
  unfold members. rewrite List.filter_app, map_app. cbn [List.filter snd].
  destruct (Z.eqb k id); reflexivity.
Qed.

Lemma members_in (id : Z) (P : list (string * Z)) (n : string) :
  In n (members id P) <-> In (n, id) P.
Proof.
  unfold members. rewrite in_map_iff. split.
  - intros ([n' k] & <- & H). apply filter_In in H as [H Hk]. simpl in *.
    apply Z.eqb_eq in Hk. now subst.
  - intros H. exists (n, id). split; [reflexivity|]. apply filter_In.
    split; [exact H | apply Z.eqb_refl].
Qed.

Lemma group_fold_spec (todo P : list (string * Z)) (cd : list (Z * list string)) :
  NoDup (map fst cd) ->
  (forall id ns, In (id, ns) cd -> ns <> [] /\ ns = members id P) ->
  (forall n id, In (n, id) P -> In id (map fst cd)) ->
  let out := fold_left (fun cd nc => group_append cd (snd nc) (fst nc)) todo cd in
  NoDup (map fst out) /\
  (forall id ns, In (id, ns) out -> ns <> [] /\ ns = members id (P ++ todo)) /\
  (forall n id, In (n, id) (P ++ todo) -> In id (map fst out)).
Proof.
  revert P cd. induction todo as [|[n k] todo IH]; intros P cd Hnd Hgr Hcov.
  - simpl. rewrite app_nil_r. auto.
  - cbn [fold_left fst snd].
    replace (P ++ (n, k) :: todo) with ((P ++ [(n, k)]) ++ todo)
      by (rewrite <- app_assoc; reflexivity).
    apply IH.
    + rewrite group_append_keys.
      destruct (existsb (Z.eqb k) (map fst cd)) eqn:He; [exact Hnd|].
      apply NoDup_app. split; [exact Hnd|]. split; [|apply NoDup_singleton].
      intros x Hx Hxk. apply list_elem_of_singleton in Hxk. subst x.
      assert (existsb (Z.eqb k) (map fst cd) = true); [|congruence].
      apply existsb_exists. exists k. split; [|apply Z.eqb_refl].
      apply list_elem_of_In. exact Hx.
    + intros id ns Hin. rewrite members_snoc.
      destruct (group_append_lookup cd k n id ns Hnd Hin)
        as [[Hne H]|[-> (old & -> & [H|[-> Hno]])]].
      * destruct (Z.eqb_spec k id); [congruence|]. rewrite app_nil_r. exact (Hgr _ _ H).
      * rewrite Z.eqb_refl. split; [destruct old; discriminate|].
        f_equal. exact (proj2 (Hgr _ _ H)).
      * rewrite Z.eqb_refl. split; [discriminate|]. f_equal.
        destruct (members k P) as [|m ms] eqn:Hm; [reflexivity|].
        exfalso. apply Hno. apply (Hcov m).
        apply members_in. rewrite Hm. now left.
    + intros m id Hin. rewrite group_append_keys.
      apply in_app_or in Hin as [Hin|[[= -> ->]|[]]].
      * specialize (Hcov _ _ Hin).
        destruct (existsb (Z.eqb k) (map fst cd)); [exact Hcov|].
        apply in_or_app. now left.
      * destruct (existsb (Z.eqb id) (map fst cd)) eqn:He.
        -- apply existsb_exists in He as (x & Hx & Hxe). apply Z.eqb_eq in Hxe. now subst.
        -- apply in_or_app. right. now left.
Qed.

(** X7: grouping a labelling of nodes by community id gives one group per
    id that occurs; the group of an id lists exactly the nodes with that
    label, in the order of the labelling, and is never empty; and every
    labelled node is in the group of its id.  With every node labelled
    once, the groups are pairwise disjoint and list each node once. *)
Theorem group_communities_partition (communities : list (string * Z)) :
  let out := group_communities communities in
  NoDup (map fst out) /\
  (forall id ns, In (id, ns) out -> ns <> [] /\ ns = members id communities) /\
  (forall n id, In (n, id) communities -> exists ns, In (id, ns) out /\ In n ns) /\
  (NoDup (map fst communities) ->
   forall n id1 ns1 id2 ns2,
     In (id1, ns1) out -> In (id2, ns2) out -> In n ns1 -> In n ns2 ->
     id1 = id2 /\ NoDup ns1).
Proof.
  intros out.
  destruct (group_fold_spec communities [] [] (NoDup_nil_2 (A:=Z))) as (H1 & H2 & H3).
  { intros ? ? []. }
  { intros ? ? []. }
  simpl in H2, H3. fold (group_communities communities) in H1, H2, H3. fold out in H1, H2, H3.
  split; [exact H1|]. split; [exact H2|]. split.
  - intros n id Hin. specialize (H3 n id Hin).
    apply in_map_iff in H3 as ([id' ns] & Hid & Hg). simpl in Hid. subst id'.
    exists ns. split; [exact Hg|]. rewrite (proj2 (H2 _ _ Hg)). apply members_in. exact Hin.
  - intros Hnd n id1 ns1 id2 ns2 Hg1 Hg2 Hn1 Hn2.
    rewrite (proj2 (H2 _ _ Hg1)) in Hn1 |- *. rewrite (proj2 (H2 _ _ Hg2)) in Hn2.
    apply members_in in Hn1, Hn2. split.
    + clear -Hnd Hn1 Hn2. induction communities as [|[m k] cs IH]; [destruct Hn1|].
      simpl in Hnd. apply NoDup_cons in Hnd as [Hm Hnd].
      assert (Hfresh : forall id, ~ In (m, id) cs).
      { intros id Hin. apply Hm. apply list_elem_of_In. apply in_map_iff.
        exists (m, id). split; [reflexivity | exact Hin]. }
      destruct Hn1 as [Hn1|Hn1], Hn2 as [Hn2|Hn2].
      * congruence.
      * injection Hn1 as -> ->. exfalso. exact (Hfresh _ Hn2).
      * injection Hn2 as -> ->. exfalso. exact (Hfresh _ Hn1).
      * exact (IH Hnd Hn1 Hn2).
    + clear -Hnd. unfold members. induction communities as [|[m k] cs IH];
        [apply NoDup_nil_2|].
      simpl in Hnd. apply NoDup_cons in Hnd as [Hm Hnd]. cbn [List.filter snd].
      destruct (Z.eqb k id1); [|exact (IH Hnd)].
      cbn [map fst]. apply NoDup_cons. split; [|exact (IH Hnd)].
      intros Hin. apply Hm. apply list_elem_of_In in Hin. apply list_elem_of_In.
      apply in_map_iff in Hin as (x & Hx & Hf). apply filter_In in Hf as [Hf _].
      apply in_map_iff. exists x. split; assumption.
Qed.

Lemma dict_set_fresh {V : Type} (d : list (string * V)) (k : string) (v : V) :
  ~ In k (map fst d) -> dict_set d k v = d ++ [(k, v)].
Proof.
  induction d as [|[k' v'] d IH]; simpl; [reflexivity|].
  intros H. destruct (String.eqb_spec k' k) as [->|Hne]; [tauto|].
  rewrite IH; [reflexivity | tauto].
Qed.

Lemma label_block (i : Z) (c : list string) (d : list (string * Z)) :
  NoDup (map fst d ++ c) ->
  fold_left (fun communities node => dict_set communities node i) c d
  = d ++ map (fun n => (n, i)) c.
Proof.
  revert d. induction c as [|n c IH]; intros d Hnd; simpl.
  - now rewrite app_nil_r.
  - assert (Hn : ~ In n (map fst d)).
    { apply NoDup_app in Hnd as (_ & Hdis & _). intros Hin.
      apply (Hdis n); [apply list_elem_of_In; exact Hin | left]. }
    rewrite (dict_set_fresh d n i Hn), IH.
    + rewrite <- app_assoc. reflexivity.
    + rewrite map_app. simpl. rewrite <- app_assoc. exact Hnd.
Qed.

Lemma label_blocks (tl : list (list string)) (s : nat) (d : list (string * Z)) :
  NoDup (map fst d ++ concat tl) ->
  fold_left
    (fun (communities : list (string * Z)) (ic : nat * list string) =>
       fold_left (fun communities node => dict_set communities node (Z.of_nat (fst ic)))
                 (snd ic) communities)
    (combine (seq s (length tl)) tl) d
  = d ++ flat_map (fun ic : nat * list string =>
                     map (fun n => (n, Z.of_nat (fst ic))) (snd ic))
                  (combine (seq s (length tl)) tl).
Proof.
  revert s d. induction tl as [|c tl IH]; intros s d Hnd; simpl.
  - now rewrite app_nil_r.
  - simpl in Hnd. rewrite app_assoc in Hnd.
    rewrite label_block by (apply NoDup_app in Hnd as (H & _ & _); exact H).
    rewrite IH.
    + rewrite <- app_assoc. reflexivity.
    + rewrite map_app, map_map. simpl. rewrite map_id. exact Hnd.
Qed.

Lemma group_block_tail (k : Z) (c ns : list string) (cd : list (Z * list string)) :
  ~ In k (map fst cd) ->
  fold_left (fun cd nc => group_append cd (snd nc) (fst nc))
            (map (fun n : string => (n, k)) c) (cd ++ [(k, ns)])
  = cd ++ [(k, ns ++ c)].
Proof.
  intros Hk. revert ns. induction c as [|n c IH]; intros ns; simpl.
  - now rewrite app_nil_r.
  - rewrite group_append_last by exact Hk. rewrite IH, <- app_assoc. reflexivity.
Qed.

Lemma group_block (k : Z) (c : list string) (cd : list (Z * list string)) :
  ~ In k (map fst cd) ->
  fold_left (fun cd nc => group_append cd (snd nc) (fst nc))
            (map (fun n : string => (n, k)) c) cd
  = match c with [] => cd | _ => cd ++ [(k, c)] end.
Proof.
  intros Hk. destruct c as [|n c]; [reflexivity|]. cbn [map fold_left fst snd].
  rewrite group_append_fresh by exact Hk.
  apply (group_block_tail k c [n] cd Hk).
Qed.

Lemma group_blocks (tl : list (list string)) (s : nat) (cd : list (Z * list string)) :
  (forall k, In k (map fst cd) -> (k < Z.of_nat s)%Z) ->
  fold_left (fun cd nc => group_append cd (snd nc) (fst nc))
    (flat_map (fun ic : nat * list string =>
                 map (fun n => (n, Z.of_nat (fst ic))) (snd ic))
              (combine (seq s (length tl)) tl)) cd
  = cd ++ map (fun ic : nat * list string => (Z.of_nat (fst ic), snd ic))
            (List.filter (fun ic : nat * list string =>
                            match snd ic with [] => false | _ => true end)
                         (combine (seq s (length tl)) tl)).
Proof.
  revert s cd. induction tl as [|c tl IH]; intros s cd Hlt; simpl.
  - now rewrite app_nil_r.
  - rewrite fold_left_app.
    assert (Hk : ~ In (Z.of_nat s) (map fst cd)).
    { intros H. specialize (Hlt _ H). lia. }
    rewrite (group_block (Z.of_nat s) c cd Hk).
    destruct c as [|n c].
    + apply IH. intros k Hin. specialize (Hlt k Hin). lia.
    + rewrite IH.
      * rewrite <- app_assoc. reflexivity.
      * intros k Hin. rewrite map_app in Hin. apply in_app_or in Hin as [Hin|[<-|[]]].
        -- specialize (Hlt k Hin). lia.
        -- simpl. lia.
Qed.

(** X8: when Girvan-Newman is used (asked for by any name other than
    'louvain', or as the fallback when python-louvain cannot be imported)
    and its first partition consists of pairwise disjoint communities, the
    result maps the position of each non-empty community to that community,
    in order. *)
Theorem girvan_newman_round_trip (cr : community_routines)
    (self : CitationNetworkAnalyzer) (algorithm : string)
    (top_level_communities : list (list string)) :
  algorithm <> "louvain" \/ best_partition cr = None ->
  girvan_newman_first cr (metrics_graph self) = Ok top_level_communities ->
  NoDup (concat top_level_communities) ->
  find_research_communities cr self algorithm
  = Ok (indexed_nonempty top_level_communities).
Proof.
  intros Halg Hgn Hnd.
  assert (Hc : girvan_newman_communities cr (metrics_graph self)
               = Ok (label_communities top_level_communities)).
  { unfold girvan_newman_communities. rewrite Hgn. reflexivity. }
  assert (Hfind : find_research_communities cr self algorithm
                  = Ok (group_communities (label_communities top_level_communities))).
  { unfold find_research_communities.
    destruct (String.eqb_spec algorithm "louvain") as [->|_].
    - destruct Halg as [H|H]; [congruence|]. rewrite H, Hc. reflexivity.
    - rewrite Hc. reflexivity. }
  rewrite Hfind. f_equal. unfold label_communities, group_communities, indexed_nonempty.
  rewrite (label_blocks top_level_communities 0 []) by exact Hnd.
  cbn [app]. apply (group_blocks top_level_communities 0 []). intros k [].
Qed.

Lemma girvan_newman_round_trip_witness :
  find_research_communities cr_sample ex_analyzer_ab "girvan_newman"
  = Ok [(0%Z, ["a"; "b"]); (2%Z, ["c"])].
Proof.
  assert (Hnd : NoDup (concat [["a"; "b"]; []; ["c"]]))
    by (refine (bool_decide_unpack _ _); vm_compute; exact I).
  exact (girvan_newman_round_trip cr_sample ex_analyzer_ab "girvan_newman"
           [["a"; "b"]; []; ["c"]] (or_intror eq_refl) eq_refl Hnd).
Defined.

(** * The metrics table *)

Lemma string_app_nil_r (x : string) : (x ++ "")%string = x.
Proof.
  induction x as [|c x IH]; [reflexivity|].
  change (String c (x ++ "")%string = String c x). now rewrite IH.
Qed.

Lemma suffixed_empty (other : list string) (on c : string) :
  suffixed other on "" c = c.
Proof.
  unfold suffixed. destruct (_ && _)%bool; [apply string_app_nil_r | reflexivity].
Qed.

Lemma filter_seen_nil (c : string) (k : cell) (rs : list row) (seen : list cell) :
  distinct_keys seen (keys_of c rs) ->
  existsb (cell_eqb k) seen = true ->
  List.filter (fun r => cell_eqb k (row_get r c)) rs = [].
Proof.
  revert seen. induction rs as [|r rs IH]; intros seen Hd Hs; [reflexivity|].
  simpl in Hd. destruct Hd as [Hr Hd]. cbn [List.filter].
  destruct (cell_eqb k (row_get r c)) eqn:Hk.
  - rewrite (existsb_cell_eqb_compat _ _ seen Hk) in Hs. congruence.
  - apply (IH (row_get r c :: seen) Hd). simpl. rewrite Hs. apply orb_true_r.
Qed.

(** Among rows with pairwise different keys at most one matches a key. *)
Lemma filter_distinct_le1 (c : string) (k : cell) (rs : list row) (seen : list cell) :
  distinct_keys seen (keys_of c rs) ->
  length (List.filter (fun r => cell_eqb k (row_get r c)) rs) <= 1.
Proof.
  revert seen. induction rs as [|r rs IH]; intros seen Hd; [simpl; lia|].
  simpl in Hd. destruct Hd as [Hr Hd]. cbn [List.filter].
  destruct (cell_eqb k (row_get r c)) eqn:Hk.
  - rewrite (filter_seen_nil c k rs (row_get r c :: seen) Hd); [simpl; lia|].
    simpl. rewrite Hk. reflexivity.
  - exact (IH _ Hd).
Qed.

Lemma dedup_rows_id (c : string) (rs : list row) (seen : list cell) :
  distinct_keys seen (keys_of c rs) -> dedup_rows c seen rs = rs.
Proof.
  revert seen. induction rs as [|r rs IH]; intros seen Hd; [reflexivity|].
  simpl in Hd. destruct Hd as [Hr Hd]. simpl. rewrite Hr. f_equal. exact (IH _ Hd).
Qed.

Lemma distinct_keys_strings (l seen : list string) :
  NoDup (seen ++ l) -> distinct_keys (map VStr seen) (map VStr l).
Proof.
  revert seen. induction l as [|a l IH]; intros seen Hnd; simpl; [exact I|].
  split.
  - destruct (existsb (cell_eqb (VStr a)) (map VStr seen)) eqn:He; [|reflexivity].
    apply existsb_cell_eqb_str in He. apply in_map_iff in He as (x & [= ->] & Hx).
    apply NoDup_app in Hnd as (_ & Hdis & _). exfalso.
    apply (Hdis a); [apply list_elem_of_In; exact Hx | left].
  - apply (IH (a :: seen)). apply NoDup_cons. apply NoDup_app in Hnd as (H1 & H2 & H3).
    apply NoDup_cons in H3 as [Ha H3]. split.
    + intros Hin. apply elem_of_app in Hin as [Hin|Hin]; [|exact (Ha Hin)].
      apply (H2 a Hin). left.
    + apply NoDup_app. split; [exact H1|]. split; [|exact H3].
      intros x Hx Hxl. apply (H2 x Hx). now right.
Qed.

(** A left merge against a right frame with pairwise different keys keeps
    every left row once, with its own cells under its own labels. *)
Lemma merge_left_rows (left right out : DataFrame) (on sr : string) :
  distinct_keys [] (keys_of on (rows right)) ->
  merge left right on Left "" sr = Ok out ->
  In on (columns out) /\
  exists ext : row -> row,
    rows out = map (fun l => map (fun c => (c, row_get l c)) (columns left) ++ ext l)
                   (rows left).
Proof.
  intros Hd. unfold merge.
  destruct (has_col left on) eqn:Hl; cbn [negb]; [|discriminate].
  destruct (has_col right on) eqn:Hr; cbn [negb]; [|discriminate].
  destruct (nodup_str (merged_columns left right on "" sr)); cbn [negb]; [|discriminate].
  intros [= <-]. cbn [columns rows]. split.
  - apply merged_columns_key. exact Hl.
  - exists (fun l =>
      match List.filter (fun r => cell_eqb (row_get l on) (row_get r on)) (rows right) with
      | [] => map (fun c => (suffixed (columns left) on sr c, VNaN))
                  (List.filter (fun c => negb (String.eqb c on)) (columns right))
      | r :: _ => map (fun c => (suffixed (columns left) on sr c, row_get r c))
                      (List.filter (fun c => negb (String.eqb c on)) (columns right))
      end).
    induction (rows left) as [|l ls IH]; [reflexivity|].
    cbn [flat_map map]. rewrite IH. clear IH.
    pose proof (filter_distinct_le1 on (row_get l on) (rows right) [] Hd) as Hle.
    rewrite (map_ext (fun c => (suffixed (columns right) on "" c, row_get l c))
                     (fun c => (c, row_get l c)))
      by (intros c; now rewrite suffixed_empty).
    destruct (List.filter _ (rows right)) as [|r [|r' ms]]; [reflexivity | reflexivity |].
    simpl in Hle. lia.
Qed.

Lemma row_get_selected_app (g : string -> cell) (cols : list string) (c0 : string)
    (rest : row) :
  In c0 cols -> row_get (map (fun c => (c, g c)) cols ++ rest) c0 = g c0.
Proof.
  intros Hin. exact (row_get_labelled (fun c => c) g cols c0 rest Hin (fun c _ H => H)).
Qed.

Lemma add_keys_known (r : row) (cols : list string) :
  (forall k, In k (map fst r) -> In k cols) -> add_keys cols r = cols.
Proof.
  induction r as [|[k v] r IH]; simpl; [reflexivity|].
  intros H.
  assert (Hk : existsb (String.eqb k) cols = true).
  { apply existsb_exists. exists k. split; [apply H; now left | apply String.eqb_refl]. }
  rewrite Hk. apply IH. intros k' Hk'. apply H. now right.
Qed.

(** The frame built from the metric dicts of a non-empty node list. *)
Lemma metrics_frame (G : Graph) (bc cc ec pr : gmap string Q) (ns : list string) :
  ns <> [] ->
  DataFrame_of_records (map (metric_record G bc cc ec pr) ns)
  = {| columns := metric_labels; rows := map (metric_record G bc cc ec pr) ns |}.
Proof.
  intros Hne. unfold DataFrame_of_records.
  assert (Hcols : fold_left add_keys (map (metric_record G bc cc ec pr) ns) []
                  = metric_labels).
  { destruct ns as [|n ns]; [congruence|]. cbn [map fold_left].
    change (add_keys [] (metric_record G bc cc ec pr n)) with metric_labels.
    induction ns as [|m ns IH]; [reflexivity|]. cbn [map fold_left].
    rewrite add_keys_known; [apply IH; discriminate|].
    intros k Hk. exact Hk. }
  rewrite Hcols. f_equal. rewrite map_map. apply map_ext. intros n. reflexivity.
Qed.

Lemma merge_left_keeps (left right out : DataFrame) (sr : string) :
  distinct_keys [] (keys_of "author_name" (rows right)) ->
  merge left right "author_name" Left "" sr = Ok out ->
  has_col out "author_name" = true /\
  forall c, In c (columns left) -> keys_of c (rows out) = keys_of c (rows left).
Proof.
  intros Hd Hm. destruct (merge_left_rows left right out "author_name" sr Hd Hm)
    as (Hkey & ext & Hrows).
  split; [apply has_col_in; exact Hkey|].
  intros c Hc. rewrite Hrows. unfold keys_of. rewrite map_map. apply map_ext.
  intros l. apply (row_get_selected_app (fun c => row_get l c)). exact Hc.
Qed.

Lemma drop_duplicates_distinct (df out : DataFrame) (c : string) :
  drop_duplicates df c = Ok out ->
  distinct_keys [] (keys_of c (rows out)).
Proof.
  unfold drop_duplicates. destruct (has_col df c); [|discriminate].
  intros [= <-]. apply dedup_rows_distinct.
Qed.

Lemma merge_with_authors_keeps (authors_df metrics_df out : DataFrame)
    (author_names : list cell) :
  has_col metrics_df "author_name" = true ->
  distinct_keys [] (keys_of "author_name" (rows metrics_df)) ->
  merge_with_authors authors_df metrics_df author_names = Ok out ->
  forall c, In c (columns metrics_df) ->
    keys_of c (rows out) = keys_of c (rows metrics_df).
Proof.
  intros Hcol Hdist Hrun. unfold merge_with_authors in Hrun.
  match type of Hrun with
  | mbind _ ?m = _ => destruct m as [merged|] eqn:Hmerged; [|discriminate]
  end.
  cbn [mbind exc_bind] in Hrun.
  assert (Hkeep : has_col merged "author_name" = true /\
            forall c, In c (columns metrics_df) ->
              keys_of c (rows merged) = keys_of c (rows metrics_df)).
  { destruct (has_col authors_df "author_normalized").
    - destruct (if has_col authors_df "author_name"
                then drop_column authors_df "author_name" else Ok authors_df)
        as [afm|]; cbn [mbind exc_bind] in Hmerged; [|discriminate].
      destruct (drop_duplicates _ "author_name") as [au|] eqn:Hau;
        cbn [mbind exc_bind] in Hmerged; [|discriminate].
      exact (merge_left_keeps _ _ _ _ (drop_duplicates_distinct _ _ _ Hau) Hmerged).
    - destruct (has_col authors_df "author_name").
      + destruct (drop_duplicates authors_df "author_name") as [au|] eqn:Hau;
          cbn [mbind exc_bind] in Hmerged; [|discriminate].
        exact (merge_left_keeps _ _ _ _ (drop_duplicates_distinct _ _ _ Hau) Hmerged).
      + injection Hmerged as <-. split; [exact Hcol | reflexivity]. }
  destruct Hkeep as [Hm Hk]. rewrite Hm in Hrun.
  unfold drop_duplicates in Hrun. rewrite Hm in Hrun. injection Hrun as <-.
  cbn [rows]. intros c Hc. rewrite dedup_rows_id; [exact (Hk c Hc)|].
  rewrite (Hk "author_name"); [exact Hdist|]. apply has_col_in. exact Hcol.
Qed.

(** X9: when [calculate_network_metrics] returns, on a graph whose nodes
    are pairwise distinct, the table has exactly one row per node, in node
    order, and under each of the seven metric labels the row of a node
    holds the value computed for that node: its name, its degree, and the
    entry of the respective networkx dict (0 when the dict has none),
    whatever the author table merged in. *)
Theorem calculate_network_metrics_rows (nx : nx_routines)
    (self : CitationNetworkAnalyzer) (out : DataFrame) :
  calculate_network_metrics nx self = Ok out ->
  NoDup (nodes (metrics_graph self)) ->
  let G := metrics_graph self in
  exists bc cc ec pr,
    betweenness_centrality nx G = Ok bc /\
    closeness_centrality nx G = Ok cc /\
    eigenvector_centrality nx G 1000 = Ok ec /\
    pagerank nx G = Ok pr /\
    length (rows out) = length (nodes G) /\
    author_keys out = map VStr (nodes G) /\
    forall c, In c metric_labels ->
      keys_of c (rows out) = keys_of c (map (metric_record G bc cc ec pr) (nodes G)).
Proof.
  intros Hrun Hnd G. unfold calculate_network_metrics in Hrun. fold G in Hrun, Hnd.
  destruct (betweenness_centrality nx G) as [bc|]; cbn [mbind exc_bind] in Hrun; [|discriminate].
  destruct (closeness_centrality nx G) as [cc|]; cbn [mbind exc_bind] in Hrun; [|discriminate].
  destruct (eigenvector_centrality nx G 1000) as [ec|]; cbn [mbind exc_bind] in Hrun; [|discriminate].
  destruct (pagerank nx G) as [pr|]; cbn [mbind exc_bind] in Hrun; [|discriminate].
  exists bc, cc, ec, pr. repeat (split; [reflexivity|]).
  change ((author_names ←
             get_column (DataFrame_of_records (map (metric_record G bc cc ec pr) (nodes G)))
                        "author_name";
           merge_with_authors (authors_df self)
             (DataFrame_of_records (map (metric_record G bc cc ec pr) (nodes G)))
             author_names : exc DataFrame) = Ok out) in Hrun.
  destruct (nodes G) as [|n ns] eqn:Hnodes; [discriminate|].
  rewrite metrics_frame in Hrun by discriminate.
  change (get_column {| columns := metric_labels;
                        rows := map (metric_record G bc cc ec pr) (n :: ns) |}
                     "author_name")
    with (Ok (map (fun r => row_get r "author_name")
                  (map (metric_record G bc cc ec pr) (n :: ns)))) in Hrun.
  cbn [mbind exc_bind] in Hrun.
  assert (Hkeys : keys_of "author_name" (map (metric_record G bc cc ec pr) (n :: ns))
                  = map VStr (n :: ns)).
  { unfold keys_of. rewrite map_map. reflexivity. }
  pose proof (merge_with_authors_keeps (authors_df self)
                {| columns := metric_labels;
                   rows := map (metric_record G bc cc ec pr) (n :: ns) |}
                out
                (map (fun r : row => row_get r "author_name")
                     (map (metric_record G bc cc ec pr) (n :: ns)))
                eq_refl) as Hkeep.
  cbn [rows columns] in Hkeep. rewrite Hkeys in Hkeep.
  specialize (Hkeep (distinct_keys_strings (n :: ns) [] Hnd) Hrun).
  assert (Hauth : author_keys out = map VStr (n :: ns)).
  { unfold author_keys. rewrite (Hkeep "author_name") by (now left). exact Hkeys. }
  split; [|split; [exact Hauth | exact Hkeep]].
  apply (f_equal (@length cell)) in Hauth. unfold author_keys, keys_of in Hauth.
  rewrite !length_map in Hauth. exact Hauth.
Qed.

Lemma calculate_network_metrics_rows_witness :
  exists out,
    calculate_network_metrics nx_returning ex_analyzer_ab = Ok out /\
    author_keys out = [VStr "a"; VStr "b"] /\
    keys_of "degree" (rows out) = [VNum 1; VNum 1].
Proof.
  eexists.
  assert (Hrun : calculate_network_metrics nx_returning ex_analyzer_ab = Ok _)
    by (vm_compute; reflexivity).
  assert (Hnd : NoDup (nodes (metrics_graph ex_analyzer_ab)))
    by (refine (bool_decide_unpack _ _); vm_compute; exact I).
  split; [exact Hrun|].
  destruct (calculate_network_metrics_rows nx_returning ex_analyzer_ab _ Hrun Hnd)
    as (bc & cc & ec & pr & _ & _ & _ & _ & _ & Hk & Hm).
  split; [exact Hk|]. exact (Hm "degree" (or_intror (or_introl eq_refl))).
Defined.

(** * Top-n selections *)

Lemma rows_descending_cells (c : string) (rs : list row) :
  rows_descending c rs <-> cells_descending (keys_of c rs).
Proof.
  induction rs as [|r rs IH]; simpl; [tauto|]. rewrite IH. split.
  - intros [H1 H2]. split; [|exact H2]. intros k Hk.
    apply in_map_iff in Hk as (r' & <- & Hr'). exact (H1 r' Hr').
  - intros [H1 H2]. split; [|exact H2]. intros r' Hr'. apply H1.
    apply keys_of_in. exact Hr'.
Qed.

Lemma cells_descending_app (l1 l2 : list cell) :
  cells_descending (l1 ++ l2) ->
  cells_descending l1 /\
  forall k k', In k l1 -> In k' l2 -> desc_before (sort_key k) (sort_key k') = true.
Proof.
  induction l1 as [|a l1 IH]; simpl.
  - intros _. split; [exact I | intros ? ? []].
  - intros [Ha Hl]. destruct (IH Hl) as [H1 H2]. split.
    + split; [|exact H1]. intros k Hk. apply Ha. apply in_or_app. now left.
    + intros k k' [<-|Hk] Hk'; [apply Ha; apply in_or_app; now right | exact (H2 k k' Hk Hk')].
Qed.

Lemma insert_desc_perm (c : string) (r : row) (l : list row) :
  Permutation (insert_desc c r l) (r :: l).
Proof.
  induction l as [|s l IH]; simpl; [reflexivity|].
  destruct (desc_before _ _); [|reflexivity].
  rewrite IH. apply perm_swap.
Qed.

Lemma sorted_rows_perm (c : string) (l acc : list row) :
  Permutation (fold_left (fun acc r => insert_desc c r acc) l acc) (l ++ acc).
Proof.
  revert acc. induction l as [|r l IH]; intros acc; simpl; [reflexivity|].
  rewrite IH, insert_desc_perm. symmetry. apply Permutation_middle.
Qed.

(** What [nlargest] returns. *)
Lemma nlargest_spec (df out : DataFrame) (n : nat) (c : string) :
  nlargest df n c = Ok out ->
  columns out = columns df /\
  length (rows out) = Nat.min n (length (rows df)) /\
  cells_descending (keys_of c (rows out)) /\
  exists rest,
    Permutation (rows out ++ rest) (rows df) /\
    forall r r', In r (rows out) -> In r' rest ->
      desc_before (sort_key (row_get r c)) (sort_key (row_get r' c)) = true.
Proof.
  unfold nlargest. destruct (has_col df c) eqn:Hc; cbn [negb]; [|discriminate].
  destruct (existsb _ (rows df)); [discriminate|].
  destruct (sort_values_desc_spec df c Hc) as (sorted & Hs & Hcols & Hd & _ & Hlen).
  rewrite Hs. cbn [mbind exc_bind]. intros [= <-]. cbn [columns rows].
  split; [exact Hcols|]. split; [rewrite length_firstn, Hlen; reflexivity|].
  apply rows_descending_cells in Hd.
  rewrite <- (firstn_skipn n (rows sorted)) in Hd. unfold keys_of in Hd.
  rewrite map_app in Hd. apply cells_descending_app in Hd as [Hd1 Hd2].
  split; [exact Hd1|]. exists (skipn n (rows sorted)). split.
  - rewrite firstn_skipn.
    unfold sort_values_desc in Hs. rewrite Hc in Hs. injection Hs as <-. cbn [rows].
    rewrite sorted_rows_perm, app_nil_r. reflexivity.
  - intros r r' Hr Hr'. apply Hd2; apply in_map_iff; eauto.
Qed.

Lemma firstn_distinct (seen ks : list cell) (n : nat) :
  distinct_keys seen ks -> distinct_keys seen (firstn n ks).
Proof.
  revert seen n. induction ks as [|k ks IH]; intros seen [|n]; simpl; auto.
  intros [H1 H2]. split; [exact H1 | exact (IH _ _ H2)].
Qed.

Lemma keys_of_firstn (c : string) (rs : list row) (n : nat) :
  keys_of c (firstn n rs) = firstn n (keys_of c rs).
Proof. unfold keys_of. symmetry. apply firstn_map. Qed.

Lemma distinct_keys_perm_in (c : string) (rs : list row) (k : cell) (r : row) :
  In r rs -> cell_eqb k (row_get r c) = true ->
  existsb (cell_eqb k) (keys_of c rs) = true.
Proof.
  intros Hr Hk. apply existsb_exists. exists (row_get r c).
  split; [apply keys_of_in; exact Hr | exact Hk].
Qed.

Lemma calculate_network_metrics_distinct (nx : nx_routines)
    (self : CitationNetworkAnalyzer) (out : DataFrame) :
  calculate_network_metrics nx self = Ok out ->
  has_col out "author_name" = true /\ distinct_keys [] (author_keys out).
Proof.
  unfold calculate_network_metrics. intros H.
  repeat match type of H with
         | mbind _ ?m = Ok _ =>
             destruct m; cbn [mbind exc_bind] in H; [|discriminate H]
         end.
  match type of H with
  | drop_duplicates ?m _ = _ => generalize dependent m
  end.
  intros m H. split; [|exact (drop_duplicates_distinct _ _ _ H)].
  unfold drop_duplicates in H. destruct (has_col m "author_name") eqn:Hm; [|discriminate].
  injection H as <-. exact Hm.
Qed.

Lemma drop_duplicates_id (df : DataFrame) (c : string) :
  has_col df c = true -> distinct_keys [] (keys_of c (rows df)) ->
  drop_duplicates df c = Ok df.
Proof.
  intros Hc Hd. unfold drop_duplicates. rewrite Hc, dedup_rows_id by exact Hd.
  destruct df; reflexivity.
Qed.

(** X10: when [get_top_connectors] returns, its rows are rows of the
    metrics table, at most [top_n] of them (all of them when the table has
    no more), in descending order of degree, and no row left out has a
    degree that would have to come before one of them. *)
Theorem get_top_connectors_spec (nx : nx_routines) (self : CitationNetworkAnalyzer)
    (top_n : nat) (top : DataFrame) :
  get_top_connectors nx self top_n = Ok top ->
  exists metrics rest,
    calculate_network_metrics nx self = Ok metrics /\
    columns top = columns metrics /\
    length (rows top) = Nat.min top_n (length (rows metrics)) /\
    cells_descending (keys_of "degree" (rows top)) /\
    Permutation (rows top ++ rest) (rows metrics) /\
    forall r r', In r (rows top) -> In r' rest ->
      desc_before (sort_key (row_get r "degree")) (sort_key (row_get r' "degree")) = true.
Proof.
  unfold get_top_connectors. intros H.
  destruct (calculate_network_metrics nx self) as [metrics|] eqn:Hm;
    cbn [mbind exc_bind] in H; [|discriminate].
  destruct (calculate_network_metrics_distinct nx self metrics Hm) as [Hc Hd].
  rewrite (drop_duplicates_id metrics "author_name" Hc Hd) in H.
  cbn [mbind exc_bind] in H.
  destruct (nlargest_spec metrics top top_n "degree" H) as (H1 & H2 & H3 & rest & H4 & H5).
  exists metrics, rest. repeat split; assumption.
Qed.

Lemma get_top_connectors_spec_witness :
  exists top,
    get_top_connectors nx_returning ex_analyzer_abc 2 = Ok top /\
    length (rows top) = 2 /\
    cells_descending (keys_of "degree" (rows top)).
Proof.
  eexists.
  assert (Hrun : get_top_connectors nx_returning ex_analyzer_abc 2 = Ok _)
    by (vm_compute; reflexivity).
  split; [exact Hrun|].
  destruct (get_top_connectors_spec nx_returning ex_analyzer_abc 2 _ Hrun)
    as (metrics & rest & _ & _ & _ & Hd & _).
  split; [reflexivity | exact Hd].
Defined.

Lemma filter_length_perm {A : Type} (f : A -> bool) (l l' : list A) :
  Permutation l l' -> length (List.filter f l) = length (List.filter f l').
Proof.
  induction 1 as [|x l l' _ IH|x y l|l l' l'' _ IH1 _ IH2]; simpl.
  - reflexivity.
  - destruct (f x); simpl; congruence.
  - destruct (f x), (f y); reflexivity.
  - congruence.
Qed.

Lemma select_columns_keys (df out : DataFrame) (cols : list string) (c : string) :
  select_columns df cols = Ok out -> In c cols ->
  columns out = cols /\
  (forall c', In c' cols -> has_col df c' = true) /\
  keys_of c (rows out) = keys_of c (rows df).
Proof.
  unfold select_columns.
  destruct (find (fun c => negb (has_col df c)) cols) eqn:Hf; [discriminate|].
  intros [= <-] Hc. cbn [columns rows]. split; [reflexivity|]. split.
  - intros c' Hc'. pose proof (find_none _ _ Hf c' Hc') as Hn.
    apply negb_false_iff in Hn. exact Hn.
  - unfold keys_of. rewrite map_map. apply map_ext. intros r.
    apply (row_get_selected (fun c => row_get r c)). exact Hc.
Qed.

(** X11: when [get_top_influential_authors] returns, the table has exactly
    the six columns it selects, all of which the scored feature table has;
    it has at most [top_n] rows, in descending order of [impact_score], and
    no two of them for the same author. *)
Theorem get_top_influential_authors_spec (sk : sklearn_routines) (self : MLAnalyzer)
    (top_n : nat) (top : DataFrame) :
  get_top_influential_authors sk self top_n = Ok top ->
  exists df,
    scored_features sk self = Ok df /\
    (forall c, In c influential_columns -> has_col df c = true) /\
    columns top = influential_columns /\
    length (rows top) <= top_n /\
    cells_descending (keys_of "impact_score" (rows top)) /\
    forall k, length (List.filter (fun key => cell_eqb k key) (author_keys top)) <= 1.
Proof.
  unfold get_top_influential_authors. intros H.
  destruct (scored_features sk self) as [df|]; cbn [mbind exc_bind] in H; [|discriminate].
  destruct (drop_duplicates df "author_name") as [u|] eqn:Hu;
    cbn [mbind exc_bind] in H; [|discriminate].
  destruct (nlargest u top_n "impact_score") as [t|] eqn:Ht;
    cbn [mbind exc_bind] in H; [|discriminate].
  destruct (nlargest_spec u t top_n "impact_score" Ht) as (H1 & H2 & H3 & rest & H4 & _).
  assert (Hcu : columns u = columns df).
  { unfold drop_duplicates in Hu. destruct (has_col df "author_name"); [|discriminate].
    injection Hu as <-. reflexivity. }
  destruct (select_columns_keys t top influential_columns "impact_score" H)
    as (Hc & Hall & Hk1); [right; now left|].
  destruct (select_columns_keys t top influential_columns "author_name" H)
    as (_ & _ & Hk2); [now left|].
  exists df. split; [reflexivity|]. split.
  { intros c Hc'. specialize (Hall c Hc'). unfold has_col in *.
    rewrite <- Hcu, <- H1. exact Hall. }
  split; [exact Hc|]. split.
  { apply (f_equal (@length cell)) in Hk2. unfold keys_of in Hk2.
    rewrite !length_map in Hk2. rewrite Hk2, H2. apply Nat.le_min_l. }
  split; [rewrite Hk1; exact H3|].
  intros k. unfold author_keys. rewrite Hk2.
  pose proof (drop_duplicates_distinct df u "author_name" Hu) as Hd.
  pose proof (filter_distinct_le1 "author_name" k (rows u) [] Hd) as Hle.
  rewrite <- (filter_length_perm _ _ _ H4), List.filter_app, length_app in Hle.
  unfold keys_of. 
  assert (Hmap : forall rs : list row,
            length (List.filter (fun key => cell_eqb k key)
                      (map (fun r => row_get r "author_name") rs))
            = length (List.filter (fun r => cell_eqb k (row_get r "author_name")) rs)).
  { induction rs as [|r rs IH]; simpl; [reflexivity|].
    destruct (cell_eqb k (row_get r "author_name")); simpl; congruence. }
  rewrite Hmap. lia.
Qed.

Lemma get_top_influential_authors_spec_witness :
  exists top,
    get_top_influential_authors sk_sample ex_ml_full 2 = Ok top /\
    columns top = influential_columns /\
    length (rows top) <= 2.
Proof.
  eexists.
  assert (Hrun : get_top_influential_authors sk_sample ex_ml_full 2 = Ok _)
    by (vm_compute; reflexivity).
  split; [exact Hrun|].
  destruct (get_top_influential_authors_spec sk_sample ex_ml_full 2 _ Hrun)
    as (df & _ & _ & Hc & Hl & _).
  split; [exact Hc | exact Hl].
Defined.

(** * The H-index *)

Lemma insert_q_desc_perm (x : Q) (l : list Q) :
  Permutation (insert_q_desc x l) (x :: l).
Proof.
  induction l as [|y l IH]; simpl; [reflexivity|].
  destruct (Qle_bool x y); [|reflexivity].
  rewrite IH. apply perm_swap.
Qed.

Lemma insert_q_desc_sorted (x : Q) (l : list Q) :
  non_increasing l -> non_increasing (insert_q_desc x l).
Proof.
  induction l as [|y l IH]; simpl.
  - intros _. split; [intros ? [] | exact I].
  - intros [Hy Hl]. destruct (Qle_bool x y) eqn:Hxy.
    + apply Qle_bool_iff in Hxy. simpl. split; [|exact (IH Hl)].
      intros z Hz. apply (Permutation_in _ (insert_q_desc_perm x l)) in Hz.
      destruct Hz as [<-|Hz]; [exact Hxy | exact (Hy z Hz)].
    + assert (Hyx : (y <= x)%Q).
      { destruct (Qlt_le_dec y x) as [H|H]; [apply Qlt_le_weak; exact H|].
        apply Qle_bool_iff in H. congruence. }
      simpl. split; [|split; assumption].
      intros z [<-|Hz]; [exact Hyx|]. eapply Qle_trans; [exact (Hy z Hz) | exact Hyx].
Qed.

Lemma sorted_reverse_spec (l : list Q) :
  Permutation (sorted_reverse l) l /\ non_increasing (sorted_reverse l).
Proof.
  unfold sorted_reverse.
  assert (H : forall acc, non_increasing acc ->
    Permutation (fold_left (fun acc x => insert_q_desc x acc) l acc) (l ++ acc) /\
    non_increasing (fold_left (fun acc x => insert_q_desc x acc) l acc)).
  { induction l as [|x l IH]; intros acc Hacc; simpl; [split; [reflexivity | exact Hacc]|].
    destruct (IH (insert_q_desc x acc) (insert_q_desc_sorted x acc Hacc)) as [H1 H2].
    split; [|exact H2]. rewrite H1, insert_q_desc_perm. symmetry. apply Permutation_middle. }
  destruct (H [] I) as [H1 H2]. rewrite app_nil_r in H1. split; assumption.
Qed.

(** The loop on a list in non-increasing order, started at position [i]
    with [h_index = i]. *)
Lemma h_index_loop_spec (l : list Q) (i : nat) :
  non_increasing l ->
  let r := h_index_loop i i l in
  i <= r <= i + length l /\
  (forall c, In c (firstn (r - i) l) -> (inject_Z (Z.of_nat r) <= c)%Q) /\
  (forall k, r < k -> count_at_least k l <= r - i).
Proof.
  revert i. induction l as [|c l IH]; intros i Hs; cbn [h_index_loop].
  - simpl. split; [lia|]. split.
    + rewrite firstn_nil. intros ? [].
    + intros k _. unfold count_at_least. simpl. lia.
  - destruct Hs as [Hc Hs].
    destruct (Qle_bool (inject_Z (Z.of_nat (i + 1))) c) eqn:Hle.
    + apply Qle_bool_iff in Hle. specialize (IH (i + 1) Hs).
      cbv zeta in IH. destruct IH as (Hr & Hfirst & Hcount).
      set (r := h_index_loop (i + 1) (i + 1) l) in *.
      split; [simpl; lia|]. split.
      * replace (r - i) with (S (r - (i + 1))) by lia. cbn [firstn].
        intros x [<-|Hx]; [|exact (Hfirst x Hx)].
        destruct (Nat.eq_dec r (i + 1)) as [->|Hne]; [exact Hle|].
        destruct l as [|c' l'].
        -- simpl in Hr. lia.
        -- assert (Hc' : (inject_Z (Z.of_nat r) <= c')%Q).
           { apply Hfirst. replace (r - (i + 1)) with (S (r - (i + 2))) by lia. now left. }
           eapply Qle_trans; [exact Hc' | apply Hc; now left].
      * intros k Hk. specialize (Hcount k Hk). unfold count_at_least in *.
        cbn [List.filter]. destruct (Qle_bool (inject_Z (Z.of_nat k)) c); simpl; lia.
    + split; [lia|]. split.
      * rewrite Nat.sub_diag. intros ? [].
      * intros k Hk. rewrite Nat.sub_diag.
        assert (Hlt : forall x, (x <= c)%Q -> Qle_bool (inject_Z (Z.of_nat k)) x = false).
        { intros x Hx. destruct (Qle_bool (inject_Z (Z.of_nat k)) x) eqn:Hkx; [|reflexivity].
          apply Qle_bool_iff in Hkx.
          assert (Hik : (inject_Z (Z.of_nat (i + 1)) <= inject_Z (Z.of_nat k))%Q)
            by (rewrite <- Zle_Qle; lia).
          assert (Habs : (inject_Z (Z.of_nat (i + 1)) <= c)%Q).
          { eapply Qle_trans; [exact Hik|]. eapply Qle_trans; eassumption. }
          apply Qle_bool_iff in Habs. congruence. }
        unfold count_at_least. cbn [List.filter].
        rewrite (Hlt c) by apply Qle_refl.
        assert (Hnil : List.filter (fun c0 => Qle_bool (inject_Z (Z.of_nat k)) c0) l = []).
        { clear -Hc Hlt. induction l as [|x l IH]; [reflexivity|]. cbn [List.filter].
          rewrite (Hlt x) by (apply Hc; now left).
          apply IH. intros y Hy. apply Hc. now right. }
        rewrite Hnil. simpl. lia.
Qed.

Lemma count_at_least_firstn (k n : nat) (l : list Q) :
  n <= length l ->
  (forall c, In c (firstn n l) -> (inject_Z (Z.of_nat k) <= c)%Q) ->
  n <= count_at_least k l.
Proof.
  revert n. induction l as [|c l IH]; intros [|n] Hn Hall; simpl in *; try lia.
  unfold count_at_least in *. cbn [List.filter].
  assert (Hc : Qle_bool (inject_Z (Z.of_nat k)) c = true)
    by (apply Qle_bool_iff, Hall; now left).
  rewrite Hc. simpl. apply le_n_S. apply IH; [lia|].
  intros x Hx. apply Hall. now right.
Qed.

Lemma h_index_spec (citations : list Q) :
  let h := calculate_h_index_approx citations in
  h <= length citations /\
  h <= count_at_least h citations /\
  forall k, h < k -> count_at_least k citations < k.
Proof.
  intros h. unfold calculate_h_index_approx in h.
  destruct (Nat.eqb_spec (length citations) 0) as [H0|Hn].
  - subst h. destruct citations; [|discriminate]. simpl.
    split; [lia|]. split; [lia|]. intros k Hk. unfold count_at_least. simpl. exact Hk.
  - destruct (sorted_reverse_spec citations) as [Hperm Hsorted].
    destruct (h_index_loop_spec (sorted_reverse citations) 0 Hsorted) as (Hr & Hfirst & Hcount).
    fold h in Hr, Hfirst, Hcount. rewrite Nat.sub_0_r in Hfirst.
    assert (Hlen : length (sorted_reverse citations) = length citations)
      by (apply Permutation_length; exact Hperm).
    assert (Hcnt : forall k, count_at_least k (sorted_reverse citations)
                             = count_at_least k citations).
    { intros k. unfold count_at_least. apply filter_length_perm. exact Hperm. }
    split; [lia|]. split.
    + rewrite <- Hcnt. apply count_at_least_firstn; [lia | exact Hfirst].
    + intros k Hk. rewrite <- Hcnt. specialize (Hcount k Hk). lia.
Qed.

(** X12: the value returned is the H-index of the citation counts: at
    least that many publications have at least that many citations, and for
    no larger number k are there k publications with at least k citations;
    it never exceeds the number of publications. *)
Theorem h_index_characterised (citations : list Q) :
  let h := calculate_h_index_approx citations in
  h <= length citations /\
  h <= count_at_least h citations /\
  forall k, h < k -> count_at_least k citations < k.
Proof. exact (h_index_spec citations). Qed.

Lemma count_at_least_antitone (k k' : nat) (l : list Q) :
  k <= k' -> count_at_least k' l <= count_at_least k l.
Proof.
  intros Hk. unfold count_at_least. induction l as [|c l IH]; simpl; [lia|].
  destruct (Qle_bool (inject_Z (Z.of_nat k')) c) eqn:H'.
  - assert (H : Qle_bool (inject_Z (Z.of_nat k)) c = true).
    { apply Qle_bool_iff. apply Qle_bool_iff in H'.
      eapply Qle_trans; [|exact H']. rewrite <- Zle_Qle. lia. }
    rewrite H. simpl. lia.
  - destruct (Qle_bool (inject_Z (Z.of_nat k)) c); simpl; lia.
Qed.

Lemma count_at_least_cons (k : nat) (c : Q) (l : list Q) :
  count_at_least k l <= count_at_least k (c :: l) <= count_at_least k l + 1.
Proof.
  unfold count_at_least. cbn [List.filter].
  destruct (Qle_bool (inject_Z (Z.of_nat k)) c); simpl; lia.
Qed.

Lemma h_index_unique (l l' : list Q) (h h' : nat) :
  (forall k, count_at_least k l = count_at_least k l') ->
  h <= count_at_least h l -> (forall k, h < k -> count_at_least k l < k) ->
  h' <= count_at_least h' l' -> (forall k, h' < k -> count_at_least k l' < k) ->
  h = h'.
Proof.
  intros Hc H1 H2 H1' H2'.
  destruct (Nat.lt_trichotomy h h') as [Hlt|[He|Hgt]]; [|exact He|].
  - specialize (H2 h' Hlt). rewrite Hc in H2. lia.
  - specialize (H2' h Hgt). rewrite <- Hc in H2'. lia.
Qed.

(** X20: the H-index does not depend on the order of the publications, and
    one more publication never lowers it and raises it by at most one. *)
Theorem h_index_order_and_growth (citations citations' : list Q) (c : Q) :
  Permutation citations citations' ->
  calculate_h_index_approx citations' = calculate_h_index_approx citations /\
  calculate_h_index_approx citations
  <= calculate_h_index_approx (c :: citations')
  <= calculate_h_index_approx citations + 1.
Proof.
  intros Hp.
  destruct (h_index_spec citations) as (_ & H1 & H2).
  destruct (h_index_spec citations') as (_ & H1' & H2').
  destruct (h_index_spec (c :: citations')) as (_ & H1c & H2c).
  cbv zeta in H1, H2, H1', H2', H1c, H2c.
  assert (Hc : forall k, count_at_least k citations = count_at_least k citations')
    by (intros k; unfold count_at_least; apply filter_length_perm; exact Hp).
  set (h := calculate_h_index_approx citations) in *.
  set (h' := calculate_h_index_approx citations') in *.
  set (h1 := calculate_h_index_approx (c :: citations')) in *.
  split; [symmetry; exact (h_index_unique _ _ h h' Hc H1 H2 H1' H2')|].
  split.
  - destruct (Nat.le_gt_cases h h1) as [Hle|Hgt]; [exact Hle|].
    specialize (H2c h Hgt).
    pose proof (count_at_least_cons h c citations') as Hcons.
    rewrite <- Hc in Hcons. lia.
  - destruct (Nat.le_gt_cases h1 (h + 1)) as [Hle|Hgt]; [exact Hle|].
    assert (Hk : h < h1 - 1) by lia.
    specialize (H2 (h1 - 1) Hk).
    pose proof (count_at_least_antitone (h1 - 1) h1 citations ltac:(lia)) as Ha.
    pose proof (count_at_least_cons h1 c citations') as Hcons.
    rewrite <- Hc in Hcons. lia.
Qed.

Lemma h_index_order_and_growth_witness :
  calculate_h_index_approx [5; 1; 3]%Q = calculate_h_index_approx [1; 3; 5]%Q /\
  calculate_h_index_approx [1; 3; 5]%Q
  <= calculate_h_index_approx [4; 5; 1; 3]%Q
  <= calculate_h_index_approx [1; 3; 5]%Q + 1.
Proof.
  apply (h_index_order_and_growth [1; 3; 5]%Q [5; 1; 3]%Q 4%Q).
  change [5; 1; 3]%Q with ([5%Q] ++ [1; 3]%Q).
  change [1; 3; 5]%Q with ([1; 3]%Q ++ [5%Q]).
  apply Permutation_app_comm.
Defined.

(** * Author names *)

Lemma isspace_lower (c : ascii) : PyStr.isspace (PyStr.lower_ascii c) = PyStr.isspace c.
Proof. destruct c as [[] [] [] [] [] [] [] []]; reflexivity. Qed.

Lemma lower_ascii_idem (c : ascii) :
  PyStr.lower_ascii (PyStr.lower_ascii c) = PyStr.lower_ascii c.
Proof. destruct c as [[] [] [] [] [] [] [] []]; reflexivity. Qed.

Lemma lower_ascii_space (c : ascii) :
  PyStr.isspace c = true -> PyStr.lower_ascii c = c.
Proof. destruct c as [[] [] [] [] [] [] [] []]; intros H; try reflexivity; discriminate H. Qed.

Lemma space_isspace (c : ascii) : Ascii.eqb c " " = true -> PyStr.isspace c = true.
Proof. intros H. apply Ascii.eqb_eq in H. subst c. reflexivity. Qed.

Lemma lower_idem (s : string) : PyStr.lower (PyStr.lower s) = PyStr.lower s.
Proof.
  induction s as [|c r IH]; simpl; [reflexivity|].
  rewrite lower_ascii_idem, IH. reflexivity.
Qed.

Lemma lower_lstrip (s : string) :
  PyStr.lstrip (PyStr.lower s) = PyStr.lower (PyStr.lstrip s).
Proof.
  induction s as [|c r IH]; simpl; [reflexivity|].
  rewrite isspace_lower. destruct (PyStr.isspace c); [exact IH | reflexivity].
Qed.

Lemma lower_rstrip (s : string) :
  PyStr.rstrip (PyStr.lower s) = PyStr.lower (PyStr.rstrip s).
Proof.
  induction s as [|c r IH]; simpl; [reflexivity|].
  rewrite IH, isspace_lower. destruct (PyStr.rstrip r) as [|d r']; simpl.
  - destruct (PyStr.isspace c); reflexivity.
  - reflexivity.
Qed.

Lemma lower_collapse (b : bool) (s : string) :
  PyStr.collapse_from b (PyStr.lower s) = PyStr.lower (PyStr.collapse_from b s).
Proof.
  revert b. induction s as [|c r IH]; intros b; simpl; [reflexivity|].
  rewrite isspace_lower. destruct (PyStr.isspace c).
  - destruct b; simpl; rewrite IH; reflexivity.
  - simpl. rewrite IH. reflexivity.
Qed.

Lemma normalize_author_name_lower (s : string) :
  PyStr.lower (normalize_author_name s) = normalize_author_name s.
Proof.
  unfold normalize_author_name, PyStr.collapse_ws, PyStr.strip.
  rewrite lower_lstrip, lower_rstrip, lower_collapse. apply lower_idem.
Qed.

Lemma rstrip_idem (s : string) : PyStr.rstrip (PyStr.rstrip s) = PyStr.rstrip s.
Proof.
  induction s as [|c r IH]; simpl; [reflexivity|].
  destruct (PyStr.rstrip r) as [|d r'] eqn:Hr.
  - destruct (PyStr.isspace c) eqn:Hc; simpl; [reflexivity|]. rewrite Hc. reflexivity.
  - change (PyStr.rstrip (String c (String d r')))
      with (match PyStr.rstrip (String d r') with
            | EmptyString => if PyStr.isspace c then EmptyString else String c EmptyString
            | r0 => String c r0
            end).
    rewrite IH. reflexivity.
Qed.

Lemma lstrip_head (s : string) (c : ascii) (r : string) :
  PyStr.lstrip s = String c r -> PyStr.isspace c = false.
Proof.
  induction s as [|d s IH]; simpl; [discriminate|].
  destruct (PyStr.isspace d) eqn:Hd; [exact IH|]. intros [= <- _]. exact Hd.
Qed.

Lemma rstrip_head (t : string) (c : ascii) (r : string) :
  PyStr.rstrip t = String c r -> exists r0, t = String c r0.
Proof.
  destruct t as [|d t]; simpl; [discriminate|].
  destruct (PyStr.rstrip t).
  - destruct (PyStr.isspace d); [discriminate|]. intros [= <- _]. eauto.
  - intros [= <- _]. eauto.
Qed.

Lemma strip_head (s : string) (c : ascii) (r : string) :
  PyStr.strip s = String c r -> PyStr.isspace c = false.
Proof.
  unfold PyStr.strip. intros H. destruct (rstrip_head _ _ _ H) as [r0 H0].
  exact (lstrip_head _ _ _ H0).
Qed.

Lemma rstrip_fixed_tail (c : ascii) (r : string) :
  PyStr.rstrip (String c r) = String c r ->
  (r = EmptyString /\ PyStr.isspace c = false) \/
  (r <> EmptyString /\ PyStr.rstrip r = r).
Proof.
  simpl. destruct (PyStr.rstrip r) as [|d r'] eqn:Hr.
  - destruct (PyStr.isspace c); [discriminate|]. intros [= <-]. left. split; reflexivity.
  - intros [= <-]. right. split; [discriminate | reflexivity].
Qed.

Lemma collapse_well_spaced (u : string) (b : bool) :
  PyStr.rstrip u = u -> u <> EmptyString ->
  well_spaced_from b (PyStr.collapse_from b u) = true.
Proof.
  revert b. induction u as [|c r IH]; intros b Hfix Hne; [congruence|].
  destruct (rstrip_fixed_tail c r Hfix) as [[-> Hc] | [Hr Hfr]].
  - simpl. rewrite Hc. simpl. rewrite Hc. reflexivity.
  - simpl. destruct (PyStr.isspace c) eqn:Hc.
    + destruct b.
      * apply IH; assumption.
      * simpl. apply IH; assumption.
    + simpl. rewrite Hc. apply IH; assumption.
Qed.

Lemma well_spaced_weaken (t : string) :
  well_spaced_from true t = true -> well_spaced_from false t = true.
Proof.
  destruct t as [|c r]; simpl; [discriminate|].
  destruct (PyStr.isspace c); [|tauto].
  rewrite andb_false_r. discriminate.
Qed.

Lemma well_spaced_rstrip (t : string) (b : bool) :
  well_spaced_from b t = true -> PyStr.rstrip t = t.
Proof.
  revert b. induction t as [|c r IH]; intros b; simpl; [reflexivity|].
  destruct (PyStr.isspace c) eqn:Hc.
  - intros H. apply andb_prop in H as [_ H]. rewrite (IH true H).
    destruct r; [discriminate H | reflexivity].
  - intros H. rewrite (IH false H). destruct r; reflexivity.
Qed.

Lemma well_spaced_collapse (t : string) (b : bool) :
  well_spaced_from b t = true -> PyStr.collapse_from b t = t.
Proof.
  revert b. induction t as [|c r IH]; intros b; simpl; [reflexivity|].
  destruct (PyStr.isspace c) eqn:Hc.
  - intros H. apply andb_prop in H as [H H3]. apply andb_prop in H as [H1 H2].
    apply Ascii.eqb_eq in H1. subst c. destruct b; [discriminate H2|].
    rewrite (IH true H3). reflexivity.
  - intros H. rewrite (IH false H). reflexivity.
Qed.

Lemma normalize_author_name_tidy (s : string) :
  tidy_name (normalize_author_name s) = true.
Proof.
  unfold tidy_name. rewrite normalize_author_name_lower, String.eqb_refl.
  cbn [andb]. unfold normalize_author_name, PyStr.collapse_ws.
  assert (Hfix : PyStr.rstrip (PyStr.strip (PyStr.lower s)) = PyStr.strip (PyStr.lower s))
    by (unfold PyStr.strip; apply rstrip_idem).
  destruct (PyStr.strip (PyStr.lower s)) as [|c r] eqn:Hu; [reflexivity|].
  pose proof (strip_head _ _ _ Hu) as Hc.
  pose proof (collapse_well_spaced (String c r) false Hfix ltac:(discriminate)) as H.
  simpl in H |- *. rewrite Hc in H |- *. simpl in H |- *. rewrite Hc in H |- *. exact H.
Qed.

Lemma tidy_name_fixed (t : string) :
  tidy_name t = true -> normalize_author_name t = t.
Proof.
  unfold tidy_name. intros H. apply andb_prop in H as [Hl Hw].
  apply String.eqb_eq in Hl. unfold normalize_author_name. rewrite Hl.
  destruct t as [|c r]; [reflexivity|].
  assert (Hc : PyStr.isspace c = false).
  { simpl in Hw. destruct (PyStr.isspace c); [|reflexivity].
    rewrite andb_false_r in Hw. discriminate. }
  assert (Hs : PyStr.strip (String c r) = String c r).
  { unfold PyStr.strip. cbn [PyStr.lstrip]. rewrite Hc.
    exact (well_spaced_rstrip _ _ Hw). }
  rewrite Hs. unfold PyStr.collapse_ws.
  apply well_spaced_collapse, well_spaced_weaken, Hw.
Qed.

(** X13: [normalize_author_names] maps every name to a tidy one (lower
    case, words separated by single spaces, no whitespace around them);
    normalising twice changes nothing, and the names it leaves as they are
    are exactly the tidy ones. *)
Theorem normalize_author_name_canonical (s : string) :
  tidy_name (normalize_author_name s) = true /\
  normalize_author_name (normalize_author_name s) = normalize_author_name s /\
  (normalize_author_name s = s <-> tidy_name s = true).
Proof.
  split; [apply normalize_author_name_tidy|]. split.
  - apply tidy_name_fixed, normalize_author_name_tidy.
  - split.
    + intros H. rewrite <- H. apply normalize_author_name_tidy.
    + apply tidy_name_fixed.
Qed.

Lemma collapse_true_head (x : string) (d : ascii) (y : string) :
  PyStr.collapse_from true x = String d y -> PyStr.isspace d = false.
Proof.
  induction x as [|c r IH]; simpl; [discriminate|].
  destruct (PyStr.isspace c) eqn:Hc; [exact IH|]. intros [= <- _]. exact Hc.
Qed.

Lemma replace_2sp_head (c : ascii) (r : string) :
  PyStr.isspace c = true ->
  exists d y, PyStr.replace_2sp (String c r) = String d y /\ PyStr.isspace d = true.
Proof.
  intros Hc. destruct r as [|c' r']; simpl; [eauto|].
  destruct (Ascii.eqb c " " && Ascii.eqb c' " ")%bool; eauto.
Qed.

Lemma replace_2sp_other (c : ascii) (r : string) :
  Ascii.eqb c " " = false ->
  PyStr.replace_2sp (String c r) = String c (PyStr.replace_2sp r).
Proof.
  intros Hc. destruct r as [|c' r']; [reflexivity|].
  cbn [PyStr.replace_2sp]. rewrite Hc. reflexivity.
Qed.

(** After a space: the two passes agree on [r] only when [r] does not
    start with whitespace. *)
Lemma replace_collapse_after_space (r : string) :
  PyStr.replace_2sp r = PyStr.collapse_from true r <->
  match r with
  | EmptyString => True
  | String c _ => PyStr.isspace c = false /\
                  PyStr.replace_2sp r = PyStr.collapse_from false r
  end.
Proof.
  destruct r as [|c r']; [simpl; tauto|].
  destruct (PyStr.isspace c) eqn:Hc.
  - split; [|intros [? _]; discriminate].
    intros H. destruct (replace_2sp_head c r' Hc) as (d & y & Hd & Hsp).
    rewrite Hd in H. symmetry in H. apply collapse_true_head in H. congruence.
  - assert (Heq : PyStr.collapse_from true (String c r')
                  = PyStr.collapse_from false (String c r'))
      by (simpl; rewrite Hc; reflexivity).
    rewrite Heq. tauto.
Qed.

Lemma short_runs_reset (k : nat) (c : ascii) (r : string) :
  Ascii.eqb c " " = false ->
  short_runs_from k (String c r) = short_runs_from 0 (String c r).
Proof. intros H. simpl. rewrite H. reflexivity. Qed.

Lemma replace_collapse_agree (n : nat) (u : string) :
  String.length u <= n ->
  (PyStr.replace_2sp u = PyStr.collapse_from false u <-> short_runs_from 0 u = true).
Proof.
  revert u. induction n as [|n IH]; intros u Hn.
  { destruct u; [simpl; tauto | simpl in Hn; lia]. }
  destruct u as [|c r]; [simpl; tauto|]. simpl in Hn.
  destruct (Ascii.eqb c " ") eqn:Hc.
  - apply Ascii.eqb_eq in Hc. subst c.
    destruct r as [|c' r']; [simpl; tauto|]. simpl in Hn.
    destruct (Ascii.eqb c' " ") eqn:Hc'.
    + apply Ascii.eqb_eq in Hc'. subst c'.
      change (PyStr.replace_2sp (String " " (String " " r')))
        with (String " " (PyStr.replace_2sp r')).
      change (PyStr.collapse_from false (String " " (String " " r')))
        with (String " " (PyStr.collapse_from true r')).
      change (short_runs_from 0 (String " " (String " " r')))
        with (short_runs_from 2 r').
      assert (Hinj : String " " (PyStr.replace_2sp r') = String " " (PyStr.collapse_from true r')
                     <-> PyStr.replace_2sp r' = PyStr.collapse_from true r')
        by (split; [intros [= H]; exact H | intros ->; reflexivity]).
      rewrite Hinj, replace_collapse_after_space.
      destruct r' as [|c'' r'']; [simpl; tauto|].
      destruct (Ascii.eqb c'' " ") eqn:Hc''.
      * rewrite (space_isspace _ Hc''). simpl. rewrite Hc''. simpl.
        split; [intros [? _]; discriminate | discriminate].
      * rewrite (short_runs_reset 2 c'' r'' Hc'').
        rewrite (IH (String c'' r'')) by (simpl in *; lia).
        simpl. rewrite Hc''. destruct (PyStr.isspace c''); simpl; [|tauto].
        split; [intros [? _]; discriminate | discriminate].
    + assert (Hrep : PyStr.replace_2sp (String " " (String c' r'))
                     = String " " (PyStr.replace_2sp (String c' r'))).
      { cbn [PyStr.replace_2sp]. rewrite Hc'. reflexivity. }
      rewrite Hrep.
      change (PyStr.collapse_from false (String " " (String c' r')))
        with (String " " (PyStr.collapse_from true (String c' r'))).
      change (short_runs_from 0 (String " " (String c' r')))
        with (short_runs_from 1 (String c' r')).
      assert (Hinj : String " " (PyStr.replace_2sp (String c' r'))
                     = String " " (PyStr.collapse_from true (String c' r'))
                     <-> PyStr.replace_2sp (String c' r')
                         = PyStr.collapse_from true (String c' r'))
        by (split; [intros [= H]; exact H | intros ->; reflexivity]).
      rewrite Hinj, replace_collapse_after_space.
      rewrite (short_runs_reset 1 c' r' Hc').
      rewrite (IH (String c' r')) by (simpl; lia).
      simpl. rewrite Hc'. destruct (PyStr.isspace c'); simpl; [|tauto].
      split; [intros [? _]; discriminate | discriminate].
  - rewrite (replace_2sp_other c r Hc).
    cbn [PyStr.collapse_from short_runs_from]. rewrite Hc.
    destruct (PyStr.isspace c) eqn:Hsp.
    + simpl. split; [|discriminate]. intros [= H _]. subst c. discriminate Hc.
    + simpl. rewrite <- (IH r) by lia.
      split; [intros [= H]; exact H | intros ->; reflexivity].
Qed.

(** X14: the name the graph builder uses for an author and the name
    [normalize_author_names] gives the same author are equal exactly when
    the lower-cased, stripped name has no whitespace but spaces and never
    three spaces in a row. *)
Theorem normalizations_agree (s : string) :
  normalize s = normalize_author_name s <->
  short_runs_from 0 (PyStr.strip (PyStr.lower s)) = true.
Proof.
  unfold normalize, normalize_author_name, PyStr.collapse_ws.
  apply (replace_collapse_agree (String.length (PyStr.strip (PyStr.lower s)))).
  apply Nat.le_refl.
Qed.

(** * Author records *)

Lemma fold_snoc_map {A B : Type} (f : A -> B) (l : list A) (acc : list B) :
  fold_left (fun acc a => acc ++ [f a]) l acc = acc ++ map f l.
Proof.
  revert acc. induction l as [|a l IH]; intros acc; simpl.
  - rewrite app_nil_r. reflexivity.
  - rewrite IH, <- app_assoc. reflexivity.
Qed.

Lemma extract_row_app (acc : list row) (r : cleaned_row) :
  extract_row acc r = acc ++ map (author_record r) (row_authors r).
Proof.
  unfold extract_row. destruct (row_authors r) as [|a l] eqn:Ha.
  - rewrite app_nil_r. reflexivity.
  - apply fold_snoc_map.
Qed.

Lemma extract_rows_flat (processed : list cleaned_row) (acc : list row) :
  fold_left extract_row processed acc
  = acc ++ flat_map (fun r => map (author_record r) (row_authors r)) processed.
Proof.
  revert acc. induction processed as [|r l IH]; intros acc; simpl.
  - rewrite app_nil_r. reflexivity.
  - rewrite IH, extract_row_app, <- app_assoc. reflexivity.
Qed.

Lemma author_records_frame (rec : list row) :
  rec <> [] ->
  (forall x, In x rec -> exists r a, x = author_record r a) ->
  DataFrame_of_records rec
  = {| columns := ["author_name"; "publication_title"; "citation_count"; "abstract"];
       rows := rec |}.
Proof.
  intros Hne Hall. unfold DataFrame_of_records.
  assert (Hcols : fold_left add_keys rec []
                  = ["author_name"; "publication_title"; "citation_count"; "abstract"]).
  { destruct rec as [|x rec]; [congruence|]. cbn [fold_left].
    destruct (Hall x (or_introl eq_refl)) as (r & a & ->).
    change (add_keys [] (author_record r a))
      with ["author_name"; "publication_title"; "citation_count"; "abstract"].
    assert (Hrest : forall y, In y rec -> exists r a, y = author_record r a)
      by (intros y Hy; apply Hall; now right).
    clear Hall Hne. induction rec as [|y rec IH]; [reflexivity|]. cbn [fold_left].
    destruct (Hrest y (or_introl eq_refl)) as (r' & a' & ->).
    rewrite add_keys_known; [apply IH; intros z Hz; apply Hrest; now right|].
    intros k Hk. exact Hk. }
  rewrite Hcols. f_equal. rewrite <- (map_id rec) at 2.
  apply map_ext_in. intros x Hx. destruct (Hall x Hx) as (r & a & ->). reflexivity.
Qed.

Lemma str_map_strings (f : string -> string) (l : list string) :
  l <> [] -> str_map f (map VStr l) = Ok (map VStr (map f l)).
Proof.
  intros Hne. unfold str_map. destruct l as [|a l]; [congruence|].
  cbn [map existsb is_str_cell orb negb andb].
  rewrite andb_false_r. rewrite !map_map. reflexivity.
Qed.

Lemma flat_map_map_inner {A B C : Type} (f : A -> list B) (g : A -> B -> C) (l : list A) :
  flat_map (fun x => map (g x) (f x)) l
  = map (fun p => g (fst p) (snd p)) (flat_map (fun x => map (pair x) (f x)) l).
Proof.
  induction l as [|x l IH]; simpl; [reflexivity|].
  rewrite map_app, map_map, IH. reflexivity.
Qed.

Lemma flat_map_snd_pairs {A B : Type} (f : A -> list B) (l : list A) :
  flat_map f l = map snd (flat_map (fun x => map (pair x) (f x)) l).
Proof.
  induction l as [|x l IH]; simpl; [reflexivity|].
  rewrite map_app, map_map, IH. simpl. rewrite map_id. reflexivity.
Qed.

(** X15: [extract_authors] followed by [normalize_author_names].  When no
    cleaned publication has an author the frame of author records has no
    columns and the normalisation raises [KeyError('author_name')];
    otherwise the result has one row per author of each publication, in
    order, holding the author, the publication's title, citation count and
    abstract, and the normalised name in the new last column. *)
Theorem extract_then_normalize (processed : list cleaned_row) :
  normalize_author_names (extract_authors processed)
  = match flat_map row_authors processed with
    | [] => Raise (KeyError "author_name")
    | _ :: _ =>
        Ok {| columns := ["author_name"; "publication_title"; "citation_count";
                          "abstract"; "author_normalized"];
              rows := flat_map
                        (fun r =>
                           map (fun a => author_record r a
                                         ++ [("author_normalized",
                                              VStr (normalize_author_name a))])
                               (row_authors r))
                        processed |}
    end.
Proof.
  unfold extract_authors. rewrite extract_rows_flat. cbn [app].
  rewrite (flat_map_map_inner row_authors author_record).
  rewrite (flat_map_map_inner row_authors
             (fun r a => author_record r a
                         ++ [("author_normalized", VStr (normalize_author_name a))])).
  rewrite (flat_map_snd_pairs row_authors).
  set (pairs := flat_map (fun x => map (pair x) (row_authors x)) processed).
  destruct pairs as [|p0 ps] eqn:Hp; [reflexivity|].
  rewrite <- Hp. assert (Hne : pairs <> []) by (rewrite Hp; discriminate).
  clearbody pairs. clear Hp. cbn [map].
  rewrite author_records_frame.
  2:{ destruct pairs; [congruence | discriminate]. }
  2:{ intros x Hx. apply in_map_iff in Hx as (p & <- & _). eauto. }
  unfold normalize_author_names.
  assert (Hnames : get_column
            {| columns := ["author_name"; "publication_title"; "citation_count"; "abstract"];
               rows := map (fun p => author_record (fst p) (snd p)) pairs |} "author_name"
          = Ok (map VStr (map snd pairs))).
  { unfold get_column. cbn [rows]. rewrite !map_map. reflexivity. }
  rewrite Hnames. cbn [mbind exc_bind].
  assert (Hsn : map snd pairs <> []) by (destruct pairs; [congruence | discriminate]).
  rewrite str_map_strings by exact Hsn. cbn [mbind exc_bind].
  rewrite str_map_strings by (destruct (map snd pairs); [congruence | discriminate]).
  cbn [mbind exc_bind].
  set (stripped := map VStr (map PyStr.strip (map PyStr.lower (map snd pairs)))).
  assert (Hdf1 : set_column
            {| columns := ["author_name"; "publication_title"; "citation_count"; "abstract"];
               rows := map (fun p => author_record (fst p) (snd p)) pairs |}
            "author_normalized" stripped
          = {| columns := ["author_name"; "publication_title"; "citation_count";
                           "abstract"; "author_normalized"];
               rows := map (fun p => author_record (fst p) (snd p)
                                     ++ [("author_normalized",
                                          VStr (PyStr.strip (PyStr.lower (snd p))))])
                           pairs |}).
  { unfold set_column, stripped. cbn [rows columns]. f_equal.
    rewrite !map_map. rewrite combine_map_same, map_map. reflexivity. }
  rewrite Hdf1.
  assert (Hcol : get_column
            {| columns := ["author_name"; "publication_title"; "citation_count";
                           "abstract"; "author_normalized"];
               rows := map (fun p => author_record (fst p) (snd p)
                                     ++ [("author_normalized",
                                          VStr (PyStr.strip (PyStr.lower (snd p))))])
                           pairs |} "author_normalized"
          = Ok (map VStr (map (fun p => PyStr.strip (PyStr.lower (snd p))) pairs))).
  { unfold get_column. cbn [rows]. rewrite !map_map. reflexivity. }
  rewrite Hcol. cbn [mbind exc_bind].
  rewrite str_map_strings by (destruct pairs; [congruence | discriminate]).
  cbn [mbind exc_bind].
  assert (Hm : forall X Y : exc DataFrame,
            match map snd pairs with [] => X | _ :: _ => Y end = Y)
    by (intros X Y; destruct pairs; [congruence | reflexivity]).
  rewrite Hm. f_equal.
  unfold set_column. cbn [rows columns]. f_equal.
  rewrite !map_map. rewrite combine_map_same, map_map. reflexivity.
Qed.

(** * The most cited authors *)

Lemma nlargest_of_unique (df u top : DataFrame) (n : nat) (c : string) :
  drop_duplicates df "author_name" = Ok u ->
  nlargest u n c = Ok top ->
  has_col df "author_name" = true /\
  has_col df c = true /\
  columns top = columns df /\
  length (rows top) <= n /\
  cells_descending (keys_of c (rows top)) /\
  (forall r, In r (rows top) -> In r (rows df)) /\
  forall k, length (List.filter (fun key => cell_eqb k key) (author_keys top)) <= 1.
Proof.
  intros Hu Ht.
  pose proof (drop_duplicates_distinct df u "author_name" Hu) as Hd.
  destruct (nlargest_spec u top n c Ht) as (H1 & H2 & H3 & rest & H4 & _).
  unfold drop_duplicates in Hu.
  destruct (has_col df "author_name") eqn:Ha; [|discriminate].
  injection Hu as <-. cbn [columns rows] in *.
  split; [reflexivity|]. split.
  { unfold nlargest in Ht. cbn [columns rows] in Ht. unfold has_col in *.
    cbn [columns] in Ht. destruct (existsb (String.eqb c) (columns df)); [reflexivity|].
    discriminate Ht. }
  split; [exact H1|]. split; [rewrite H2; apply Nat.le_min_l|]. split; [exact H3|]. split.
  { intros r Hr. apply (dedup_rows_incl "author_name" (rows df) [] r).
    apply (Permutation_in r H4). apply in_or_app. now left. }
  intros k.
  pose proof (filter_distinct_le1 "author_name" k _ [] Hd) as Hle.
  rewrite <- (filter_length_perm _ _ _ H4), List.filter_app, length_app in Hle.
  unfold author_keys, keys_of.
  assert (Hmap : forall rs : list row,
            length (List.filter (fun key => cell_eqb k key)
                      (map (fun r => row_get r "author_name") rs))
            = length (List.filter (fun r => cell_eqb k (row_get r "author_name")) rs)).
  { induction rs as [|r rs IH]; simpl; [reflexivity|].
    destruct (cell_eqb k (row_get r "author_name")); simpl; congruence. }
  rewrite Hmap. lia.
Qed.

(** X16: when [get_top_authors] returns, the table has the columns of its
    argument and at most [top_n] of its rows, no two of them for the same
    author, in descending order of the criterion; a criterion other than
    ['publication_count'] and ['h_index_approx'] is read as
    ['total_citations'], whatever it is. *)
Theorem get_top_authors_spec (authors_df top : DataFrame) (top_n : nat) (by_ : string) :
  get_top_authors authors_df top_n by_ = Ok top ->
  let c := if (String.eqb by_ "publication_count" || String.eqb by_ "h_index_approx")%bool
           then by_ else "total_citations" in
  has_col authors_df "author_name" = true /\
  has_col authors_df c = true /\
  columns top = columns authors_df /\
  length (rows top) <= top_n /\
  cells_descending (keys_of c (rows top)) /\
  (forall r, In r (rows top) -> In r (rows authors_df)) /\
  forall k, length (List.filter (fun key => cell_eqb k key) (author_keys top)) <= 1.
Proof.
  unfold get_top_authors. intros H.
  destruct (drop_duplicates authors_df "author_name") as [u|] eqn:Hu;
    cbn [mbind exc_bind] in H; [|discriminate].
  destruct (String.eqb_spec by_ "total_citations") as [->|H1].
  { exact (nlargest_of_unique authors_df u top top_n _ Hu H). }
  destruct (String.eqb_spec by_ "publication_count") as [->|H2].
  { exact (nlargest_of_unique authors_df u top top_n _ Hu H). }
  destruct (String.eqb_spec by_ "h_index_approx") as [->|H3].
  { exact (nlargest_of_unique authors_df u top top_n _ Hu H). }
  exact (nlargest_of_unique authors_df u top top_n _ Hu H).
Qed.

Lemma get_top_authors_spec_witness :
  exists top,
    get_top_authors ex_stats 2 "citations" = Ok top /\
    length (rows top) <= 2 /\
    cells_descending (keys_of "total_citations" (rows top)).
Proof.
  eexists.
  assert (Hrun : get_top_authors ex_stats 2 "citations" = Ok _)
    by (vm_compute; reflexivity).
  split; [exact Hrun|].
  destruct (get_top_authors_spec ex_stats _ 2 "citations" Hrun)
    as (_ & _ & _ & Hl & Hd & _).
  split; [exact Hl | exact Hd].
Defined.

(** * The report of the citation models *)

Lemma exc_map_length {A B : Type} (f : A -> exc B) (l : list A) (bs : list B) :
  exc_map f l = Ok bs -> length bs = length l.
Proof.
  revert bs. induction l as [|a l IH]; intros bs; simpl.
  - intros [= <-]. reflexivity.
  - destruct (f a) as [b|]; cbn [mbind exc_bind]; [|discriminate].
    destruct (exc_map f l) as [bs'|]; cbn [mbind exc_bind]; [|discriminate].
    intros [= <-]. simpl. f_equal. apply IH. reflexivity.
Qed.

Lemma train_one_known (sk : sklearn_routines) (Xtr : list (list Q))
    (y_train : exc (list Q)) (Xte : list (list Q)) (y_test : exc (list Q))
    (name : string) (y_pred : list Q) (res : model_result) :
  train_one sk Xtr y_train Xte y_test name = Trained y_pred res ->
  In name ["rf"; "lgbm"; "dt"; "svm"] /\
  (name = "lgbm" -> LIGHTGBM_AVAILABLE sk = true).
Proof.
  unfold train_one.
  destruct (String.eqb_spec name "rf") as [->|H1].
  { intros _. split; [now left | discriminate]. }
  destruct (String.eqb_spec name "lgbm") as [->|H2].
  { cbn [orb negb andb]. destruct (LIGHTGBM_AVAILABLE sk); cbn [negb]; [|discriminate].
    intros _. split; [right; now left | reflexivity]. }
  destruct (String.eqb_spec name "dt") as [->|H3].
  { intros _. split; [do 2 right; now left | discriminate]. }
  destruct (String.eqb_spec name "svm") as [->|H4].
  { intros _. split; [do 3 right; now left | discriminate]. }
  cbn [orb negb]. discriminate.
Qed.

Lemma train_one_length (sk : sklearn_routines) (Xtr : list (list Q))
    (y_train : exc (list Q)) (Xte : list (list Q)) (y_test : exc (list Q))
    (name : string) (y_pred : list Q) (res : model_result) :
  train_one sk Xtr y_train Xte y_test name = Trained y_pred res ->
  exists yte, y_test = Ok yte /\ length y_pred = length yte.
Proof.
  intros H. destruct (train_one_trained _ _ _ _ _ _ _ _ H) as (yte & mse & Hy & Hr2 & _).
  exists yte. split; [exact Hy|].
  unfold r2_score in Hr2.
  destruct (Nat.eqb_spec (length yte) (length y_pred)) as [He|Hne]; [lia|].
  discriminate Hr2.
Qed.

(** The two dicts the model loop fills have the same keys, and every
    prediction kept is the one of a model that trained. *)
Lemma train_all_predictions (sk : sklearn_routines) (Xtr : list (list Q))
    (y_train : exc (list Q)) (Xte : list (list Q)) (y_test : exc (list Q))
    (models : list string) :
  let st := train_all sk Xtr y_train Xte y_test models in
  map fst (snd st) = map fst (fst st) /\
  forall kv, In kv (snd st) ->
    exists res, train_one sk Xtr y_train Xte y_test (fst kv) = Trained (snd kv) res.
Proof.
  unfold train_all.
  assert (H : forall st : list (string * model_result) * list (string * list Q),
    (map fst (snd st) = map fst (fst st) /\
     forall kv, In kv (snd st) ->
       exists res, train_one sk Xtr y_train Xte y_test (fst kv) = Trained (snd kv) res) ->
    let st' := fold_left
      (fun (st : list (string * model_result) * list (string * list Q)) name =>
         match train_one sk Xtr y_train Xte y_test name with
         | Trained y_pred res => (dict_set (fst st) name res, dict_set (snd st) name y_pred)
         | Skipped => st
         end) models st in
    map fst (snd st') = map fst (fst st') /\
    forall kv, In kv (snd st') ->
      exists res, train_one sk Xtr y_train Xte y_test (fst kv) = Trained (snd kv) res).
  { induction models as [|m ms IH]; intros st Hst; cbn [fold_left]; [exact Hst|].
    apply IH. destruct Hst as [H1 H2].
    destruct (train_one sk Xtr y_train Xte y_test m) as [yp r|] eqn:Ht; [|split; assumption].
    cbn [fst snd]. split.
    - rewrite !dict_set_keys, H1. reflexivity.
    - intros kv Hkv. apply dict_set_in in Hkv as [->|Hkv]; [eauto | auto]. }
  apply (H ([], [])). split; [reflexivity | intros ? []].
Qed.

Lemma predict_citations_parts (sk : sklearn_routines) (self : MLAnalyzer)
    (test_size : Q) (models : option (list string)) (report : prediction_report) :
  predict_citations sk self test_size models = Ok report ->
  exists Xtr y_train Xte y_test df,
    let trained := train_all sk Xtr y_train Xte y_test
                     (match models with None => default_models | Some l => l end) in
    results report = fst trained /\
    predictions report = snd trained /\
    (forall yte, y_test = Ok yte -> length yte = length (actual report)) /\
    feature_names report
    = List.filter (fun c => negb (String.eqb c "author_name"
                                  || String.eqb c "total_citations"
                                  || String.eqb c "impact_score")%bool) (columns df).
Proof.
  unfold predict_citations. intros H.
  destruct (ensure_features self) as [df|]; cbn [mbind exc_bind] in H; [|discriminate H].
  repeat match type of H with
         | mbind _ ?m = Ok _ =>
             destruct m; cbn [mbind exc_bind] in H; [|discriminate H]
         end.
  injection H as <-. cbn [results predictions actual feature_names].
  do 4 eexists. exists df. cbv zeta.
  split; [reflexivity|]. split; [reflexivity|]. split; [|reflexivity].
  intros yte Hy. exact (exc_map_length _ _ _ Hy).
Qed.

(** X17: in the report [predict_citations] returns, [predictions] has the
    keys of [results], in the same order and without repetition; every key
    is one of the requested models and one of the four supported names
    (['lgbm'] only when LightGBM is installed); every prediction has one
    value per entry of [actual]; and no feature name is the author name,
    the target or the impact score. *)
Theorem predict_citations_report (sk : sklearn_routines) (self : MLAnalyzer)
    (test_size : Q) (models : option (list string)) (report : prediction_report) :
  predict_citations sk self test_size models = Ok report ->
  map fst (predictions report) = map fst (results report) /\
  NoDup (map fst (results report)) /\
  (forall name, In name (map fst (results report)) ->
     In name (match models with None => default_models | Some l => l end) /\
     In name ["rf"; "lgbm"; "dt"; "svm"] /\
     (name = "lgbm" -> LIGHTGBM_AVAILABLE sk = true)) /\
  (forall name y_pred, In (name, y_pred) (predictions report) ->
     length y_pred = length (actual report)) /\
  (forall c, In c (feature_names report) ->
     c <> "author_name" /\ c <> "total_citations" /\ c <> "impact_score").
Proof.
  intros H.
  destruct (predict_citations_parts sk self test_size models report H)
    as (Xtr & y_train & Xte & y_test & df & Hres & Hpred & Hact & Hfeat).
  cbv zeta in Hres, Hpred.
  set (ms := match models with None => default_models | Some l => l end) in *.
  destruct (train_all_spec sk Xtr y_train Xte y_test ms) as (Ht & Hsub & Hnd).
  destruct (train_all_predictions sk Xtr y_train Xte y_test ms) as (Hkeys & Hp).
  cbv zeta in Ht, Hsub, Hnd, Hkeys, Hp.
  rewrite <- Hres in Ht, Hsub, Hnd, Hkeys. rewrite <- Hpred in Hkeys, Hp.
  split; [exact Hkeys|]. split; [exact Hnd|]. split; [|split].
  - intros name Hin. split.
    + apply list_elem_of_In. apply (elem_of_sublist _ _ _ (proj2 (list_elem_of_In _ _) Hin) Hsub).
    + apply in_map_iff in Hin as (kv & <- & Hkv).
      destruct (Ht kv Hkv) as (yp & Htr).
      exact (train_one_known _ _ _ _ _ _ _ _ Htr).
  - intros name yp Hin. destruct (Hp _ Hin) as (res & Htr). cbn [fst snd] in Htr.
    destruct (train_one_length _ _ _ _ _ _ _ _ Htr) as (yte & Hy & Hl).
    rewrite Hl. exact (Hact yte Hy).
  - intros c Hc. rewrite Hfeat in Hc. apply filter_In in Hc as [_ Hc].
    apply negb_true_iff in Hc. apply orb_false_iff in Hc as [Hc H3].
    apply orb_false_iff in Hc as [H1 H2].
    apply String.eqb_neq in H1, H2, H3. auto.
Qed.

Lemma predict_citations_report_witness :
  exists report,
    predict_citations sk_sample ex_ml (1 # 2) None = Ok report /\
    map fst (predictions report) = map fst (results report).
Proof.
  eexists.
  assert (Hrun : predict_citations sk_sample ex_ml (1 # 2) None = Ok _)
    by (vm_compute; reflexivity).
  split; [exact Hrun|].
  exact (proj1 (predict_citations_report sk_sample ex_ml (1 # 2) None _ Hrun)).
Defined.

(** * Cleaned author lists *)

Lemma strip_idem (s : string) : PyStr.strip (PyStr.strip s) = PyStr.strip s.
Proof.
  assert (Hl : PyStr.lstrip (PyStr.strip s) = PyStr.strip s).
  { destruct (PyStr.strip s) as [|c r] eqn:Hs; [reflexivity|].
    simpl. rewrite (strip_head _ _ _ Hs). reflexivity. }
  unfold PyStr.strip at 1. rewrite Hl. unfold PyStr.strip. apply rstrip_idem.
Qed.

Lemma clean_author_list_in (authors : list pyval) (a : string) :
  In a (clean_author_list authors) ->
  a <> EmptyString /\ PyStr.strip a = a /\
  exists s, In (PStr s) authors /\ a = PyStr.strip (sub_quotes (PyStr.strip s)).
Proof.
  induction authors as [|[s|] rest IH]; simpl; [tauto| |].
  - destruct (String.eqb_spec (PyStr.strip (sub_quotes (PyStr.strip s))) "") as [He|Hne].
    + intros H. destruct (IH H) as (H1 & H2 & s' & H3 & H4). eauto 6.
    + intros [<-|H].
      * split; [exact Hne|]. split; [apply strip_idem | eauto].
      * destruct (IH H) as (H1 & H2 & s' & H3 & H4). eauto 6.
  - intros H. destruct (IH H) as (H1 & H2 & s' & H3 & H4). eauto 6.
Qed.

Lemma clean_author_list_length (authors : list pyval) :
  length (clean_author_list authors) <= length authors.
Proof.
  induction authors as [|[s|] rest IH]; simpl; [lia| |lia].
  destruct (String.eqb _ _); simpl; lia.
Qed.

(** X18: the list branch of [_clean_author_list] returns at most one name
    per entry, and every name it returns is non-empty, has no whitespace
    around it, and is the cleaned form of a string of the list. *)
Theorem clean_author_list_names (authors : list pyval) :
  length (clean_author_list authors) <= length authors /\
  Forall (fun a => a <> EmptyString /\ PyStr.strip a = a /\
                   exists s, In (PStr s) authors /\
                             a = PyStr.strip (sub_quotes (PyStr.strip s)))
         (clean_author_list authors).
Proof.
  split; [apply clean_author_list_length|].
  apply List.Forall_forall. intros a Ha. exact (clean_author_list_in authors a Ha).
Qed.

Lemma lower_nonempty (s : string) : s <> EmptyString -> PyStr.lower s <> EmptyString.
Proof. destruct s; [congruence | discriminate]. Qed.

Lemma lower_strip (s : string) : PyStr.strip (PyStr.lower s) = PyStr.lower (PyStr.strip s).
Proof. unfold PyStr.strip. rewrite lower_lstrip, lower_rstrip. reflexivity. Qed.

Lemma replace_2sp_nonempty (s : string) :
  s <> EmptyString -> PyStr.replace_2sp s <> EmptyString.
Proof.
  destruct s as [|c [|c' r]]; [congruence | discriminate |].
  intros _. cbn [PyStr.replace_2sp]. destruct (_ && _)%bool; discriminate.
Qed.

Lemma collapse_ws_nonempty (s : string) :
  s <> EmptyString -> PyStr.collapse_ws s <> EmptyString.
Proof.
  destruct s as [|c r]; [congruence|]. intros _. unfold PyStr.collapse_ws. simpl.
  destruct (PyStr.isspace c); discriminate.
Qed.

Lemma stripped_name_survives (a : string) :
  a <> EmptyString -> PyStr.strip a = a ->
  normalize a <> EmptyString /\ normalize_author_name a <> EmptyString.
Proof.
  intros Hne Hs. unfold normalize, normalize_author_name.
  rewrite lower_strip, Hs. split.
  - apply replace_2sp_nonempty, lower_nonempty, Hne.
  - apply collapse_ws_nonempty, lower_nonempty, Hne.
Qed.

Lemma normalized_authors_strings (l : list string) :
  normalized_authors (map PStr l) = map normalize l.
Proof. induction l as [|a l IH]; simpl; [reflexivity | rewrite IH; reflexivity]. Qed.

(** X19: names that [_clean_author_list] returns keep a name through both
    normalisations, so the graph built from publications whose author lists
    it cleaned has no node with the empty name. *)
Theorem cleaned_authors_keep_a_name (raw : list (list pyval * string)) :
  Forall (fun r => Forall (fun a => normalize a <> EmptyString /\
                                    normalize_author_name a <> EmptyString)
                          (clean_author_list (fst r))) raw /\
  Forall (fun u => u <> EmptyString)
         (nodes (build_coauthorship_network (map cleaned_publication raw))).
Proof.
  assert (Hname : forall l a, In a (clean_author_list l) ->
            normalize a <> EmptyString /\ normalize_author_name a <> EmptyString).
  { intros l a Ha. destruct (clean_author_list_in l a Ha) as (H1 & H2 & _).
    exact (stripped_name_survives a H1 H2). }
  split.
  - apply List.Forall_forall. intros r _. apply List.Forall_forall. intros a Ha.
    exact (Hname _ a Ha).
  - apply List.Forall_forall. intros u Hu.
    destruct (rows_fold_consistent (map cleaned_publication raw) empty_graph
                empty_graph_consistent) as (_ & Hn).
    apply Hn in Hu as [[]|(row & Hrow & _ & Hin)].
    apply in_map_iff in Hrow as (r & <- & _).
    unfold cleaned_publication in Hin. cbn [authors] in Hin.
    rewrite normalized_authors_strings in Hin.
    apply in_map_iff in Hin as (a & <- & Ha).
    exact (proj1 (Hname _ a Ha)).
Qed.
